(** * bot-viethoang: the daily digest pipeline

A shallow embedding of the aggregation, truncation and assembly code of
the bot (packages [usecase], [discord], [articles], [writing] and
[leetcode]) together with the properties of its specification.

Conventions of the embedding:
- a Go [string] is its sequence of bytes, [list ascii]; [len] is the
  byte length, as in Go;
- a Go [int] is a [Z]; every integer computed here is a length, a
  length plus a small constant or a difference of a positive count and
  a length, so the 64-bit wrap-around is never reached;
- a Go call that can panic (a slice expression out of range) returns
  [option], [None] standing for the run-time panic;
- a Go result pair [(v, err)] is a pair whose second component is
  [option error]; [nil] and empty slices are both [[]];
- a nilable pointer or interface value is an [option]. *)

From Stdlib Require Import ZArith Lia Ascii String List DecimalString.
From stdpp Require Import base option list gmap strings.

Local Open Scope Z_scope.

(** ** Go strings and the functions of package [strings] used by the bot *)

Abbreviation gostring := (list ascii).

(** A string literal, as its bytes. *)
Definition str (s : string) : gostring := list_ascii_of_string s.

Definition len {A} (l : list A) : Z := Z.of_nat (length l).

(** [s[:hi]]: panics unless [0 <= hi <= len(s)]. *)
Definition slice_to (s : gostring) (hi : Z) : option gostring :=
  if decide (0 ≤ hi ≤ len s) then Some (take (Z.to_nat hi) s) else None.

(** [fmt.Sprintf("%d", n)]. *)
Definition itoa (n : Z) : gostring := str (NilZero.string_of_int (Z.to_int n)).

Module GoStrings.

(** The ASCII white space of Go's [asciiSpace] table:
    tab, line feed, vertical tab, form feed, carriage return, space. *)
Definition asciiSpace (b : N) : bool :=
  ((9 <=? b) && (b <=? 13) || (b =? 32))%N.

(** Width in bytes of the white space rune ([unicode.IsSpace]) encoded at
    the head of [s], [0] when [s] does not start with one.  Besides the
    ASCII ones these are U+0085, U+00A0, U+1680, U+2000..U+200A, U+2028,
    U+2029, U+202F, U+205F and U+3000 in their UTF-8 encodings. *)
Definition spaceWidth (s : gostring) : nat :=
  match List.map N_of_ascii (take 3 s) with
  | b0 :: rest =>
      if asciiSpace b0 then 1%nat
      else match b0, rest with
           | 194%N, b1 :: _ => if ((b1 =? 133) || (b1 =? 160))%N then 2%nat else 0%nat
           | 225%N, 154%N :: 128%N :: _ => 3%nat
           | 226%N, 128%N :: b2 :: _ =>
               if ((128 <=? b2) && (b2 <=? 138) || (b2 =? 168) || (b2 =? 169)
                   || (b2 =? 175))%N then 3%nat else 0%nat
           | 226%N, 129%N :: 159%N :: _ => 3%nat
           | 227%N, 128%N :: 128%N :: _ => 3%nat
           | _, _ => 0%nat
           end
  | [] => 0%nat
  end.

(** Width of the white space rune that ends [s] ([utf8.DecodeLastRune]
    walks back to the nearest start byte, which for these encodings is
    the first byte of the token). *)
Definition spaceWidthEnd (s : gostring) : nat :=
  let n := length s in
  if decide (spaceWidth (drop (n - 1) s) = 1%nat) then 1%nat
  else if decide ((2 ≤ n)%nat ∧ spaceWidth (drop (n - 2) s) = 2%nat) then 2%nat
  else if decide ((3 ≤ n)%nat ∧ spaceWidth (drop (n - 3) s) = 3%nat) then 3%nat
  else 0%nat.

(** [strings.TrimLeftFunc(s, unicode.IsSpace)]; [skip] counts the bytes
    still to drop of a multi-byte white space rune. *)
Fixpoint trimLeft (s : gostring) (skip : nat) : gostring :=
  match s with
  | [] => []
  | _ :: t =>
      match skip with
      | S k => trimLeft t k
      | O => match spaceWidth s with
             | O => s
             | S k => trimLeft t k
             end
      end
  end.

(** [strings.TrimRightFunc(s, unicode.IsSpace)], with the length of [s]
    as the bound of the loop. *)
Fixpoint trimRight (fuel : nat) (s : gostring) : gostring :=
  match fuel with
  | O => s
  | S f => match spaceWidthEnd s with
           | O => s
           | w => trimRight f (take (length s - w) s)
           end
  end.

(** [strings.TrimSpace]: leading, then trailing white space removed. *)
Definition TrimSpace (s : gostring) : gostring :=
  let l := trimLeft s 0 in trimRight (length l) l.

(** [strings.Fields]: the maximal runs of bytes free of white space
    runes; [cur] is the field being read. *)
Fixpoint fieldsFrom (s : gostring) (skip : nat) (cur : gostring) : list gostring :=
  match s with
  | [] => match cur with [] => [] | _ => [cur] end
  | c :: t =>
      match skip with
      | S k => fieldsFrom t k cur
      | O => match spaceWidth s with
             | O => fieldsFrom t 0 (cur ++ [c])
             | S k => match cur with [] => [] | _ => [cur] end ++ fieldsFrom t k []
             end
      end
  end.

Definition Fields (s : gostring) : list gostring := fieldsFrom s 0 [].

(** [strings.Join]. *)
Fixpoint Join (elems : list gostring) (sep : gostring) : gostring :=
  match elems with
  | [] => []
  | [x] => x
  | x :: rest => x ++ sep ++ Join rest sep
  end.

(** [strings.LastIndex(s, string(c))] for a one-byte separator: the index
    of the last byte equal to [c], [-1] when there is none. *)
Fixpoint LastIndex (s : gostring) (c : ascii) : Z :=
  match s with
  | [] => -1
  | x :: t =>
      let r := LastIndex t c in
      if decide (0 ≤ r) then r + 1
      else if decide (x = c) then 0 else -1
  end.

End GoStrings.

(** The three-byte continuation marker. *)
Definition ellipsis : gostring := str "...".

Definition error := gostring.

(** ** Package [model] *)

Module model.

Module Article.
Record t := mk { Title : gostring; Link : gostring; Source : gostring }.
End Article.

Module Problem.
Record t := mk {
  ID : Z;
  Title : gostring;
  Slug : gostring;
  Difficulty : gostring;
  Link : gostring;
  Content : gostring;
  Topics : list gostring
}.
End Problem.

Module NotificationField.
Record t := mk { Name : gostring; Value : gostring; Inline : bool }.
End NotificationField.

Module Notification.
Record t := mk {
  Title : gostring;
  Description : gostring;
  Fields : list NotificationField.t
}.
End Notification.

End model.
Import model.

(** ** Package [usecase]: the digest orchestration and assembler *)

Module usecase.

Definition nl : gostring := ["010"%char].

(** Cuts [content] at [limit] bytes, then back to the last space when
    there is one after the first byte, and appends the marker. *)
Definition trimForDiscord (content : gostring) (limit : Z) : option gostring :=
  if decide (len content ≤ limit) then Some content
  else
    trimmed ← slice_to content limit;
    let lastSpace := GoStrings.LastIndex trimmed " "%char in
    trimmed ← (if decide (0 < lastSpace) then slice_to trimmed lastSpace
                else Some trimmed);
    Some (trimmed ++ ellipsis).

Definition summarizeText (content : gostring) (limit : Z) : option gostring :=
  let clean := GoStrings.Join (GoStrings.Fields content) (str " ") in
  if decide (clean = []) then Some []
  else if decide (len clean ≤ limit) then Some clean
  else
    trimmed ← slice_to clean limit;
    let lastSpace := GoStrings.LastIndex trimmed " "%char in
    trimmed ← (if decide (0 < lastSpace) then slice_to trimmed lastSpace
                else Some trimmed);
    Some (trimmed ++ ellipsis).

Definition formatProblemDetail (p : Problem.t) : option gostring :=
  let b := str "**Link:** [" ++ Problem.Title p ++ str "](" ++ Problem.Link p
           ++ str ")" ++ nl in
  let b := b ++ str "**Difficulty:** " ++ Problem.Difficulty p ++ nl in
  let b := if decide (0 < len (Problem.Topics p))
           then b ++ str "**Topics:** "
                  ++ GoStrings.Join (Problem.Topics p) (str ", ") ++ nl
           else b in
  if decide (Problem.Content p ≠ []) then
    summary ← summarizeText (Problem.Content p) 420;
    Some (if decide (summary ≠ [])
          then b ++ nl ++ str "> _" ++ summary ++ str "_"
          else b)
  else Some b.

Definition formatPracticeQueue (problems : list Problem.t) : gostring :=
  let lines :=
    imap (λ i p,
            str "**" ++ itoa (Z.of_nat i + 1) ++ str ". [" ++ Problem.Title p
            ++ str "](" ++ Problem.Link p ++ str ")**" ++ nl
            ++ str "   Difficulty: *" ++ Problem.Difficulty p ++ str "*")
         problems in
  GoStrings.Join lines (nl ++ nl).

Definition formatArticleList (articles : list Article.t) : gostring :=
  let lines :=
    imap (λ i a,
            let source := if decide (Article.Source a = []) then str "Curated"
                          else Article.Source a in
            str "**" ++ itoa (Z.of_nat i + 1) ++ str ".** [" ++ Article.Title a
            ++ str "](" ++ Article.Link a ++ str ")" ++ nl
            ++ str "   _from " ++ source ++ str "_")
         articles in
  GoStrings.Join lines (nl ++ nl).

Definition fallbackDescription (daily : option Problem.t) : gostring :=
  match daily with
  | None => str "Curated plan for algorithms practice today."
  | Some daily =>
      let description := str "**Daily Focus:** " ++ Problem.Title daily ++ str " ("
                         ++ Problem.Difficulty daily ++ str ")" ++ nl in
      if decide (0 < len (Problem.Topics daily))
      then description ++ str "Chủ đề trọng tâm: "
             ++ GoStrings.Join (Problem.Topics daily) (str ", ") ++ str "."
      else description
             ++ str "Tập trung phân tích kỹ thuật lõi và cách tối ưu lời giải."
  end.

Definition buildNotification (daily : option Problem.t) (random : list Problem.t)
    (articles : list Article.t) (insight : gostring) : option Notification.t :=
  fields ← match daily with
            | Some p =>
                v ← formatProblemDetail p;
                Some [NotificationField.mk (str "Daily Challenge") v false]
            | None => Some []
            end;
  let fields :=
    if decide (0 < len random)
    then fields ++ [NotificationField.mk (str "Practice Queue")
                      (formatPracticeQueue random) false]
    else fields in
  let fields :=
    if decide (0 < len articles)
    then fields ++ [NotificationField.mk (str "Algorithm Reading List")
                      (formatArticleList articles) false]
    else fields in
  let description := str "Here is your curated practice plan for today." in
  let description :=
    if decide (insight ≠ []) then insight else fallbackDescription daily in
  Some (Notification.mk (str "Daily LeetCode & Algorithms Digest")
          description fields).

(** The collaborators of [ports]; each is called at most once in a run,
    so its answer is a function of its arguments.  [Logger] calls never
    affect control flow and are left out. *)
Record ProblemProvider := {
  GetDailyChallenge : option Problem.t * option error;
  GetRandomProblems : Z → list Problem.t * option error
}.
Definition ArticleProvider := Z → list Article.t * option error.
Definition ArticleWriter :=
  option Problem.t → list Problem.t → list Article.t → gostring * option error.
Definition Notifier := Notification.t → option error.

Record DailyDigest := {
  problems : ProblemProvider;
  articles : option ArticleProvider;
  writer : option ArticleWriter;
  notifier : Notifier;
  randomCount : Z;
  articleCount : Z
}.

(** The loop of [fetchRandomProblems] over the provider's answer. *)
Fixpoint uniqueProblems (problems : list Problem.t) (seen : gset gostring)
    (unique : list Problem.t) : list Problem.t :=
  match problems with
  | [] => unique
  | p :: rest =>
      if decide (Problem.Slug p ∈ seen) then uniqueProblems rest seen unique
      else uniqueProblems rest ({[Problem.Slug p]} ∪ seen) (unique ++ [p])
  end.

Definition fetchRandomProblems (d : DailyDigest) (daily : option Problem.t)
    : list Problem.t :=
  if decide (randomCount d ≤ 0) then []
  else
    let '(problems, err) := GetRandomProblems (problems d) (randomCount d) in
    match err with
    | Some _ => []
    | None =>
        let dailySlug := match daily with
                         | Some p => Problem.Slug p
                         | None => []
                         end in
        let seen : gset gostring :=
          if decide (dailySlug ≠ []) then {[dailySlug]} else ∅ in
        uniqueProblems problems seen []
    end.

Definition fetchArticles (d : DailyDigest) : list Article.t :=
  match articles d with
  | None => []
  | Some provider =>
      if decide (articleCount d ≤ 0) then []
      else
        let '(articles, err) := provider (articleCount d) in
        match err with
        | Some _ => []
        | None => articles
        end
  end.

Definition composeInsight (d : DailyDigest) (daily : option Problem.t)
    (random : list Problem.t) (articles : list Article.t) : option gostring :=
  match writer d with
  | None => Some []
  | Some w =>
      let '(insight, err) := w daily random articles in
      match err with
      | Some _ => Some []
      | None => trimForDiscord insight 1900
      end
  end.

(** The outcome of a run: the error returned and the notifications handed
    to [Notifier.Send], in order. *)
Record outcome := { returned : option error; sent : list Notification.t }.

Definition Run (d : DailyDigest) : option outcome :=
  let '(daily, err) := GetDailyChallenge (problems d) in
  match err with
  | Some e => Some {| returned := Some e; sent := [] |}
  | None =>
      let randomProblems := fetchRandomProblems d daily in
      let articles := fetchArticles d in
      insight ← composeInsight d daily randomProblems articles;
      notification ← buildNotification daily randomProblems articles insight;
      Some {| returned := notifier d notification; sent := [notification] |}
  end.

End usecase.

(** ** Package [discord]: the webhook notifier *)

Module discord.

Definition truncate (value : gostring) (limit : Z) : option gostring :=
  if decide (len value ≤ limit) then Some value
  else
    cut ← slice_to value (limit - 3);
    Some (GoStrings.TrimSpace cut ++ ellipsis).

(** One entry of the ["fields"] array of the embed. *)
Record embedField := { name : gostring; value : gostring; inline : bool }.

Definition convertFields (fields : list NotificationField.t)
    : option (list embedField) :=
  mapM (λ field,
          n ← truncate (NotificationField.Name field) 256;
          v ← truncate (NotificationField.Value field) 1024;
          Some {| name := n; value := v; inline := NotificationField.Inline field |})
       fields.

(** The embed of the payload; its timestamp, colour, footer and author do
    not depend on the notification and are left out. *)
Record embed := {
  title : gostring;
  description : gostring;
  fields : list embedField
}.

Definition payload (notification : Notification.t) : option embed :=
  t ← truncate (Notification.Title notification) 256;
  d ← truncate (Notification.Description notification) 4096;
  fs ← convertFields (Notification.Fields notification);
  Some {| title := t; description := d; fields := fs |}.

(** [post] is the outcome of marshalling and posting the payload. *)
Record Webhook := { webhookURL : gostring; post : embed → option error }.

Definition Send (w : Webhook) (notification : Notification.t)
    : option (option error) :=
  if decide (webhookURL w = []) then Some (Some (str "webhook URL is empty"))
  else
    p ← payload notification;
    Some (post w p).

End discord.

(** ** [math/rand]: the Fisher-Yates loop of [Rand.Shuffle] *)

(** The callback of both call sites, [l[i], l[j] = l[j], l[i]].  [Shuffle]
    only passes indices below the length. *)
Definition swap {A} (l : list A) (i j : nat) : list A :=
  match l !! i, l !! j with
  | Some x, Some y => <[i:=y]> (<[j:=x]> l)
  | _, _ => l
  end.

(** [for i := n - 1; i > 0; i-- { j := r.intn(i + 1); swap(i, j) }], where
    [draw i] is the number the generator yields at index [i], reduced to
    [0..i]. *)
Fixpoint shuffleFrom {A} (draw : nat → nat) (i : nat) (l : list A) : list A :=
  match i with
  | O => l
  | S i' => shuffleFrom draw i' (swap l i (draw i mod (S i)))
  end.

Definition Shuffle {A} (draw : nat → nat) (l : list A) : list A :=
  shuffleFrom draw (length l - 1) l.

(** ** Package [articles]: the composite provider and the Medium provider *)

Module articles.

Section WithToLower.

(** [strings.ToLower], the Unicode lower-casing of the Go library. *)
Variable ToLower : gostring → gostring.

Definition canonicalArticleKey (article : Article.t) : gostring :=
  if decide (Article.Link article ≠ [])
  then ToLower (GoStrings.TrimSpace (Article.Link article))
  else if decide (Article.Title article ≠ [])
  then ToLower (GoStrings.TrimSpace (Article.Title article))
  else [].

Definition ArticleProvider := Z → list Article.t * option error.

Record CompositeProvider := { providers : list ArticleProvider }.

(** Keeps the providers that are not nil. *)
Definition NewCompositeProvider (ps : list (option ArticleProvider))
    : CompositeProvider :=
  {| providers := omap id ps |}.

(** The variables of the loop, and [calls], the requests made so far with
    their answers (the only effect of the loop besides logging). *)
Record loopState := {
  results : list Article.t;
  seen : gset gostring;
  firstErr : option error;
  calls : list (Z * (list Article.t * option error))
}.

(** The inner loop over one provider's items. *)
Fixpoint addItems (count : Z) (items : list Article.t) (st : loopState)
    : loopState :=
  match items with
  | [] => st
  | item :: rest =>
      let key := canonicalArticleKey item in
      if decide (key = []) then addItems count rest st
      else if decide (key ∈ seen st) then addItems count rest st
      else
        let st' := {| results := results st ++ [item];
                      seen := {[key]} ∪ seen st;
                      firstErr := firstErr st;
                      calls := calls st |} in
        if decide (count ≤ len (results st')) then st'
        else addItems count rest st'
  end.

(** The outer loop over the providers. *)
Fixpoint queryProviders (count : Z) (ps : list ArticleProvider) (st : loopState)
    : loopState :=
  match ps with
  | [] => st
  | provider :: rest =>
      if decide (count ≤ len (results st)) then st
      else
        let request := count - len (results st) in
        let '(items, err) := provider request in
        let st := {| results := results st; seen := seen st;
                     firstErr := firstErr st;
                     calls := calls st ++ [(request, (items, err))] |} in
        match err with
        | Some e =>
            queryProviders count rest
              {| results := results st; seen := seen st;
                 firstErr := match firstErr st with
                             | None => Some e
                             | Some e0 => Some e0
                             end;
                 calls := calls st |}
        | None => queryProviders count rest (addItems count items st)
        end
  end.

Definition initialState : loopState :=
  {| results := []; seen := ∅; firstErr := None; calls := [] |}.

(** The state in which the loop of [GetRecommendedArticles] ends. *)
Definition finalState (c : CompositeProvider) (count : Z) : loopState :=
  queryProviders count (providers c) initialState.

(** [(c *CompositeProvider) GetRecommendedArticles]. *)
Definition GetRecommendedArticles (c : CompositeProvider) (count : Z)
    : list Article.t * option error :=
  if decide (count ≤ 0) then ([], None)
  else
    let st := finalState c count in
    match firstErr st with
    | Some e => if decide (len (results st) = 0) then ([], Some e)
                else (results st, None)
    | None => (results st, None)
    end.

(** *** The Medium provider *)

Inductive feed := Primary | Proxy.

(** [fetchPrimary] and [fetchProxy] are the answers of the two feeds,
    [draw] the numbers of the provider's generator, and [rangeOrder] the
    order in which [range] walks the map, which Go leaves unspecified. *)
Record MediumProvider := {
  fetchPrimary : list Article.t * option error;
  fetchProxy : list Article.t * option error;
  draw : nat → nat;
  rangeOrder : list (gostring * Article.t) → list (gostring * Article.t);
  rangeOrder_perm : ∀ l, rangeOrder l ≡ₚ l
}.

(** The loop filling the [dedup] map. *)
Fixpoint dedupByLink (aggregated : list Article.t)
    (dedup : gmap gostring Article.t) : gmap gostring Article.t :=
  match aggregated with
  | [] => dedup
  | article :: rest =>
      let key := ToLower (GoStrings.TrimSpace (Article.Link article)) in
      if decide (key = []) then dedupByLink rest dedup
      else match dedup !! key with
           | Some _ => dedupByLink rest dedup
           | None => dedupByLink rest (<[key:=article]> dedup)
           end
  end.

(** The articles gathered from the feeds, the last error, and the feeds
    that were fetched. *)
Definition gather (m : MediumProvider) (count : Z)
    : list Article.t * option error * list feed :=
  let '(items, err) := fetchPrimary m in
  let aggregated := match err with None => items | Some _ => [] end in
  let lastErr := err in
  if decide (len aggregated < count) then
    let '(items, err) := fetchProxy m in
    match err with
    | None => (aggregated ++ items, lastErr, [Primary; Proxy])
    | Some e => (aggregated, Some e, [Primary; Proxy])
    end
  else (aggregated, lastErr, [Primary]).

(** The unique articles, in the order of the [range] over the map. *)
Definition uniqueArticles (m : MediumProvider) (aggregated : list Article.t)
    : list Article.t :=
  (rangeOrder m (map_to_list (dedupByLink aggregated ∅))).*2.

(** [(m *MediumProvider) GetRecommendedArticles]: the result pair and the
    feeds fetched.  The final slice
    [unique[:count]] is in range, [count] being positive and clamped to
    the length just before. *)
Definition Medium_GetRecommendedArticles (m : MediumProvider) (count : Z)
    : list Article.t * option error * list feed :=
  if decide (count ≤ 0) then ([], None, [])
  else
    let '(aggregated, lastErr, fetched) := gather m count in
    if decide (len aggregated = 0) then
      match lastErr with
      | Some e => ([], Some e, fetched)
      | None => ([], Some (str "no medium articles available"), fetched)
      end
    else
      let unique := uniqueArticles m aggregated in
      if decide (len unique = 0) then
        ([], Some (str "medium feed returned no usable articles"), fetched)
      else
        let unique := Shuffle (draw m) unique in
        let count := if decide (len unique < count) then len unique else count in
        (take (Z.to_nat count) unique, None, fetched).

End WithToLower.

End articles.

(** ** Package [writing]: the Gemini insight composer *)

Module writing.

Definition maxDiscordDescription : Z := 2000.

Definition trimText (text : gostring) (max : Z) : option gostring :=
  if decide (len text ≤ max) then Some text
  else
    cut ← slice_to text (max - 3);
    Some (GoStrings.TrimSpace cut ++ ellipsis).

(** [generate] is the outcome of the exchange with the backend for a model
    name: the text, the HTTP status and the error.  The request body,
    built from the prompt, is the same for every model tried. *)
Record GeminiWriter := {
  apiKey : gostring;
  model : gostring;
  generate : gostring → gostring * Z * option error
}.

Definition StatusNotFound : Z := 404.
Definition StatusTooManyRequests : Z := 429.

(** The loop of [Compose] over [modelsToTry], with what follows it. *)
Fixpoint tryModels (g : GeminiWriter) (modelsToTry : list gostring)
    (lastErr : option error) : option (gostring * option error) :=
  match modelsToTry with
  | [] =>
      Some ([], Some (match lastErr with
                      | Some e => e
                      | None => str "gemini writer failed without detailed error"
                      end))
  | modelName :: rest =>
      let '(text, status, err) := generate g modelName in
      match err with
      | None =>
          t ← trimText text maxDiscordDescription;
          Some (t, None)
      | Some e =>
          if decide (status = StatusNotFound ∨ status = StatusTooManyRequests)
          then tryModels g rest (Some e)
          else Some ([], Some e)
      end
  end.

Definition Compose (g : GeminiWriter) : option (gostring * option error) :=
  if decide (apiKey g = [] ∨ model g = [])
  then Some ([], Some (str "gemini writer not configured"))
  else tryModels g [model g] None.

End writing.

(** ** Package [leetcode]: the random problems of the problem source *)

Module leetcode.

(** One entry of [stat_status_pairs] in the decoded problemset. *)
Record statStatusPair := {
  FrontendQuestionID : Z;
  QuestionID : Z;
  QuestionTitle : gostring;
  QuestionTitleSlug : gostring;
  Level : Z;
  PaidOnly : bool
}.

Definition difficultyToString (level : Z) : gostring :=
  if decide (level = 1) then str "Easy"
  else if decide (level = 2) then str "Medium"
  else if decide (level = 3) then str "Hard"
  else str "Unknown".

Definition resolveLink (slug fallback : gostring) : gostring :=
  if decide (fallback ≠ []) then str "https://leetcode.com" ++ fallback
  else str "https://leetcode.com/problems/" ++ slug ++ str "/".

Definition toProblem (item : statStatusPair) : Problem.t :=
  Problem.mk (QuestionID item) (QuestionTitle item) (QuestionTitleSlug item)
    (difficultyToString (Level item)) (resolveLink (QuestionTitleSlug item) [])
    [] [].

(** The loop building [candidates]. *)
Fixpoint collectCandidates (pairs : list statStatusPair)
    (candidates : list Problem.t) : list Problem.t :=
  match pairs with
  | [] => candidates
  | item :: rest =>
      if decide (PaidOnly item = true ∨ QuestionTitleSlug item = [])
      then collectCandidates rest candidates
      else collectCandidates rest (candidates ++ [toProblem item])
  end.

(** [problemset] is the outcome of fetching and decoding the problemset,
    [draw] the numbers of the client's generator. *)
Record Client := {
  problemset : list statStatusPair * option error;
  draw : nat → nat
}.

(** The final slice [candidates[:count]] is in range, [count] being
    positive and clamped to the length before the shuffle. *)
Definition GetRandomProblems (c : Client) (count : Z)
    : list Problem.t * option error :=
  if decide (count ≤ 0) then ([], None)
  else
    let '(pairs, err) := problemset c in
    match err with
    | Some e => ([], Some e)
    | None =>
        let candidates := collectCandidates pairs [] in
        if decide (len candidates = 0)
        then ([], Some (str "no problems available"))
        else
          let count := if decide (len candidates < count) then len candidates
                       else count in
          let candidates := Shuffle (draw c) candidates in
          (take (Z.to_nat count) candidates, None)
    end.

End leetcode.

(** ** Sample data *)

Module samples.

(** [strings.ToLower] on ASCII strings. *)
Definition toLowerASCII (s : gostring) : gostring :=
  List.map (λ c, let n := N_of_ascii c in
                 if ((65 <=? n) && (n <=? 90))%N then ascii_of_N (n + 32) else c) s.

Definition problem (id : Z) (title slug difficulty : string) : Problem.t :=
  Problem.mk id (str title) (str slug) (str difficulty)
    (str "https://leetcode.com/problems/" ++ str slug ++ str "/") [] [].

Definition twoSum : Problem.t := problem 1 "Two Sum" "two-sum" "Easy".
Definition threeSum : Problem.t := problem 15 "3Sum" "three-sum" "Medium".
Definition fourSum : Problem.t := problem 18 "4Sum" "four-sum" "Medium".

(** A problem whose title alone exceeds the limit of a field value. *)
Definition longProblem : Problem.t :=
  Problem.mk 15 (replicate 1100 "a"%char) (str "three-sum") (str "Medium")
    (str "https://leetcode.com/problems/three-sum/") [] [].

Definition digestOf (daily : option Problem.t * option error)
    (random : list Problem.t * option error) (randomCount : Z)
    : usecase.DailyDigest :=
  {| usecase.problems :=
       {| usecase.GetDailyChallenge := daily;
          usecase.GetRandomProblems := λ _, random |};
     usecase.articles := None;
     usecase.writer := None;
     usecase.notifier := λ _, None;
     usecase.randomCount := randomCount;
     usecase.articleCount := 0 |}.

(** The scenario of the specification: the provider answers with the
    daily problem among the random ones. *)
Definition scenario : usecase.DailyDigest :=
  digestOf (Some twoSum, None) ([twoSum; threeSum; fourSum], None) 2.

Definition failing : usecase.DailyDigest :=
  digestOf (None, Some (str "unexpected status 500")) ([threeSum], None) 2.

(** Every optional step fails. *)
Definition degraded : usecase.DailyDigest :=
  {| usecase.problems :=
       {| usecase.GetDailyChallenge := (Some twoSum, None);
          usecase.GetRandomProblems := λ _, ([], Some (str "perform request")) |};
     usecase.articles := Some (λ _, ([], Some (str "fetch medium feed")));
     usecase.writer := Some (λ _ _ _, ([], Some (str "gemini writer status 500")));
     usecase.notifier := λ _, None;
     usecase.randomCount := 2;
     usecase.articleCount := 2 |}.

Definition long : usecase.DailyDigest :=
  digestOf (Some twoSum, None) ([longProblem], None) 1.

(** A daily problem and a random problem that both carry an empty slug. *)
Definition unnamed : Problem.t := problem 0 "Untitled" "" "Unknown".

Definition blank : usecase.DailyDigest :=
  digestOf (Some unnamed, None) ([unnamed; threeSum], None) 2.

Definition article (title link : string) : Article.t :=
  Article.mk (str title) (str link) (str "Medium").

Definition binarySearch : Article.t :=
  article "Binary Search" "https://medium.com/@a/binary-search".

Definition binarySearchAgain : Article.t :=
  article "Binary search, again" "  HTTPS://medium.com/@a/Binary-Search ".

Definition heaps : Article.t := article "Heaps" "https://medium.com/@b/heaps".

Definition tries : Article.t := article "Tries" "https://dev.to/c/tries".

(** A source that is down, one that answers with no article, and one that
    answers with the given articles whatever the request. *)
Definition down : articles.ArticleProvider :=
  λ _, ([], Some (str "fetch medium feed")).

Definition dry : articles.ArticleProvider := λ _, ([], None).

Definition feedOf (items : list Article.t) : articles.ArticleProvider :=
  λ _, (items, None).

Definition downThenDry : articles.CompositeProvider :=
  {| articles.providers := [down; dry] |}.

Definition allDown : articles.CompositeProvider :=
  {| articles.providers := [down; down] |}.

Definition twoFeeds : articles.CompositeProvider :=
  {| articles.providers :=
       [feedOf [binarySearch; binarySearchAgain; heaps]; feedOf [heaps; tries]] |}.

(** A Medium provider whose primary feed repeats an article and whose map
    is walked in the order of the keys. *)
Definition medium : articles.MediumProvider :=
  {| articles.fetchPrimary := ([binarySearch; binarySearchAgain], None);
     articles.fetchProxy := ([heaps; binarySearch], None);
     articles.draw := λ i, (i + 1)%nat;
     articles.rangeOrder := λ l, l;
     articles.rangeOrder_perm := λ l, reflexivity l |}.

Definition writerOf (text : gostring) : writing.GeminiWriter :=
  {| writing.apiKey := str "key";
     writing.model := str "gemini-2.5-flash";
     writing.generate := λ _, (text, 200, None) |}.

(** A narrative of 2002 bytes whose only space is its second byte. *)
Definition longNarrative : gostring := str "x " ++ replicate 2000 "y"%char.

Definition problemsetClient : leetcode.Client :=
  {| leetcode.problemset :=
       ([ {| leetcode.FrontendQuestionID := 1; leetcode.QuestionID := 1;
             leetcode.QuestionTitle := str "Two Sum";
             leetcode.QuestionTitleSlug := str "two-sum";
             leetcode.Level := 1; leetcode.PaidOnly := false |};
          {| leetcode.FrontendQuestionID := 156; leetcode.QuestionID := 156;
             leetcode.QuestionTitle := str "Binary Tree Upside Down";
             leetcode.QuestionTitleSlug := str "binary-tree-upside-down";
             leetcode.Level := 2; leetcode.PaidOnly := true |};
          {| leetcode.FrontendQuestionID := 0; leetcode.QuestionID := 0;
             leetcode.QuestionTitle := str "Draft";
             leetcode.QuestionTitleSlug := [];
             leetcode.Level := 3; leetcode.PaidOnly := false |} ], None);
     leetcode.draw := λ i, i |}.

End samples.

(** ** Vocabulary of the properties *)

(** [r] is [text] cut in front of a white space byte, marker appended. *)
Definition cutAtSpace (text r : gostring) : Prop :=
  ∃ k c, r = take k text ++ ellipsis ∧ text !! k = Some c
         ∧ GoStrings.asciiSpace (N_of_ascii c) = true.

(** [r] is a prefix of [s] of at most [L] bytes, marker appended. *)
Definition keptWithMarker (s r : gostring) (L : Z) : Prop :=
  ∃ k, (k ≤ Z.to_nat L)%nat ∧ r = take k s ++ ellipsis.

(** The length of a joined list, counting one separator after each element. *)
Definition joinedSize (elems : list gostring) : Z :=
  foldr (λ f n, len f + 1 + n) 0 elems.

Definition digestTitle : gostring := str "Daily LeetCode & Algorithms Digest".

Definition fieldNames : list gostring :=
  [str "Daily Challenge"; str "Practice Queue"; str "Algorithm Reading List"].

(** How an embed field relates to the notification field it comes from. *)
Definition converted (f : NotificationField.t) (e : discord.embedField) : Prop :=
  len (discord.name e) ≤ 256
  ∧ len (discord.value e) ≤ 1024
  ∧ (len (NotificationField.Name f) ≤ 256
     → discord.name e = NotificationField.Name f)
  ∧ (len (NotificationField.Value f) ≤ 1024
     → discord.value e = NotificationField.Value f)
  ∧ discord.inline e = NotificationField.Inline f.

(** The errors among the recorded calls, in order. *)
Definition errorsOf (calls : list (Z * (list Article.t * option error)))
    : list error :=
  omap (λ call, call.2.2) calls.

(** Each recorded call is the answer of the provider at the same position
    to a request between 1 and [count]. *)
Definition answered (count : Z) (p : articles.ArticleProvider)
    (call : Z * (list Article.t * option error)) : Prop :=
  call.2 = p call.1 ∧ 0 < call.1 ≤ count.

Section KeyVocabulary.

Variable ToLower : gostring → gostring.

(** The invariant of both loops: the results have distinct, non-empty keys,
    all recorded in [seen]. *)
Definition distinctResults (st : articles.loopState) : Prop :=
  NoDup (articles.canonicalArticleKey ToLower <$> articles.results st)
  ∧ ∀ a, a ∈ articles.results st →
         articles.canonicalArticleKey ToLower a ∈ articles.seen st
         ∧ articles.canonicalArticleKey ToLower a ≠ [].

(** The key under which the provider files an article. *)
Definition linkKey (a : Article.t) : gostring :=
  ToLower (GoStrings.TrimSpace (Article.Link a)).

(** The number of distinct non-empty keys among the articles. *)
Definition distinctLinks (l : list Article.t) : Z :=
  len (remove_dups (filter (λ k, k ≠ []) (linkKey <$> l))).

(** The articles of a feed's answer that the provider keeps. *)
Definition fetched (answer : list Article.t * option error) : list Article.t :=
  match answer.2 with
  | None => answer.1
  | Some _ => []
  end.

End KeyVocabulary.

(** ** More of package [strings] *)

Module GoStringsMore.

(** [strings.HasPrefix]. *)
Fixpoint HasPrefix (s prefix : gostring) : bool :=
  match prefix, s with
  | [], _ => true
  | p :: ps, c :: cs => if decide (p = c) then HasPrefix cs ps else false
  | _ :: _, [] => false
  end.

(** [strings.Index]: the first index at which [substr] starts, [-1] when it
    starts nowhere. *)
Fixpoint Index (s substr : gostring) : Z :=
  if HasPrefix s substr then 0
  else match s with
       | [] => -1
       | _ :: t => let r := Index t substr in
                   if decide (0 ≤ r) then r + 1 else -1
       end.

(** [strings.Contains]. *)
Definition Contains (s substr : gostring) : bool := bool_decide (0 ≤ Index s substr).

(** [strings.TrimPrefix]. *)
Definition TrimPrefix (s prefix : gostring) : gostring :=
  if HasPrefix s prefix then drop (length prefix) s else s.

(** [strings.HasSuffix] and [strings.TrimSuffix]. *)
Definition HasSuffix (s suffix : gostring) : bool :=
  bool_decide (length suffix ≤ length s)%nat
  && HasPrefix (drop (length s - length suffix) s) suffix.

Definition TrimSuffix (s suffix : gostring) : gostring :=
  if HasSuffix s suffix then take (length s - length suffix) s else s.

(** [strings.ReplaceAll] for a non-empty [old]: the occurrences are taken
    from the left and do not overlap; [skip] counts the bytes still to drop
    of the occurrence being replaced. *)
Fixpoint replaceFrom (s old new : gostring) (skip : nat) : gostring :=
  match s with
  | [] => []
  | c :: t =>
      match skip with
      | S k => replaceFrom t old new k
      | O => if HasPrefix s old then new ++ replaceFrom t old new (length old - 1)
             else c :: replaceFrom t old new 0
      end
  end.

Definition ReplaceAll (s old new : gostring) : gostring := replaceFrom s old new 0.

End GoStringsMore.

(** ** Package [articles]: the helpers of the Medium feeds *)

Module medium.

(** The slice [link[:idx]] is in range, [idx] being an index of [link]. *)
Definition normalizeMediumLink (link : gostring) : gostring :=
  let link := GoStrings.TrimSpace link in
  if decide (link = []) then []
  else
    let link := GoStringsMore.TrimPrefix link (str "<") in
    let link := GoStringsMore.TrimSuffix link (str ">") in
    let idx := GoStringsMore.Index link (str "?") in
    if decide (idx ≠ -1) then take (Z.to_nat idx) link else link.

(** An [<item>] of the decoded RSS channel. *)
Record feedItem := { ItemTitle : gostring; ItemLink : gostring }.

(** The loop of [fetchPrimary] over the decoded items. *)
Fixpoint primaryArticles (items : list feedItem) (articles : list Article.t)
    : list Article.t :=
  match items with
  | [] => articles
  | item :: rest =>
      let title := GoStrings.TrimSpace (ItemTitle item) in
      let link := normalizeMediumLink (GoStrings.TrimSpace (ItemLink item)) in
      if decide (title = [] ∨ link = []) then primaryArticles rest articles
      else primaryArticles rest
             (articles ++ [Article.mk title link (str "Medium")])
  end.

(** What [fetchPrimary] returns once the feed is decoded into [items]. *)
Definition fetchPrimaryFrom (items : list feedItem)
    : list Article.t * option error :=
  let articles := primaryArticles items [] in
  if decide (len articles = 0) then ([], Some (str "medium primary feed empty"))
  else (articles, None).

(** The loop of [extractFirstMediumURL] over the tokens. *)
Fixpoint firstMediumURL (tokens : list gostring) (candidate : gostring)
    : gostring :=
  match tokens with
  | [] => candidate
  | token :: rest =>
      if GoStringsMore.HasPrefix token (str "https://medium.com/") then
        let clean := normalizeMediumLink token in
        if GoStringsMore.Contains clean (str "/tag/")
        then firstMediumURL rest candidate
        else if decide (candidate = []
                        ∨ GoStringsMore.Contains token (str "?source=") = true)
        then
          if GoStringsMore.Contains token (str "?source=") then clean
          else firstMediumURL rest clean
        else firstMediumURL rest candidate
      else firstMediumURL rest candidate
  end.

Definition extractFirstMediumURL (block : gostring) : gostring :=
  firstMediumURL (GoStrings.Fields block) [].

End medium.

(** ** Package [articles]: the dev.to provider *)

Module devto.

(** One entry of the decoded answer of the dev.to API. *)
Record item := {
  Title : gostring;
  URL : gostring;
  UserName : gostring;
  UserUsername : gostring
}.

(** [response] is the outcome of fetching and decoding the answer, [draw]
    the numbers of the provider's generator. *)
Record DevToProvider := {
  response : list item * option error;
  draw : nat → nat
}.

(** The body of the final loop for one item. *)
Definition toArticle (it : item) : Article.t :=
  let source := UserName it in
  let source := if decide (source = []) then UserUsername it else source in
  let source := if decide (source = []) then str "dev.to" else source in
  Article.mk (Title it) (URL it) source.

(** The final loop reads [payload[i]] for [i < count], in range since
    [count] is clamped to the length before the shuffle. *)
Definition GetRecommendedArticles (d : DevToProvider) (count : Z)
    : list Article.t * option error :=
  if decide (count ≤ 0) then ([], None)
  else
    let '(payload, err) := response d in
    match err with
    | Some e => ([], Some e)
    | None =>
        if decide (len payload = 0) then ([], Some (str "no articles returned"))
        else
          let count := if decide (len payload < count) then len payload else count in
          let payload := Shuffle (draw d) payload in
          (toArticle <$> take (Z.to_nat count) payload, None)
    end.

End devto.

(** ** Package [articles]: the Gemini provider *)

Module gemini.

(** One element of the JSON array the model is asked for. *)
Record item := { Title : gostring; Link : gostring; Source : gostring }.

(** The loop of [extractFirstText] over the parts of every candidate. *)
Fixpoint firstText (parts : list gostring) : gostring :=
  match parts with
  | [] => []
  | text :: rest =>
      if decide (GoStrings.TrimSpace text ≠ []) then text else firstText rest
  end.

Definition extractFirstText (candidates : list (list gostring)) : gostring :=
  firstText (concat candidates).

Section WithJSON.

(** [json.Unmarshal] into the slice of items. *)
Variable Unmarshal : gostring → list item * option error.

(** The loop of [parseArticles] over the items. *)
Fixpoint suggestions (items : list item) (results : list Article.t)
    : list Article.t :=
  match items with
  | [] => results
  | it :: rest =>
      let title := GoStrings.TrimSpace (Title it) in
      let link := GoStrings.TrimSpace (Link it) in
      let source := GoStrings.TrimSpace (Source it) in
      if decide (title = []) then suggestions rest results
      else
        let link := if decide (link = [])
                    then str "https://www.google.com/search?q="
                         ++ GoStringsMore.ReplaceAll title (str " ") (str "+")
                    else link in
        let source := if decide (source = []) then str "Gemini Suggestion"
                      else source in
        suggestions rest (results ++ [Article.mk title link source])
  end.

(** The slice [items[:limit]] is only taken when [limit] is in range. *)
Definition parseArticles (raw : gostring) (limit : Z)
    : list Article.t * option error :=
  let raw := GoStrings.TrimSpace raw in
  let raw := GoStringsMore.TrimPrefix raw (str "```json") in
  let raw := GoStringsMore.TrimPrefix raw (str "```JSON") in
  let raw := GoStringsMore.TrimSuffix raw (str "```") in
  let raw := GoStrings.TrimSpace raw in
  let '(items, err) := Unmarshal raw in
  match err with
  | Some e => ([], Some (str "parse gemini JSON: " ++ e))
  | None =>
      if decide (len items = 0) then ([], Some (str "gemini returned no items"))
      else
        let items := if decide (0 < limit ∧ limit < len items)
                     then take (Z.to_nat limit) items else items in
        let results := suggestions items [] in
        if decide (len results = 0)
        then ([], Some (str "gemini suggestions were empty"))
        else (results, None)
  end.

(** [respond] is the outcome of the exchange for a prompt asking for the
    given number of items: the parts of the candidates decoded, or the
    error. *)
Record GeminiProvider := {
  apiKey : gostring;
  model : gostring;
  topicLimit : Z;
  respond : Z → list (list gostring) * option error
}.

Definition GetRecommendedArticles (g : GeminiProvider) (count : Z)
    : list Article.t * option error :=
  if decide (count ≤ 0) then ([], None)
  else if decide (apiKey g = [] ∨ model g = [])
  then ([], Some (str "gemini configuration missing"))
  else
    let requestCount :=
      if decide (0 < topicLimit g ∧ topicLimit g < count) then topicLimit g
      else count in
    let '(candidates, err) := respond g requestCount in
    match err with
    | Some e => ([], Some e)
    | None =>
        let raw := extractFirstText candidates in
        if decide (raw = []) then ([], Some (str "gemini response is empty"))
        else parseArticles raw requestCount
    end.

End WithJSON.

End gemini.

(** ** Package [writing]: the exchange with the backend *)

Module geminiwriter.

Record candidate := { Parts : list gostring; FinishReason : gostring }.

(** The loop of [extractCandidateText] over the parts of every candidate. *)
Fixpoint firstTrimmedText (parts : list gostring) : gostring :=
  match parts with
  | [] => []
  | text :: rest =>
      if decide (GoStrings.TrimSpace text ≠ []) then GoStrings.TrimSpace text
      else firstTrimmedText rest
  end.

Definition extractCandidateText (candidates : list candidate) : gostring :=
  firstTrimmedText (concat (Parts <$> candidates)).

(** What happened to the request: it could not be built, the call failed,
    the body could not be read, or a body came back with a status and was
    decoded or not. *)
Inductive exchange :=
| RequestFailed (e : error)
| CallFailed (e : error)
| ReadFailed (status : Z) (e : error)
| Answered (status : Z) (body : gostring) (decoded : list candidate * option error).

(** [generate], as a function of what the exchange gave. *)
Definition generate (x : exchange) : gostring * Z * option error :=
  match x with
  | RequestFailed e => ([], 0, Some (str "create gemini writer request: " ++ e))
  | CallFailed e => ([], 0, Some (str "call gemini writer: " ++ e))
  | ReadFailed status e => ([], status, Some (str "read response body: " ++ e))
  | Answered status body (candidates, err) =>
      if decide (status < 200 ∨ 300 ≤ status)
      then ([], status,
            Some (str "gemini writer status " ++ itoa status ++ str ": "
                  ++ GoStrings.TrimSpace body))
      else match err with
           | Some e =>
               ([], status, Some (str "decode gemini writer response: " ++ e))
           | None =>
               let text := extractCandidateText candidates in
               if decide (text = []) then
                 if decide (0 < len candidates
                            ∧ FinishReason <$> head candidates
                              = Some (str "MAX_TOKENS"))
                 then ([], status,
                       Some (str "gemini hit token limit before generating output (try increasing maxOutputTokens)"))
                 else ([], status,
                       Some (str "gemini writer returned empty text (candidates: "
                             ++ itoa (len candidates) ++ str ")"))
               else (text, status, None)
           end
  end.

(** The writer whose backend answers every model with the exchange [x]. *)
Definition writerOver (apiKey model : gostring) (x : exchange)
    : writing.GeminiWriter :=
  {| writing.apiKey := apiKey;
     writing.model := model;
     writing.generate := λ _, generate x |}.

End geminiwriter.

(** ** Package [leetcode]: the daily challenge *)

Module daily.

(** The question of the decoded GraphQL answer; [TopicTags] holds the
    names of the tags. *)
Record question := {
  QuestionFrontendID : gostring;
  Title : gostring;
  TitleSlug : gostring;
  Difficulty : gostring;
  Content : gostring;
  TopicTags : list gostring
}.

Record challenge := { Link : gostring; Question : question }.

Section WithLibraries.

(** [strconv.Atoi] and the bot's [htmlToText], which rests on the HTML
    parser of [golang.org/x/net/html]. *)
Variable Atoi : gostring → Z * option error.
Variable htmlToText : gostring → gostring.

Definition parseInt (val : gostring) : Z :=
  let '(n, err) := Atoi val in
  match err with
  | Some _ => 0
  | None => n
  end.

(** What [GetDailyChallenge] returns once the answer is decoded into [q]. *)
Definition problemOf (q : challenge) : option Problem.t * option error :=
  if decide (TitleSlug (Question q) = [])
  then (None, Some (str "empty daily challenge data"))
  else
    (Some (Problem.mk
             (parseInt (QuestionFrontendID (Question q)))
             (Title (Question q))
             (TitleSlug (Question q))
             (Difficulty (Question q))
             (leetcode.resolveLink (TitleSlug (Question q)) (Link q))
             (GoStrings.TrimSpace (htmlToText (Content (Question q))))
             (TopicTags (Question q))),
     None).

(** [answer] is the outcome of posting the query and decoding the answer. *)
Definition GetDailyChallenge (answer : challenge * option error)
    : option Problem.t * option error :=
  match answer.2 with
  | Some e => (None, Some e)
  | None => problemOf answer.1
  end.

(** The problem provider that the client is: both methods of one client. *)
Definition provider (answer : challenge * option error) (c : leetcode.Client)
    : usecase.ProblemProvider :=
  {| usecase.GetDailyChallenge := GetDailyChallenge answer;
     usecase.GetRandomProblems := leetcode.GetRandomProblems c |}.

End WithLibraries.

End daily.

(** ** Package [leetcode]: the text of a parsed HTML tree *)

Module htmltext.

Inductive nodeType :=
| ErrorNode | TextNode | DocumentNode | ElementNode | CommentNode | DoctypeNode
| RawNode.

(** A node of [html.Node], with its children from [FirstChild] along
    [NextSibling]. *)
Inductive node := Node (type : nodeType) (data : gostring) (children : list node).

(** [extractText], the builder passed along. *)
Fixpoint extractText (n : node) (builder : gostring) : gostring :=
  match n with
  | Node type data children =>
      let builder :=
        match type with
        | TextNode => builder ++ data
        | ElementNode =>
            if decide (data = str "br" ∨ data = str "p" ∨ data = str "li")
            then builder ++ usecase.nl else builder
        | _ => builder
        end in
      let builder :=
        (fix children_text (l : list node) (builder : gostring) : gostring :=
           match l with
           | [] => builder
           | child :: rest => children_text rest (extractText child builder)
           end) children builder in
      match type with
      | ElementNode =>
          if decide (data = str "p" ∨ data = str "li") then builder ++ usecase.nl
          else builder
      | _ => builder
      end
  end.

End htmltext.

(** ** Package [config] *)

Module config.

Record Config := {
  DiscordWebhookURL : gostring;
  DiscordBotToken : gostring;
  ScheduleCron : gostring;
  RandomProblemCount : Z;
  ArticleCount : Z;
  RequestTimeout : Z;
  GeminiAPIKey : gostring;
  GeminiModel : gostring;
  GeminiTopicLimit : Z
}.

Definition defaultCron : gostring := str "0 9 * * *".
Definition defaultRandomCount : Z := 2.
Definition defaultArticleCount : Z := 2.

(** [30 * time.Second], a duration being a number of nanoseconds. *)
Definition defaultTimeout : Z := 30 * 1000000000.
Definition defaultGeminiModel : gostring := str "gemini-2.5-flash".
Definition defaultGeminiTopicLimit : Z := 3.

Section WithEnvironment.

(** [os.Getenv], [strconv.Atoi] and [time.ParseDuration]. *)
Variable Getenv : gostring → gostring.
Variable Atoi : gostring → Z * option error.
Variable ParseDuration : gostring → Z * option error.

Definition getenvDefault (key fallback : gostring) : gostring :=
  let val := Getenv key in
  if decide (val ≠ []) then val else fallback.

Definition parseIntDefault (key : gostring) (fallback : Z) : Z :=
  let val := Getenv key in
  if decide (val ≠ []) then
    let '(n, err) := Atoi val in
    match err with
    | None => n
    | Some _ => fallback
    end
  else fallback.

Definition parseDurationDefault (key : gostring) (fallback : Z) : Z :=
  let val := Getenv key in
  if decide (val ≠ []) then
    let '(d, err) := ParseDuration val in
    match err with
    | None => d
    | Some _ => fallback
    end
  else fallback.

Definition Load : option Config * option error :=
  let cfg :=
    {| DiscordWebhookURL := getenvDefault (str "DISCORD_WEBHOOK_URL") [];
       DiscordBotToken := getenvDefault (str "DISCORD_BOT_TOKEN") [];
       ScheduleCron := getenvDefault (str "SCHEDULE_CRON") defaultCron;
       RandomProblemCount :=
         parseIntDefault (str "RANDOM_PROBLEM_COUNT") defaultRandomCount;
       ArticleCount := parseIntDefault (str "ARTICLE_COUNT") defaultArticleCount;
       RequestTimeout := parseDurationDefault (str "REQUEST_TIMEOUT") defaultTimeout;
       GeminiAPIKey := getenvDefault (str "GEMINI_API_KEY") [];
       GeminiModel := getenvDefault (str "GEMINI_MODEL") defaultGeminiModel;
       GeminiTopicLimit :=
         parseIntDefault (str "GEMINI_TOPIC_LIMIT") defaultGeminiTopicLimit |} in
  if decide (DiscordWebhookURL cfg = [])
  then (None, Some (str "DISCORD_WEBHOOK_URL is required"))
  else
    let timeout := if decide (RequestTimeout cfg ≤ 0) then defaultTimeout
                   else RequestTimeout cfg in
    let topicLimit := if decide (GeminiTopicLimit cfg ≤ 0)
                      then defaultGeminiTopicLimit else GeminiTopicLimit cfg in
    (Some {| DiscordWebhookURL := DiscordWebhookURL cfg;
             DiscordBotToken := DiscordBotToken cfg;
             ScheduleCron := ScheduleCron cfg;
             RandomProblemCount := RandomProblemCount cfg;
             ArticleCount := ArticleCount cfg;
             RequestTimeout := timeout;
             GeminiAPIKey := GeminiAPIKey cfg;
             GeminiModel := GeminiModel cfg;
             GeminiTopicLimit := topicLimit |},
     None).

End WithEnvironment.

End config.

(** ** More sample data *)

Module moreSamples.

(** A writer whose configured model is unknown to the backend, the other
    models answering. *)
Definition fallbackWriter : writing.GeminiWriter :=
  {| writing.apiKey := str "key";
     writing.model := str "gemini-2.5-flash";
     writing.generate :=
       λ m, if decide (m = str "gemini-2.5-flash")
            then ([], 404, Some (str "gemini writer status 404: model not found"))
            else (str "Focus on hash maps.", 200, None) |}.

(** An answer whose first part is blank. *)
Definition answered : geminiwriter.exchange :=
  geminiwriter.Answered 200 (str "{}")
    ([ {| geminiwriter.Parts := [str " "; str " Focus on hash maps. "];
          geminiwriter.FinishReason := str "STOP" |} ], None).

Definition dailyAnswer : daily.challenge * option error :=
  ({| daily.Link := str "/problems/two-sum/";
      daily.Question :=
        {| daily.QuestionFrontendID := str "1";
           daily.Title := str "Two Sum";
           daily.TitleSlug := str "two-sum";
           daily.Difficulty := str "Easy";
           daily.Content := str "Given an array of integers";
           daily.TopicTags := [str "Array"; str "Hash Table"] |} |}, None).

Definition atoi : gostring → Z * option error :=
  λ s, if decide (s = str "1") then (1, None)
       else (0, Some (str "invalid syntax")).

Definition plainText : gostring → gostring := λ s, s.

(** A digest over the LeetCode client and the composite provider. *)
Definition clientDigest : usecase.DailyDigest :=
  {| usecase.problems :=
       daily.provider atoi plainText dailyAnswer samples.problemsetClient;
     usecase.articles :=
       Some (articles.GetRecommendedArticles samples.toLowerASCII samples.twoFeeds);
     usecase.writer := None;
     usecase.notifier := λ _, None;
     usecase.randomCount := 2;
     usecase.articleCount := 2 |}.

Definition devtoProvider : devto.DevToProvider :=
  {| devto.response :=
       ([ {| devto.Title := str "Tries"; devto.URL := str "https://dev.to/c/tries";
             devto.UserName := []; devto.UserUsername := str "c" |};
          {| devto.Title := str "Heaps"; devto.URL := str "https://dev.to/d/heaps";
             devto.UserName := []; devto.UserUsername := [] |} ], None);
     devto.draw := λ i, i |}.

Definition unmarshal : gostring → list gemini.item * option error :=
  λ _, ([ {| gemini.Title := str " Segment trees "; gemini.Link := [];
             gemini.Source := [] |} ], None).

Definition geminiProvider : gemini.GeminiProvider :=
  {| gemini.apiKey := str "key";
     gemini.model := str "gemini-2.5-flash";
     gemini.topicLimit := 3;
     gemini.respond := λ _, ([[str "[{}]"]], None) |}.

Definition firstFeed : list articles.ArticleProvider :=
  [samples.feedOf [samples.binarySearch; samples.binarySearchAgain]].

Definition secondFeed : articles.ArticleProvider :=
  samples.feedOf [samples.heaps; samples.tries].

Definition mediumDown : articles.MediumProvider :=
  {| articles.fetchPrimary := ([], Some (str "fetch medium feed"));
     articles.fetchProxy := ([], Some (str "fetch medium proxy feed"));
     articles.draw := λ i, i;
     articles.rangeOrder := λ l, l;
     articles.rangeOrder_perm := λ l, reflexivity l |}.

Definition mediumBlock : gostring :=
  str "Read https://medium.com/tag/algorithms and https://medium.com/@a/binary-search?source=rss today".

(** An answer that stopped at the token limit. *)
Definition cutShort : geminiwriter.exchange :=
  geminiwriter.Answered 200 (str "{}")
    ([ {| geminiwriter.Parts := [];
          geminiwriter.FinishReason := str "MAX_TOKENS" |} ], None).

Definition env : gostring → gostring :=
  λ key, if decide (key = str "DISCORD_WEBHOOK_URL")
         then str "https://discord.com/api/webhooks/1/token"
         else if decide (key = str "RANDOM_PROBLEM_COUNT") then str "1"
         else [].

Definition parseDuration : gostring → Z * option error :=
  λ _, (0, Some (str "time: invalid duration")).

Definition webhook : discord.Webhook :=
  {| discord.webhookURL := str "https://discord.com/api/webhooks/1/token";
     discord.post := λ _, None |}.

Definition notice : Notification.t :=
  Notification.mk digestTitle (str "Curated plan for algorithms practice today.")
    [NotificationField.mk (str "Practice Queue") (str "**1. [Two Sum](link)**") false].

End moreSamples.

(** ** Vocabulary of the further properties *)

(** Where a cut falls: at the last space after the first byte and before
    the limit when there is one, at the limit otherwise. *)
Definition cutPoint (s : gostring) (L k : nat) : Prop :=
  ((0 < k < L)%nat ∧ s !! k = Some " "%char
   ∧ ∀ j, (k < j < L)%nat → s !! j ≠ Some " "%char)
  ∨ (k = L ∧ ∀ j, (0 < j < L)%nat → s !! j ≠ Some " "%char).

(** A byte of a collapsed text: a space, or no ASCII white space at all. *)
Definition collapsedByte (c : ascii) : Prop :=
  c = " "%char ∨ GoStrings.asciiSpace (N_of_ascii c) = false.

(** A token that [extractFirstMediumURL] accepts: a Medium link that is not
    a tag page. *)
Definition mediumPost (token : gostring) : Prop :=
  GoStringsMore.HasPrefix token (str "https://medium.com/") = true
  ∧ GoStringsMore.Contains (medium.normalizeMediumLink token) (str "/tag/") = false.

(** A token that carries the [?source=] tracking parameter. *)
Definition tracked (token : gostring) : Prop :=
  GoStringsMore.Contains token (str "?source=") = true.

(** A failure after which [Compose] moves on to the next model. *)
Definition retryable (g : writing.GeminiWriter) (modelName : gostring) : Prop :=
  ∃ text status e,
    writing.generate g modelName = (text, status, Some e)
    ∧ (status = writing.StatusNotFound ∨ status = writing.StatusTooManyRequests).

(** A part that holds nothing but white space. *)
Definition blank (text : gostring) : Prop := GoStrings.TrimSpace text = [].

Definition tokenLimitMessage : gostring :=
  str "gemini hit token limit before generating output (try increasing maxOutputTokens)".

(** The entries of the problemset that the client keeps. *)
Definition eligible (pairs : list leetcode.statStatusPair)
    : list leetcode.statStatusPair :=
  filter (λ item, leetcode.PaidOnly item = false
                  ∧ leetcode.QuestionTitleSlug item ≠ []) pairs.

(** An article all of whose fields are filled. *)
Definition filled (a : Article.t) : Prop :=
  Article.Title a ≠ [] ∧ Article.Link a ≠ [] ∧ Article.Source a ≠ [].

Section CoverageVocabulary.

Variable ToLower : gostring → gostring.

(** Every result comes from a call that succeeded. *)
Definition fromCalls (st : articles.loopState) : Prop :=
  ∀ a, a ∈ articles.results st →
       ∃ call, call ∈ articles.calls st ∧ call.2.2 = None ∧ a ∈ call.2.1.

(** Every usable key that a successful call offered is in [seen], and
    [seen] holds keys of results only. *)
Definition covered (st : articles.loopState) : Prop :=
  (∀ call a, call ∈ articles.calls st → call.2.2 = None → a ∈ call.2.1 →
             articles.canonicalArticleKey ToLower a ≠ [] →
             articles.canonicalArticleKey ToLower a ∈ articles.seen st)
  ∧ ∀ k, k ∈ articles.seen st →
         k ∈ articles.canonicalArticleKey ToLower <$> articles.results st.

End CoverageVocabulary.

(** The loop of [extractText] over the children of a node. *)
Definition childrenText : list htmltext.node → gostring → gostring :=
  fix children_text (l : list htmltext.node) (builder : gostring) : gostring :=
    match l with
    | [] => builder
    | child :: rest => children_text rest (htmltext.extractText child builder)
    end.

(** The data of the text nodes of a tree, in document order. *)
Fixpoint textOf (n : htmltext.node) : gostring :=
  match n with
  | htmltext.Node type data children =>
      match type with
      | htmltext.TextNode => data
      | _ => []
      end
      ++ (fix texts (l : list htmltext.node) : gostring :=
            match l with
            | [] => []
            | child :: rest => textOf child ++ texts rest
            end) children
  end.

Definition textsOf : list htmltext.node → gostring :=
  fix texts (l : list htmltext.node) : gostring :=
    match l with
    | [] => []
    | child :: rest => textOf child ++ texts rest
    end.

(** A string without its line breaks. *)
Definition withoutBreaks (s : gostring) : gostring :=
  filter (λ c, c ≠ "010"%char) s.

(** The names of the sections that a digest with these parts shows. *)
Definition sectionsOf (daily : option Problem.t) (random : list Problem.t)
    (articles : list Article.t) : list gostring :=
  match daily with Some _ => [str "Daily Challenge"] | None => [] end
  ++ match random with [] => [] | _ :: _ => [str "Practice Queue"] end
  ++ match articles with [] => [] | _ :: _ => [str "Algorithm Reading List"] end.




(** * Properties *)

(** ** Lengths of the string primitives *)

Lemma len_nonneg {A} (l : list A) : 0 ≤ len l.
Proof. unfold len. lia. Qed.

Lemma len_app {A} (l k : list A) : len (l ++ k) = len l + len k.
Proof. unfold len. rewrite length_app. lia. Qed.

Lemma len_ellipsis : len ellipsis = 3.
Proof. reflexivity. Qed.

Lemma slice_to_Some (s : gostring) (hi : Z) :
  0 ≤ hi ≤ len s → slice_to s hi = Some (take (Z.to_nat hi) s).
Proof. intros H. unfold slice_to. by rewrite decide_True. Qed.

Lemma slice_to_len (s r : gostring) (hi : Z) :
  slice_to s hi = Some r → len r = hi ∧ r = take (Z.to_nat hi) s.
Proof.
  unfold slice_to, len. case_decide as H; [|done]. intros [= <-].
  unfold len in H. rewrite length_take. split; [lia|done].
Qed.

Lemma length_trimLeft (s : gostring) (skip : nat) :
  (length (GoStrings.trimLeft s skip) ≤ length s)%nat.
Proof.
  revert skip. induction s as [|c t IH]; intros skip; [done|].
  cbn [GoStrings.trimLeft]. destruct skip as [|k].
  - destruct (GoStrings.spaceWidth (c :: t)); [done|].
    specialize (IH n). simpl. lia.
  - specialize (IH k). simpl. lia.
Qed.

Lemma length_trimRight (fuel : nat) (s : gostring) :
  (length (GoStrings.trimRight fuel s) ≤ length s)%nat.
Proof.
  revert s. induction fuel as [|f IH]; intros s; [done|].
  cbn [GoStrings.trimRight]. destruct (GoStrings.spaceWidthEnd s); [done|].
  etrans; [apply IH|]. rewrite length_take. lia.
Qed.

Lemma len_TrimSpace (s : gostring) : len (GoStrings.TrimSpace s) ≤ len s.
Proof.
  unfold GoStrings.TrimSpace, len.
  pose proof (length_trimRight (length (GoStrings.trimLeft s 0))
                (GoStrings.trimLeft s 0)).
  pose proof (length_trimLeft s 0). lia.
Qed.

(** The bound of [trimRight] is enough: what it returns does not end with a
    white space rune. *)
Lemma trimRight_trimmed (fuel : nat) (s : gostring) :
  (length s ≤ fuel)%nat →
  GoStrings.spaceWidthEnd (GoStrings.trimRight fuel s) = 0%nat.
Proof.
  revert s. induction fuel as [|f IH]; intros s Hlen.
  - destruct s; [reflexivity|]. cbn [length] in Hlen. lia.
  - cbn [GoStrings.trimRight].
    destruct (GoStrings.spaceWidthEnd s) as [|w] eqn:Hw; [exact Hw|].
    apply IH. rewrite length_take.
    destruct s; [discriminate Hw|]. cbn [length] in *. lia.
Qed.

Lemma TrimSpace_trimmed (s : gostring) :
  GoStrings.spaceWidthEnd (GoStrings.TrimSpace s) = 0%nat.
Proof. unfold GoStrings.TrimSpace. by apply trimRight_trimmed. Qed.

Lemma LastIndex_range (s : gostring) (c : ascii) :
  -1 ≤ GoStrings.LastIndex s c < len s ∨ (s = [] ∧ GoStrings.LastIndex s c = -1).
Proof.
  induction s as [|x t IH]; [by right|]. left.
  cbn [GoStrings.LastIndex]. unfold len in *. cbn [length].
  repeat case_decide; destruct IH as [IH|[-> IH]]; simpl in *; lia.
Qed.

Lemma LastIndex_lt (s : gostring) (c : ascii) :
  GoStrings.LastIndex s c ≤ len s.
Proof. pose proof (len_nonneg s). destruct (LastIndex_range s c) as [?|[_ ?]]; lia. Qed.

Lemma len_Join_space (elems : list gostring) :
  elems ≠ [] → len (GoStrings.Join elems (str " ")) = joinedSize elems - 1.
Proof.
  induction elems as [|x rest IH]; [done|]. intros _.
  destruct rest as [|y rest'].
  - simpl. lia.
  - change (GoStrings.Join (x :: y :: rest') (str " "))
      with (x ++ str " " ++ GoStrings.Join (y :: rest') (str " ")).
    rewrite !len_app, IH by done.
    change (joinedSize (x :: y :: rest')) with (len x + 1 + joinedSize (y :: rest')).
    change (len (str " ")) with 1. lia.
Qed.

Lemma joinedSize_app (l k : list gostring) :
  joinedSize (l ++ k) = joinedSize l + joinedSize k.
Proof. induction l as [|x l IH]; simpl; [lia|]. rewrite IH. lia. Qed.

Lemma len_cons {A} (x : A) (l : list A) : len (x :: l) = 1 + len l.
Proof. unfold len. cbn [length]. lia. Qed.

Lemma joinedSize_cons (f : gostring) (l : list gostring) :
  joinedSize (f :: l) = len f + 1 + joinedSize l.
Proof. reflexivity. Qed.

Lemma joinedSize_fieldsFrom (s : gostring) (skip : nat) (cur : gostring) :
  joinedSize (GoStrings.fieldsFrom s skip cur) ≤ len cur + len s + 1.
Proof.
  revert skip cur. induction s as [|c t IH]; intros skip cur.
  - pose proof (len_nonneg cur). destruct cur as [|a cur'].
    + cbn. lia.
    + cbn [GoStrings.fieldsFrom]. rewrite joinedSize_cons.
      change (joinedSize []) with 0. change (len (@nil ascii)) with 0. lia.
  - cbn [GoStrings.fieldsFrom]. rewrite len_cons. destruct skip as [|k].
    + destruct (GoStrings.spaceWidth (c :: t)) as [|k].
      * specialize (IH 0%nat (cur ++ [c])). rewrite len_app in IH.
        change (len [c]) with 1 in IH. lia.
      * rewrite joinedSize_app. specialize (IH k []).
        change (len []) with 0 in IH.
        pose proof (len_nonneg cur). destruct cur as [|a cur'].
        -- cbn. lia.
        -- cbn [app]. rewrite !joinedSize_cons. change (joinedSize []) with 0. lia.
    + specialize (IH k cur). lia.
Qed.

Lemma len_collapse (s : gostring) :
  len (GoStrings.Join (GoStrings.Fields s) (str " ")) ≤ len s.
Proof.
  destruct (decide (GoStrings.Fields s = [])) as [->|Hne].
  - apply len_nonneg.
  - rewrite len_Join_space by done.
    pose proof (joinedSize_fieldsFrom s 0 []) as H.
    unfold GoStrings.Fields. change (len []) with 0 in H. lia.
Qed.

(** ** The truncation functions *)

(** The tail shared by [trimForDiscord] and [summarizeText]: cut at [limit],
    back to the last space, marker appended. *)
Lemma cut_at_space_spec (s : gostring) (limit : Z) :
  0 ≤ limit < len s →
  ∃ r, (trimmed ← slice_to s limit;
        trimmed ← (if decide (0 < GoStrings.LastIndex trimmed " "%char)
                    then slice_to trimmed (GoStrings.LastIndex trimmed " "%char)
                    else Some trimmed);
        Some (trimmed ++ ellipsis)) = Some r
       ∧ keptWithMarker s r limit.
Proof.
  intros Hl. rewrite slice_to_Some by lia. cbn [mbind option_bind].
  set (trimmed := take (Z.to_nat limit) s).
  assert (len trimmed = limit) as Ht.
  { unfold trimmed, len in *. rewrite length_take. lia. }
  pose proof (LastIndex_lt trimmed " "%char) as Hi.
  case_decide as Hs.
  - rewrite slice_to_Some by lia. cbn [mbind option_bind].
    eexists; split; [done|]. unfold trimmed. rewrite take_take.
    eexists; split; [|done]. lia.
  - cbn [mbind option_bind]. eexists; split; [done|]. by exists (Z.to_nat limit).
Qed.

Lemma keptWithMarker_bound (s r : gostring) (L : Z) :
  0 ≤ L → keptWithMarker s r L → len r ≤ L + 3.
Proof.
  intros HL (k & Hk & ->). rewrite len_app, len_ellipsis.
  unfold len. rewrite length_take. lia.
Qed.

Lemma trimForDiscord_within (s : gostring) (L : Z) :
  len s ≤ L → usecase.trimForDiscord s L = Some s.
Proof. intros H. unfold usecase.trimForDiscord. by rewrite decide_True. Qed.

Lemma trimForDiscord_shape (s : gostring) (L : Z) :
  0 ≤ L →
  ∃ r, usecase.trimForDiscord s L = Some r
       ∧ ((len s ≤ L ∧ r = s) ∨ (L < len s ∧ keptWithMarker s r L)).
Proof.
  intros HL. unfold usecase.trimForDiscord. case_decide as H.
  - exists s. split; [done|by left].
  - destruct (cut_at_space_spec s L) as (r & -> & Hr); [lia|].
    exists r. split; [done|]. right. split; [lia|done].
Qed.

Lemma trimForDiscord_bound (s : gostring) (L : Z) :
  0 ≤ L → ∃ r, usecase.trimForDiscord s L = Some r ∧ len r ≤ L + 3.
Proof.
  intros HL. destruct (trimForDiscord_shape s L HL) as (r & Hr & [[? ->]|[_ Hk]]).
  - exists s. split; [done|lia].
  - exists r. split; [done|by eapply keptWithMarker_bound].
Qed.

Lemma summarizeText_shape (s : gostring) (L : Z) :
  0 ≤ L →
  let clean := GoStrings.Join (GoStrings.Fields s) (str " ") in
  ∃ r, usecase.summarizeText s L = Some r
       ∧ ((len clean ≤ L ∧ r = clean) ∨ (L < len clean ∧ keptWithMarker clean r L)).
Proof.
  intros HL clean. unfold usecase.summarizeText. fold clean.
  case_decide as He.
  { exists []. split; [done|]. left. rewrite He. by split. }
  case_decide as H.
  - exists clean. split; [done|by left].
  - destruct (cut_at_space_spec clean L) as (r & -> & Hr); [lia|].
    exists r. split; [done|]. right. split; [lia|done].
Qed.

Lemma summarizeText_bound (s : gostring) (L : Z) :
  0 ≤ L → ∃ r, usecase.summarizeText s L = Some r ∧ len r ≤ L + 3.
Proof.
  intros HL. destruct (summarizeText_shape s L HL) as (r & Hr & [[? ->]|[_ Hk]]).
  - eexists. split; [done|lia].
  - exists r. split; [done|by eapply keptWithMarker_bound].
Qed.

Lemma summarizeText_within (s : gostring) (L : Z) :
  len s ≤ L →
  usecase.summarizeText s L = Some (GoStrings.Join (GoStrings.Fields s) (str " ")).
Proof.
  intros H. unfold usecase.summarizeText. pose proof (len_collapse s).
  case_decide as He; [by rewrite He|]. by rewrite decide_True by lia.
Qed.

(** [discord.truncate] and [writing.trimText] are the same function. *)
Lemma hard_cut_spec (s : gostring) (L : Z) :
  3 ≤ L →
  ∃ r, discord.truncate s L = Some r ∧ len r ≤ L
       ∧ (len s ≤ L → r = s)
       ∧ (L < len s →
          r = GoStrings.TrimSpace (take (Z.to_nat (L - 3)) s) ++ ellipsis).
Proof.
  intros HL. unfold discord.truncate. case_decide as H.
  - exists s. split; [done|]. split; [done|]. split; [done|lia].
  - rewrite slice_to_Some by lia. cbn [mbind option_bind].
    eexists. split; [done|]. split; [|split; [lia|done]].
    rewrite len_app, len_ellipsis.
    pose proof (len_TrimSpace (take (Z.to_nat (L - 3)) s)) as Ht.
    unfold len at 2 in Ht. rewrite length_take in Ht. lia.
Qed.

Lemma trimText_truncate : writing.trimText = discord.truncate.
Proof. reflexivity. Qed.

(** C3 (amended).  A string within the limit is returned unchanged by
    [trimForDiscord] and [truncate], and with its white space collapsed by
    [summarizeText].  The result of [truncate] is never longer than a limit
    of at least 3.  For a limit that is not negative, [trimForDiscord] and
    [summarizeText] return the (collapsed) string itself when it is within
    the limit, and otherwise a prefix of it of at most [L] bytes followed by
    the marker. *)
Theorem C3_truncation_within_limit_and_bounds (s : gostring) (L : Z) :
  let clean := GoStrings.Join (GoStrings.Fields s) (str " ") in
  (len s ≤ L →
     usecase.trimForDiscord s L = Some s
     ∧ discord.truncate s L = Some s
     ∧ usecase.summarizeText s L = Some clean)
  ∧ (3 ≤ L → ∃ r, discord.truncate s L = Some r ∧ len r ≤ L)
  ∧ (0 ≤ L →
     ∃ r, usecase.trimForDiscord s L = Some r
          ∧ ((len s ≤ L ∧ r = s) ∨ (L < len s ∧ keptWithMarker s r L)))
  ∧ (0 ≤ L →
     ∃ r, usecase.summarizeText s L = Some r
          ∧ ((len clean ≤ L ∧ r = clean)
             ∨ (L < len clean ∧ keptWithMarker clean r L))).
Proof.
  intros clean. split; [|split; [|split]].
  - intros H. split; [by apply trimForDiscord_within|]. split.
    + unfold discord.truncate. by rewrite decide_True.
    + by apply summarizeText_within.
  - intros HL. destruct (hard_cut_spec s L HL) as (r & Hr & Hb & _). eauto.
  - apply trimForDiscord_shape.
  - apply summarizeText_shape.
Qed.

(** The properties of C3 on "two sum" and "two sum is easy". *)
Lemma C3_witness :
  usecase.trimForDiscord (str "two sum") 7 = Some (str "two sum")
  ∧ (∃ r, discord.truncate (str "two sum is easy") 8 = Some r ∧ len r ≤ 8)
  ∧ (∃ r, usecase.trimForDiscord (str "two sum is easy") 8 = Some r
          ∧ ((len (str "two sum is easy") ≤ 8 ∧ r = str "two sum is easy")
             ∨ (8 < len (str "two sum is easy")
                ∧ keptWithMarker (str "two sum is easy") r 8))).
Proof.
  destruct (C3_truncation_within_limit_and_bounds (str "two sum") 7) as [H1 _].
  destruct (C3_truncation_within_limit_and_bounds (str "two sum is easy") 8)
    as (_ & H2 & H3 & _).
  split; [apply H1; vm_compute; discriminate|].
  split; [apply H2; lia|apply H3; lia].
Defined.

(** C3 as stated fails: [trimForDiscord] and [summarizeText] return more
    than the limit, and [summarizeText] changes a string within the limit. *)
Lemma C3_counterexample :
  usecase.trimForDiscord (str "abcdef") 4 = Some (str "abcd...")
  ∧ ¬ (len (str "abcd...") ≤ 4)
  ∧ usecase.summarizeText (str "abcdef") 4 = Some (str "abcd...")
  ∧ len (str "a  b") ≤ 10
  ∧ usecase.summarizeText (str "a  b") 10 = Some (str "a b")
  ∧ str "a b" ≠ str "a  b".
Proof. vm_compute. repeat split; try discriminate; auto. Qed.

(** ** The digest assembler *)

Lemma formatProblemDetail_total (p : Problem.t) :
  ∃ v, usecase.formatProblemDetail p = Some v.
Proof.
  unfold usecase.formatProblemDetail. case_decide; [|eauto].
  destruct (summarizeText_bound (Problem.Content p) 420) as (r & -> & _); [lia|].
  cbn [mbind option_bind]. eauto.
Qed.

Lemma fallbackDescription_nonempty (daily : option Problem.t) :
  usecase.fallbackDescription daily ≠ [].
Proof.
  destruct daily as [p|]; [|done].
  unfold usecase.fallbackDescription. case_decide; done.
Qed.

(** What [buildNotification] returns: it never panics, the title and the
    field names are the fixed labels, and the description is the insight
    when there is one, the fallback text otherwise. *)
Lemma buildNotification_spec (daily : option Problem.t) (random : list Problem.t)
    (articles : list Article.t) (insight : gostring) :
  ∃ n, usecase.buildNotification daily random articles insight = Some n
       ∧ Notification.Title n = digestTitle
       ∧ Notification.Description n
         = (if decide (insight ≠ []) then insight
            else usecase.fallbackDescription daily)
       ∧ Forall (λ f, NotificationField.Name f ∈ fieldNames) (Notification.Fields n).
Proof.
  unfold usecase.buildNotification.
  assert (∃ fs,
    match daily with
    | Some p => v ← usecase.formatProblemDetail p;
                Some [NotificationField.mk (str "Daily Challenge") v false]
    | None => Some []
    end = Some fs
    ∧ Forall (λ f, NotificationField.Name f ∈ fieldNames) fs) as (fs & -> & Hfs).
  { destruct daily as [p|].
    - destruct (formatProblemDetail_total p) as [v ->]. cbn [mbind option_bind].
      eexists; split; [done|]. repeat constructor.
    - exists []. split; [done|constructor]. }
  cbn [mbind option_bind]. eexists. split; [done|]. cbn.
  split; [done|]. split; [done|].
  repeat case_decide; rewrite ?Forall_app; repeat split; try done;
    repeat constructor.
Qed.

(** C7.  The assembler returns a notification for every input, with a
    non-empty title and a non-empty description; for the empty run it is
    the title, the generic description and no field. *)
Theorem C7_assembler_total (daily : option Problem.t) (random : list Problem.t)
    (articles : list Article.t) (insight : gostring) :
  (∃ n, usecase.buildNotification daily random articles insight = Some n
        ∧ Notification.Title n ≠ []
        ∧ Notification.Description n ≠ [])
  ∧ usecase.buildNotification None [] [] []
    = Some (Notification.mk digestTitle
              (str "Curated plan for algorithms practice today.") []).
Proof.
  split; [|reflexivity].
  destruct (buildNotification_spec daily random articles insight)
    as (n & Hn & Ht & Hd & _).
  exists n. split; [done|]. rewrite Ht, Hd. split; [done|].
  case_decide; [done|apply fallbackDescription_nonempty].
Qed.

(** ** The notifier's payload *)

Lemma truncate_total (s : gostring) (L : Z) :
  3 ≤ L →
  ∃ r, discord.truncate s L = Some r ∧ len r ≤ L ∧ (len s ≤ L → r = s).
Proof.
  intros HL. destruct (hard_cut_spec s L HL) as (r & Hr & Hb & Hs & _). eauto.
Qed.

Lemma convertFields_spec (fs : list NotificationField.t) :
  ∃ es, discord.convertFields fs = Some es ∧ Forall2 converted fs es.
Proof.
  unfold discord.convertFields. induction fs as [|f fs (es & IH & Hes)].
  - exists []. split; [done|constructor].
  - cbn [mapM]. rewrite IH.
    destruct (truncate_total (NotificationField.Name f) 256) as (n & -> & Hn & Hn');
      [lia|].
    destruct (truncate_total (NotificationField.Value f) 1024) as (v & -> & Hv & Hv');
      [lia|].
    cbn. eexists. split; [done|]. constructor; [|done]. by repeat split.
Qed.

Lemma payload_spec (n : Notification.t) :
  ∃ e, discord.payload n = Some e
       ∧ len (discord.title e) ≤ 256
       ∧ (len (Notification.Title n) ≤ 256 → discord.title e = Notification.Title n)
       ∧ len (discord.description e) ≤ 4096
       ∧ (len (Notification.Description n) ≤ 4096
          → discord.description e = Notification.Description n)
       ∧ Forall2 converted (Notification.Fields n) (discord.fields e).
Proof.
  unfold discord.payload.
  destruct (truncate_total (Notification.Title n) 256) as (t & -> & Ht & Ht'); [lia|].
  destruct (truncate_total (Notification.Description n) 4096)
    as (d & -> & Hd & Hd'); [lia|].
  destruct (convertFields_spec (Notification.Fields n)) as (es & -> & Hes).
  cbn. eexists. split; [done|]. by repeat split.
Qed.

(** ** The run *)

Lemma composeInsight_spec (d : usecase.DailyDigest) (daily : option Problem.t)
    (random : list Problem.t) (articles : list Article.t) :
  ∃ insight, usecase.composeInsight d daily random articles = Some insight
             ∧ len insight ≤ 1903.
Proof.
  unfold usecase.composeInsight.
  destruct (usecase.writer d) as [w|]; [|by exists []].
  destruct (w daily random articles) as [insight [e|]]; [by exists []|].
  apply trimForDiscord_bound. lia.
Qed.

(** A run whose first fetch succeeds sends exactly the notification built
    from what the other steps gave. *)
Lemma Run_sends (d : usecase.DailyDigest) (daily : option Problem.t) :
  usecase.GetDailyChallenge (usecase.problems d) = (daily, None) →
  ∃ insight n,
    usecase.composeInsight d daily (usecase.fetchRandomProblems d daily)
      (usecase.fetchArticles d) = Some insight
    ∧ len insight ≤ 1903
    ∧ usecase.buildNotification daily (usecase.fetchRandomProblems d daily)
        (usecase.fetchArticles d) insight = Some n
    ∧ usecase.Run d
      = Some {| usecase.returned := usecase.notifier d n; usecase.sent := [n] |}.
Proof.
  intros Hd. unfold usecase.Run. rewrite Hd.
  destruct (composeInsight_spec d daily (usecase.fetchRandomProblems d daily)
              (usecase.fetchArticles d)) as (insight & Hi & Hlen).
  destruct (buildNotification_spec daily (usecase.fetchRandomProblems d daily)
              (usecase.fetchArticles d) insight) as (n & Hn & _).
  exists insight, n. rewrite Hi. cbn [mbind option_bind]. rewrite Hn. done.
Qed.

Lemma Run_aborts (d : usecase.DailyDigest) (daily : option Problem.t) (e : error) :
  usecase.GetDailyChallenge (usecase.problems d) = (daily, Some e) →
  usecase.Run d = Some {| usecase.returned := Some e; usecase.sent := [] |}.
Proof. intros Hd. unfold usecase.Run. by rewrite Hd. Qed.

(** C9.  When the fetch of the daily problem fails the run returns that
    error and nothing is sent; when it succeeds, whatever the optional steps
    answer, the run builds one notification and sends it, a failed optional
    step contributing an empty list or an empty insight. *)
Theorem C9_only_daily_fetch_aborts (d : usecase.DailyDigest) :
  (∀ daily e,
     usecase.GetDailyChallenge (usecase.problems d) = (daily, Some e) →
     usecase.Run d = Some {| usecase.returned := Some e; usecase.sent := [] |})
  ∧ (∀ daily,
       usecase.GetDailyChallenge (usecase.problems d) = (daily, None) →
       ∃ insight n,
         usecase.composeInsight d daily (usecase.fetchRandomProblems d daily)
           (usecase.fetchArticles d) = Some insight
         ∧ usecase.buildNotification daily (usecase.fetchRandomProblems d daily)
             (usecase.fetchArticles d) insight = Some n
         ∧ usecase.Run d
           = Some {| usecase.returned := usecase.notifier d n;
                     usecase.sent := [n] |})
  ∧ (∀ daily e,
       (usecase.GetRandomProblems (usecase.problems d) (usecase.randomCount d)).2
         = Some e →
       usecase.fetchRandomProblems d daily = [])
  ∧ (∀ provider e,
       usecase.articles d = Some provider →
       (provider (usecase.articleCount d)).2 = Some e →
       usecase.fetchArticles d = [])
  ∧ (∀ w daily random articles e,
       usecase.writer d = Some w →
       (w daily random articles).2 = Some e →
       usecase.composeInsight d daily random articles = Some []).
Proof.
  split; [intros daily e; apply Run_aborts|].
  split.
  { intros daily Hd. destruct (Run_sends d daily Hd) as (i & n & ? & ? & ? & ?).
    eauto. }
  split.
  { intros daily e He. unfold usecase.fetchRandomProblems.
    case_decide; [done|].
    destruct (usecase.GetRandomProblems _ _) as [ps err]. simpl in He. by subst. }
  split.
  { intros provider e Hp He. unfold usecase.fetchArticles. rewrite Hp.
    case_decide; [done|].
    destruct (provider _) as [ps err]. simpl in He. by subst. }
  intros w daily random articles e Hw He. unfold usecase.composeInsight.
  rewrite Hw. destruct (w _ _ _) as [i err]. simpl in He. by subst.
Qed.

(** C9 on a run whose first fetch fails and on one whose optional steps
    all fail. *)
Lemma C9_witness :
  usecase.Run samples.failing
  = Some {| usecase.returned := Some (str "unexpected status 500");
            usecase.sent := [] |}
  ∧ (∃ insight n,
       usecase.composeInsight samples.degraded (Some samples.twoSum)
         (usecase.fetchRandomProblems samples.degraded (Some samples.twoSum))
         (usecase.fetchArticles samples.degraded) = Some insight
       ∧ usecase.buildNotification (Some samples.twoSum)
           (usecase.fetchRandomProblems samples.degraded (Some samples.twoSum))
           (usecase.fetchArticles samples.degraded) insight = Some n
       ∧ usecase.Run samples.degraded
         = Some {| usecase.returned := usecase.notifier samples.degraded n;
                   usecase.sent := [n] |})
  ∧ usecase.fetchRandomProblems samples.degraded (Some samples.twoSum) = []
  ∧ usecase.fetchArticles samples.degraded = []
  ∧ usecase.composeInsight samples.degraded (Some samples.twoSum) [] [] = Some [].
Proof.
  destruct (C9_only_daily_fetch_aborts samples.failing) as [Habort _].
  destruct (C9_only_daily_fetch_aborts samples.degraded)
    as (_ & Hsend & Hrandom & Harticles & Hwriter).
  split; [|split; [|split; [|split]]].
  - apply (Habort None). reflexivity.
  - apply Hsend. reflexivity.
  - apply (Hrandom (Some samples.twoSum) (str "perform request")). reflexivity.
  - eapply Harticles; reflexivity.
  - eapply Hwriter; reflexivity.
Defined.

Lemma converted_names (fs : list NotificationField.t) (es : list discord.embedField) :
  Forall2 converted fs es →
  Forall (λ f, NotificationField.Name f ∈ fieldNames) fs →
  discord.name <$> es = NotificationField.Name <$> fs
  ∧ Forall (λ e, len (discord.value e) ≤ 1024) es.
Proof.
  induction 1 as [|f e fs es (Hn & Hv & Hn' & _) _ IH]; intros Hfs.
  - split; [done|constructor].
  - apply Forall_cons in Hfs as [Hf Hfs]. destruct (IH Hfs) as [IH1 IH2].
    split; [|by constructor]. cbn [fmap list_fmap]. f_equal; [|done].
    apply Hn'. unfold fieldNames in Hf.
    rewrite !elem_of_cons, elem_of_nil in Hf.
    destruct Hf as [->|[->|[->|[]]]]; vm_compute; discriminate.
Qed.

(** C1 (amended).  Every run ends without a panic, and each notification it
    sends has the fixed title and fixed field names, all within 256 bytes,
    and a description that is an insight within 4096 bytes or the fallback
    text; the assembler caps neither the field values nor the fallback text.
    It is the notifier that enforces the limits: its payload is always
    built, keeps the title, the field names and a description within 4096
    bytes, and holds a description of at most 4096 bytes and field values of
    at most 1024. *)
Theorem C1_limits_enforced_by_notifier (d : usecase.DailyDigest) :
  ∃ o, usecase.Run d = Some o
    ∧ ∀ n, n ∈ usecase.sent o →
        len (Notification.Title n) ≤ 256
        ∧ Forall (λ f, len (NotificationField.Name f) ≤ 256) (Notification.Fields n)
        ∧ (len (Notification.Description n) ≤ 4096
           ∨ Notification.Description n
             = usecase.fallbackDescription
                 (usecase.GetDailyChallenge (usecase.problems d)).1)
        ∧ ∃ e, discord.payload n = Some e
            ∧ discord.title e = Notification.Title n
            ∧ discord.name <$> discord.fields e
              = NotificationField.Name <$> Notification.Fields n
            ∧ len (discord.description e) ≤ 4096
            ∧ (len (Notification.Description n) ≤ 4096
               → discord.description e = Notification.Description n)
            ∧ Forall (λ f, len (discord.value f) ≤ 1024) (discord.fields e).
Proof.
  destruct (usecase.GetDailyChallenge (usecase.problems d)) as [daily [e|]] eqn:Hd.
  { eexists. split; [by apply (Run_aborts d daily e)|].
    intros n Hn. by apply elem_of_nil in Hn. }
  destruct (Run_sends d daily Hd) as (insight & n & _ & Hlen & Hb & ->).
  eexists. split; [done|]. intros n' Hn'. cbn in Hn'.
  apply list_elem_of_singleton in Hn' as ->.
  destruct (buildNotification_spec daily (usecase.fetchRandomProblems d daily)
              (usecase.fetchArticles d) insight) as (n0 & Hn0 & Ht & Hdesc & Hf).
  rewrite Hb in Hn0. injection Hn0 as <-.
  destruct (payload_spec n) as (em & He & _ & Het & Hed & Hed' & Hef).
  destruct (converted_names _ _ Hef Hf) as [Hnames Hvalues].
  assert (len (Notification.Title n) ≤ 256) as Htl by (by rewrite Ht).
  split; [done|]. split.
  { eapply Forall_impl; [exact Hf|]. intros f Hin. unfold fieldNames in Hin.
    rewrite !elem_of_cons, elem_of_nil in Hin.
    destruct Hin as [->|[->|[->|[]]]]; vm_compute; discriminate. }
  split.
  { rewrite Hdesc. case_decide; [left; lia|by right]. }
  exists em. split; [done|]. split; [by apply Het|]. done.
Qed.

(** C1 as stated fails: a run hands to [Send] a notification whose
    "Practice Queue" value is longer than 1024 bytes, which the notifier
    then has to truncate. *)
Lemma C1_counterexample :
  let queue := usecase.formatPracticeQueue [samples.longProblem] in
  (∃ v, usecase.Run samples.long
        = Some {| usecase.returned := None;
                  usecase.sent :=
                    [Notification.mk digestTitle
                       (usecase.fallbackDescription (Some samples.twoSum))
                       [NotificationField.mk (str "Daily Challenge") v false;
                        NotificationField.mk (str "Practice Queue") queue false]] |})
  ∧ ¬ (len queue ≤ 1024)
  ∧ discord.truncate queue 1024 ≠ Some queue.
Proof.
  split; [|split].
  - exists (default [] (usecase.formatProblemDetail samples.twoSum)).
    vm_compute. reflexivity.
  - vm_compute. intros H. apply H. reflexivity.
  - vm_compute. discriminate.
Qed.

(** ** The supplementary problems *)

Lemma uniqueProblems_spec (problems : list Problem.t) (seen : gset gostring)
    (unique : list Problem.t) :
  NoDup (Problem.Slug <$> unique) →
  (∀ p, p ∈ unique → Problem.Slug p ∈ seen) →
  let r := usecase.uniqueProblems problems seen unique in
  NoDup (Problem.Slug <$> r)
  ∧ ∀ p, p ∈ r → p ∈ unique ∨ (p ∈ problems ∧ Problem.Slug p ∉ seen).
Proof.
  revert seen unique. induction problems as [|q rest IH]; intros seen unique Hnd Hin.
  - cbn. split; [done|]. intros p Hp. by left.
  - cbn [usecase.uniqueProblems]. case_decide as Hq.
    + pose proof (IH seen unique Hnd Hin) as [IH1 IH2]. split; [done|].
      intros p Hp. destruct (IH2 p Hp) as [?|[? ?]]; [by left|].
      right. split; [by apply elem_of_cons; right|done].
    + edestruct (IH ({[Problem.Slug q]} ∪ seen) (unique ++ [q])) as [IH1 IH2];
        [| |split; [exact IH1|]].
      * rewrite fmap_app. apply NoDup_app. split; [done|]. split.
        -- intros x Hx Hx'. cbn in Hx'. apply list_elem_of_singleton in Hx' as ->.
           apply list_elem_of_fmap in Hx as (p & Hp & Hpin).
           apply Hq. rewrite Hp. by apply Hin.
        -- cbn. apply NoDup_singleton.
      * intros p Hp. apply elem_of_app in Hp as [Hp|Hp].
        -- apply elem_of_union. right. by apply Hin.
        -- apply list_elem_of_singleton in Hp as ->. set_solver.
      * intros p Hp. destruct (IH2 p Hp) as [Hpu|[Hpr Hps]].
        -- apply elem_of_app in Hpu as [?|Hpq]; [by left|].
           apply list_elem_of_singleton in Hpq as ->.
           right. split; [by apply elem_of_cons; left|done].
        -- right. split; [by apply elem_of_cons; right|set_solver].
Qed.

(** C4 (amended).  The supplementary problems never hold two problems with
    the same slug, and never hold the slug of the daily problem when that
    slug is not empty; in the scenario of the specification the result is
    [three-sum, four-sum]. *)
Theorem C4_supplementary_problems_unique (d : usecase.DailyDigest)
    (daily : option Problem.t) :
  NoDup (Problem.Slug <$> usecase.fetchRandomProblems d daily)
  ∧ (∀ p0, daily = Some p0 → Problem.Slug p0 ≠ [] →
       Problem.Slug p0 ∉ Problem.Slug <$> usecase.fetchRandomProblems d daily)
  ∧ usecase.fetchRandomProblems samples.scenario (Some samples.twoSum)
    = [samples.threeSum; samples.fourSum].
Proof.
  split; [|split; [|by vm_compute]].
  - unfold usecase.fetchRandomProblems. case_decide; [apply NoDup_nil_2|].
    destruct (usecase.GetRandomProblems _ _) as [ps [e|]]; [apply NoDup_nil_2|].
    apply uniqueProblems_spec; [constructor|]. intros p Hp. by apply elem_of_nil in Hp.
  - intros p0 -> Hne. unfold usecase.fetchRandomProblems.
    case_decide; [by intros ?%elem_of_nil|].
    destruct (usecase.GetRandomProblems _ _) as [ps [e|]]; [by intros ?%elem_of_nil|].
    rewrite decide_True by done. intros Hin.
    apply list_elem_of_fmap in Hin as (p & Hp & Hpin).
    edestruct (uniqueProblems_spec ps {[Problem.Slug p0]} []) as [_ Hr];
      [apply NoDup_nil_2|by intros q ?%elem_of_nil|].
    destruct (Hr p Hpin) as [Hnil|[_ Hnot]]; [by apply elem_of_nil in Hnil|].
    apply Hnot. rewrite <- Hp. set_solver.
Qed.

(** C4 on the scenario of the specification. *)
Lemma C4_witness :
  str "two-sum"
  ∉ Problem.Slug <$> usecase.fetchRandomProblems samples.scenario (Some samples.twoSum).
Proof.
  destruct (C4_supplementary_problems_unique samples.scenario (Some samples.twoSum))
    as (_ & H & _).
  apply (H samples.twoSum); [reflexivity|vm_compute; discriminate].
Defined.

(** C4 as stated fails for an empty slug: nothing is excluded then, and the
    result holds a problem with the daily problem's (empty) slug. *)
Lemma C4_counterexample :
  usecase.fetchRandomProblems samples.blank (Some samples.unnamed)
  = [samples.unnamed; samples.threeSum]
  ∧ Problem.Slug samples.unnamed
    ∈ Problem.Slug <$> usecase.fetchRandomProblems samples.blank (Some samples.unnamed).
Proof. split; [by vm_compute|]. vm_compute. left. Qed.

(** ** The shuffle *)

Lemma insert_Permutation {A} (l : list A) (i : nat) (x y : A) :
  l !! i = Some x →
  <[i:=y]> l ≡ₚ y :: delete i l ∧ l ≡ₚ x :: delete i l.
Proof.
  intros Hi. split; [|by apply delete_Permutation].
  rewrite insert_take_drop by (by eapply lookup_lt_Some).
  rewrite delete_take_drop. by rewrite Permutation_middle.
Qed.

Lemma swap_Permutation {A} (l : list A) (i j : nat) : swap l i j ≡ₚ l.
Proof.
  unfold swap. destruct (l !! i) as [x|] eqn:Hi; [|done].
  destruct (l !! j) as [y|] eqn:Hj; [|done].
  destruct (decide (i = j)) as [->|Hne].
  - assert (x = y) as -> by congruence.
    rewrite (list_insert_id l j y) by done. by rewrite list_insert_id.
  - destruct (insert_Permutation l j y x Hj) as [H1 H2].
    assert (<[j:=x]> l !! i = Some x) as Hi'.
    { by rewrite list_lookup_insert_ne. }
    destruct (insert_Permutation (<[j:=x]> l) i x y Hi') as [H3 H4].
    etrans; [exact H3|]. etrans; [|symmetry; exact H2]. f_equiv.
    apply (Permutation.Permutation_cons_inv (a := x)).
    etrans; [symmetry; exact H4|exact H1].
Qed.

Lemma shuffleFrom_Permutation {A} (draw : nat → nat) (i : nat) (l : list A) :
  shuffleFrom draw i l ≡ₚ l.
Proof.
  revert l. induction i as [|i IH]; intros l; [done|].
  cbn [shuffleFrom]. rewrite IH. apply swap_Permutation.
Qed.

Lemma Shuffle_Permutation {A} (draw : nat → nat) (l : list A) : Shuffle draw l ≡ₚ l.
Proof. apply shuffleFrom_Permutation. Qed.

Lemma length_Shuffle {A} (draw : nat → nat) (l : list A) :
  length (Shuffle draw l) = length l.
Proof. by rewrite Shuffle_Permutation. Qed.

Lemma len_Shuffle {A} (draw : nat → nat) (l : list A) : len (Shuffle draw l) = len l.
Proof. unfold len. by rewrite length_Shuffle. Qed.

(** ** The random problems of the problem source *)

Lemma collectCandidates_spec (pairs : list leetcode.statStatusPair)
    (candidates : list Problem.t) (p : Problem.t) :
  p ∈ leetcode.collectCandidates pairs candidates →
  p ∈ candidates
  ∨ ∃ item, item ∈ pairs ∧ leetcode.PaidOnly item = false
            ∧ leetcode.QuestionTitleSlug item ≠ [] ∧ p = leetcode.toProblem item.
Proof.
  revert candidates. induction pairs as [|item rest IH]; intros candidates Hp.
  - by left.
  - cbn [leetcode.collectCandidates] in Hp. case_decide as Hskip.
    + destruct (IH _ Hp) as [?|(it & Hit & ?)]; [by left|].
      right. exists it. split; [by apply elem_of_cons; right|done].
    + destruct (IH _ Hp) as [Hc|(it & Hit & ?)].
      * apply elem_of_app in Hc as [?|Hc]; [by left|].
        apply list_elem_of_singleton in Hc as ->. right. exists item.
        split; [by apply elem_of_cons; left|].
        destruct (leetcode.PaidOnly item); naive_solver.
      * right. exists it. split; [by apply elem_of_cons; right|done].
Qed.

(** C10.  Every problem returned by the random fetch has a non-empty slug
    and is the conversion of an entry of the problemset that is not paid-only
    and has a non-empty slug. *)
Theorem C10_random_problems_free_and_named (c : leetcode.Client) (count : Z)
    (p : Problem.t) :
  p ∈ (leetcode.GetRandomProblems c count).1 →
  Problem.Slug p ≠ []
  ∧ ∃ item, item ∈ (leetcode.problemset c).1
            ∧ leetcode.PaidOnly item = false
            ∧ leetcode.QuestionTitleSlug item ≠ []
            ∧ p = leetcode.toProblem item.
Proof.
  unfold leetcode.GetRandomProblems. case_decide; [by intros ?%elem_of_nil|].
  destruct (leetcode.problemset c) as [pairs [e|]]; [by intros ?%elem_of_nil|].
  case_decide; [by intros ?%elem_of_nil|]. cbn [fst]. intros Hp.
  apply elem_of_take in Hp as (i & Hp%list_elem_of_lookup_2 & _).
  rewrite Shuffle_Permutation in Hp.
  apply collectCandidates_spec in Hp as [Hp|(item & Hin & Hfree & Hslug & ->)];
    [by apply elem_of_nil in Hp|].
  split; [done|]. by exists item.
Qed.

(** C10 on a problemset with a free, a paid-only and an unnamed entry. *)
Lemma C10_witness :
  let p := samples.problem 1 "Two Sum" "two-sum" "Easy" in
  Problem.Slug p ≠ []
  ∧ ∃ item, item ∈ (leetcode.problemset samples.problemsetClient).1
            ∧ leetcode.PaidOnly item = false
            ∧ leetcode.QuestionTitleSlug item ≠ []
            ∧ p = leetcode.toProblem item.
Proof.
  apply (C10_random_problems_free_and_named samples.problemsetClient 2).
  vm_compute. left.
Defined.

(** ** The composite article provider *)

Section Composite.

Variable ToLower : gostring → gostring.

Local Abbreviation key := (articles.canonicalArticleKey ToLower).
Local Abbreviation addItems := (articles.addItems ToLower).
Local Abbreviation queryProviders := (articles.queryProviders ToLower).

Lemma addItems_frame (count : Z) (items : list Article.t) (st : articles.loopState) :
  articles.firstErr (addItems count items st) = articles.firstErr st
  ∧ articles.calls (addItems count items st) = articles.calls st.
Proof.
  revert st. induction items as [|item rest IH]; intros st; [done|].
  cbn [articles.addItems]. repeat case_decide; try apply IH; try done.
  destruct (IH {| articles.results := articles.results st ++ [item];
                  articles.seen := {[key item]} ∪ articles.seen st;
                  articles.firstErr := articles.firstErr st;
                  articles.calls := articles.calls st |}) as [-> ->]. done.
Qed.

Lemma addItems_inv (count : Z) (items : list Article.t) (st : articles.loopState) :
  distinctResults ToLower st →
  len (articles.results st) < count →
  distinctResults ToLower (addItems count items st)
  ∧ len (articles.results (addItems count items st)) ≤ count.
Proof.
  revert st. induction items as [|item rest IH]; intros st Hinv Hlen.
  { split; [done|]. cbn. lia. }
  cbn [articles.addItems]. case_decide as Hk; [by apply IH|].
  case_decide as Hs; [by apply IH|].
  set (st' := {| articles.results := articles.results st ++ [item];
                 articles.seen := {[key item]} ∪ articles.seen st;
                 articles.firstErr := articles.firstErr st;
                 articles.calls := articles.calls st |}).
  assert (distinctResults ToLower st') as Hinv'.
  { destruct Hinv as [Hnd Hin]. split; cbn.
    - rewrite fmap_app. apply NoDup_app. split; [done|]. split.
      + intros k Hk1 Hk2. cbn in Hk2. apply list_elem_of_singleton in Hk2 as ->.
        apply list_elem_of_fmap in Hk1 as (a & Ha & Hain).
        apply Hs. rewrite Ha. by apply Hin.
      + cbn. apply NoDup_singleton.
    - intros a Ha. apply elem_of_app in Ha as [Ha|Ha].
      + destruct (Hin a Ha). split; [set_solver|done].
      + apply list_elem_of_singleton in Ha as ->. split; [set_solver|done]. }
  assert (len (articles.results st') = len (articles.results st) + 1) as Hlen'.
  { cbn. rewrite len_app. by change (len [item]) with 1. }
  case_decide as Hfull.
  - split; [done|]. fold st' in Hfull. lia.
  - apply IH; [done|]. fold st' in Hfull. lia.
Qed.

Lemma queryProviders_inv (count : Z) (ps : list articles.ArticleProvider)
    (st : articles.loopState) :
  distinctResults ToLower st →
  len (articles.results st) ≤ count →
  distinctResults ToLower (queryProviders count ps st)
  ∧ len (articles.results (queryProviders count ps st)) ≤ count.
Proof.
  revert st. induction ps as [|p rest IH]; intros st Hinv Hlen; [done|].
  cbn [articles.queryProviders]. case_decide as Hfull; [done|].
  destruct (p (count - len (articles.results st))) as [items [e|]].
  - by apply IH.
  - edestruct (addItems_inv count items) as [H1 H2]; [| |by apply IH];
      [exact Hinv|cbn; lia].
Qed.

(** C8.  For a count that is not negative, the composite provider returns at
    most [count] articles, and no two of them share a canonical key. *)
Theorem C8_composite_bounded_and_distinct (c : articles.CompositeProvider)
    (count : Z) :
  0 ≤ count →
  len (articles.GetRecommendedArticles ToLower c count).1 ≤ count
  ∧ NoDup (key <$> (articles.GetRecommendedArticles ToLower c count).1).
Proof.
  intros Hc. unfold articles.GetRecommendedArticles.
  case_decide; [split; [done|apply NoDup_nil_2]|].
  destruct (queryProviders_inv count (articles.providers c) articles.initialState)
    as [[Hnd _] Hlen].
  { split; [apply NoDup_nil_2|]. by intros a ?%elem_of_nil. }
  { change (0 ≤ count). lia. }
  unfold articles.finalState.
  destruct (articles.firstErr _); [|done].
  case_decide; [|done]. split; [done|apply NoDup_nil_2].
Qed.

Lemma errorsOf_app (l k : list (Z * (list Article.t * option error))) :
  errorsOf (l ++ k) = errorsOf l ++ errorsOf k.
Proof. unfold errorsOf. apply omap_app. Qed.

(** [firstErr] is the first error among the calls made. *)
Lemma queryProviders_firstErr (count : Z) (ps : list articles.ArticleProvider)
    (st : articles.loopState) :
  articles.firstErr st = head (errorsOf (articles.calls st)) →
  articles.firstErr (queryProviders count ps st)
  = head (errorsOf (articles.calls (queryProviders count ps st))).
Proof.
  revert st. induction ps as [|p rest IH]; intros st Hst; [done|].
  cbn [articles.queryProviders]. case_decide as Hfull; [done|].
  destruct (p (count - len (articles.results st))) as [items [e|]].
  - apply IH. cbn. rewrite errorsOf_app, Hst.
    by destruct (errorsOf (articles.calls st)).
  - apply IH. destruct (addItems_frame count items
      {| articles.results := articles.results st; articles.seen := articles.seen st;
         articles.firstErr := articles.firstErr st;
         articles.calls := articles.calls st
                           ++ [(count - len (articles.results st), (items, None))] |})
      as [-> ->].
    cbn. rewrite errorsOf_app, Hst. cbn. by rewrite app_nil_r.
Qed.

Lemma queryProviders_calls (count : Z) (ps : list articles.ArticleProvider)
    (st : articles.loopState) :
  ∃ new, articles.calls (queryProviders count ps st) = articles.calls st ++ new
         ∧ Forall2 (answered count) (take (length new) ps) new.
Proof.
  revert st. induction ps as [|p rest IH]; intros st.
  { exists []. split; [by rewrite app_nil_r|constructor]. }
  cbn [articles.queryProviders]. case_decide as Hfull.
  { exists []. split; [by rewrite app_nil_r|constructor]. }
  pose proof (len_nonneg (articles.results st)) as Hpos.
  destruct (p (count - len (articles.results st))) as [items err] eqn:Hp.
  assert (answered count p (count - len (articles.results st), (items, err))) as Ha.
  { split; cbn; [done|lia]. }
  destruct err as [e|].
  - edestruct IH as (new & -> & Hnew). cbn [articles.calls].
    eexists (_ :: new). split; [by rewrite <- app_assoc|]. by constructor.
  - edestruct IH as (new & -> & Hnew).
    rewrite (proj2 (addItems_frame _ _ _)). cbn [articles.calls].
    eexists (_ :: new). split; [by rewrite <- app_assoc|]. by constructor.
Qed.

Lemma queryProviders_all_fail (count : Z) (ps : list articles.ArticleProvider)
    (st : articles.loopState) :
  0 < count →
  articles.results st = [] →
  Forall (λ p : articles.ArticleProvider, (p count).2 ≠ None) ps →
  articles.results (queryProviders count ps st) = []
  ∧ articles.firstErr (queryProviders count ps st)
    = match articles.firstErr st with
      | Some e => Some e
      | None => head ps ≫= λ p, (p count).2
      end.
Proof.
  intros Hc. revert st. induction ps as [|p rest IH]; intros st Hres Hall.
  { split; [done|]. cbn. by destruct (articles.firstErr st). }
  apply Forall_cons in Hall as [Hp Hall].
  cbn [articles.queryProviders]. rewrite Hres. change (len []) with 0.
  rewrite decide_False by lia. replace (count - 0) with count by lia.
  destruct (p count) as [items [e|]] eqn:Hpc; [|done].
  edestruct IH as [-> ->]; [|exact Hall|]; [done|].
  split; [done|]. cbn. rewrite Hpc. by destruct (articles.firstErr st).
Qed.

Lemma queryProviders_no_fail (count : Z) (ps : list articles.ArticleProvider)
    (st : articles.loopState) :
  Forall (λ p : articles.ArticleProvider, ∀ n, (p n).2 = None) ps →
  articles.firstErr st = None →
  articles.firstErr (queryProviders count ps st) = None.
Proof.
  revert st. induction ps as [|p rest IH]; intros st Hall Hst; [done|].
  apply Forall_cons in Hall as [Hp Hall].
  cbn [articles.queryProviders]. case_decide; [done|].
  specialize (Hp (count - len (articles.results st))).
  destruct (p _) as [items err]. cbn in Hp. subst err.
  apply IH; [done|]. by rewrite (proj1 (addItems_frame _ _ _)).
Qed.

(** What the call returns in terms of the state in which its loop ends. *)
Lemma GetRecommendedArticles_final (c : articles.CompositeProvider) (count : Z) :
  0 < count →
  let st := articles.finalState ToLower c count in
  articles.GetRecommendedArticles ToLower c count
  = (articles.results st,
     if decide (articles.results st = []) then head (errorsOf (articles.calls st))
     else None).
Proof.
  intros Hc st. unfold articles.GetRecommendedArticles.
  rewrite decide_False by lia. fold st.
  pose proof (queryProviders_firstErr count (articles.providers c)
                articles.initialState eq_refl) as Hfirst.
  fold (articles.finalState ToLower c count) in Hfirst. fold st in Hfirst.
  rewrite <- Hfirst.
  destruct (articles.results st) as [|a r] eqn:Hr.
  - rewrite decide_True by done. change (len []) with 0.
    destruct (articles.firstErr st); [by rewrite decide_True|done].
  - rewrite (decide_False (P := a :: r = [])) by done.
    destruct (articles.firstErr st); [|done].
    rewrite decide_False; [done|]. rewrite len_cons.
    pose proof (len_nonneg r). lia.
Qed.

(** C2 (amended).  For a positive count the composite call returns the
    articles collected and, as its error, the first error among the calls it
    made when no article was collected, none otherwise; so it fails exactly
    when it collected nothing and some queried source failed.  When every
    source fails it fails with the error of the first one (with no source it
    succeeds); when no source fails it succeeds.  For a count that is not
    positive it succeeds with no article. *)
Theorem C2_composite_fails_without_articles (c : articles.CompositeProvider)
    (count : Z) :
  (count ≤ 0 → articles.GetRecommendedArticles ToLower c count = ([], None))
  ∧ (0 < count →
     let st := articles.finalState ToLower c count in
     articles.GetRecommendedArticles ToLower c count
     = (articles.results st,
        if decide (articles.results st = [])
        then head (errorsOf (articles.calls st)) else None)
     ∧ Forall2 (answered count)
         (take (length (articles.calls st)) (articles.providers c))
         (articles.calls st)
     ∧ (Forall (λ p : articles.ArticleProvider, (p count).2 ≠ None)
          (articles.providers c) →
        articles.GetRecommendedArticles ToLower c count
        = ([], head (articles.providers c) ≫= λ p, (p count).2))
     ∧ (Forall (λ p : articles.ArticleProvider, ∀ n, (p n).2 = None)
          (articles.providers c) →
        (articles.GetRecommendedArticles ToLower c count).2 = None)).
Proof.
  split.
  { intros Hc. unfold articles.GetRecommendedArticles. by rewrite decide_True. }
  intros Hc st. pose proof (GetRecommendedArticles_final c count Hc) as Hget.
  fold st in Hget. split; [exact Hget|]. split; [|split].
  - destruct (queryProviders_calls count (articles.providers c)
                articles.initialState) as (new & Hnew & Hall).
    unfold st, articles.finalState. rewrite Hnew. exact Hall.
  - intros Hall. rewrite Hget.
    destruct (queryProviders_all_fail count (articles.providers c)
                articles.initialState Hc eq_refl Hall) as [Hres Herr].
    fold (articles.finalState ToLower c count) in Hres, Herr. fold st in Hres, Herr.
    pose proof (queryProviders_firstErr count (articles.providers c)
                  articles.initialState eq_refl) as Hfirst.
    fold (articles.finalState ToLower c count) in Hfirst. fold st in Hfirst.
    rewrite Hres, decide_True by done. by rewrite <- Hfirst, Herr.
  - intros Hall. rewrite Hget. cbn [snd]. case_decide; [|done].
    pose proof (queryProviders_no_fail count (articles.providers c)
                  articles.initialState Hall eq_refl) as Hnone.
    fold (articles.finalState ToLower c count) in Hnone. fold st in Hnone.
    pose proof (queryProviders_firstErr count (articles.providers c)
                  articles.initialState eq_refl) as Hfirst.
    fold (articles.finalState ToLower c count) in Hfirst. fold st in Hfirst.
    by rewrite <- Hfirst.
Qed.

End Composite.

(** C8 on two feeds that share articles, for a count of 3. *)
Lemma C8_witness :
  len (articles.GetRecommendedArticles samples.toLowerASCII samples.twoFeeds 3).1 ≤ 3
  ∧ NoDup (articles.canonicalArticleKey samples.toLowerASCII
             <$> (articles.GetRecommendedArticles samples.toLowerASCII
                    samples.twoFeeds 3).1).
Proof.
  apply (C8_composite_bounded_and_distinct samples.toLowerASCII samples.twoFeeds 3).
  lia.
Defined.

(** C2 on a chain whose two sources are down. *)
Lemma C2_witness :
  articles.GetRecommendedArticles samples.toLowerASCII samples.allDown 2
  = ([], Some (str "fetch medium feed")).
Proof.
  destruct (C2_composite_fails_without_articles samples.toLowerASCII
              samples.allDown 2) as [_ Hpos].
  destruct Hpos as (_ & _ & Hfail & _); [lia|].
  rewrite Hfail; [reflexivity|]. repeat constructor; vm_compute; discriminate.
Defined.

(** C2 as stated fails: the first source is down, the second one succeeds
    with no article, and the call fails. *)
Lemma C2_counterexample :
  articles.providers samples.downThenDry = [samples.down; samples.dry]
  ∧ (∀ n, samples.dry n = ([], None))
  ∧ articles.GetRecommendedArticles samples.toLowerASCII samples.downThenDry 1
    = ([], Some (str "fetch medium feed")).
Proof. split; [done|]. split; [done|]. by vm_compute. Qed.

(** ** The Medium provider *)

Section Medium.

Variable ToLower : gostring → gostring.

Lemma length_remove_dups (l : list gostring) :
  (length (remove_dups l) ≤ length l)%nat.
Proof.
  induction l as [|x l IH]; [done|]. cbn [remove_dups].
  destruct (decide_rel elem_of x l); cbn [length]; lia.
Qed.

Lemma distinctLinks_le (l : list Article.t) : distinctLinks ToLower l ≤ len l.
Proof.
  unfold distinctLinks, len.
  pose proof (length_remove_dups (filter (λ k, k ≠ []) (linkKey ToLower <$> l))).
  pose proof (length_filter (λ k, k ≠ []) (linkKey ToLower <$> l)) as Hf.
  rewrite length_fmap in Hf. lia.
Qed.

Lemma dedupByLink_spec (aggregated : list Article.t)
    (dedup : gmap gostring Article.t) :
  (∀ k a, articles.dedupByLink ToLower aggregated dedup !! k = Some a →
          dedup !! k = Some a
          ∨ (a ∈ aggregated ∧ linkKey ToLower a = k ∧ k ≠ []))
  ∧ dom (articles.dedupByLink ToLower aggregated dedup)
    = dom dedup
      ∪ list_to_set (filter (λ k, k ≠ []) (linkKey ToLower <$> aggregated)).
Proof.
  revert dedup. induction aggregated as [|article rest IH]; intros dedup.
  { split; [by left|]. cbn. set_solver. }
  cbn [articles.dedupByLink]. fold (linkKey ToLower article).
  destruct (IH dedup) as [IH1 IH2].
  destruct (IH (<[linkKey ToLower article:=article]> dedup)) as [IH3 IH4].
  case_decide as Hk.
  { split.
    - intros k a Hka. destruct (IH1 k a Hka) as [?|(? & ? & ?)]; [by left|].
      right. split; [by apply elem_of_cons; right|done].
    - rewrite IH2. cbn [fmap list_fmap]. fold (linkKey ToLower article).
      by rewrite filter_cons_False by (by intros ?). }
  destruct (dedup !! linkKey ToLower article) as [old|] eqn:Hold.
  { split.
    - intros k a Hka. destruct (IH1 k a Hka) as [?|(? & ? & ?)]; [by left|].
      right. split; [by apply elem_of_cons; right|done].
    - rewrite IH2. cbn [fmap list_fmap]. fold (linkKey ToLower article).
      rewrite filter_cons_True by done.
      apply elem_of_dom_2 in Hold. set_solver. }
  split.
  - intros k a Hka. destruct (IH3 k a Hka) as [Hins|(? & ? & ?)].
    + destruct (decide (linkKey ToLower article = k)) as [<-|Hne].
      * rewrite lookup_insert_eq in Hins. injection Hins as <-.
        right. split; [by apply elem_of_cons; left|done].
      * rewrite lookup_insert_ne in Hins by done. by left.
    + right. split; [by apply elem_of_cons; right|done].
  - rewrite IH4, dom_insert_L. cbn [fmap list_fmap]. fold (linkKey ToLower article).
    rewrite filter_cons_True by done. set_solver.
Qed.

(** The unique articles: distinct keys, all from the gathered articles, as
    many as there are distinct non-empty keys. *)
Lemma uniqueArticles_spec (m : articles.MediumProvider) (aggregated : list Article.t) :
  NoDup (linkKey ToLower <$> articles.uniqueArticles ToLower m aggregated)
  ∧ (∀ a, a ∈ articles.uniqueArticles ToLower m aggregated →
          a ∈ aggregated ∧ linkKey ToLower a ≠ [])
  ∧ len (articles.uniqueArticles ToLower m aggregated)
    = distinctLinks ToLower aggregated.
Proof.
  unfold articles.uniqueArticles.
  set (D := articles.dedupByLink ToLower aggregated ∅).
  pose proof (articles.rangeOrder_perm m (map_to_list D)) as Hperm.
  destruct (dedupByLink_spec aggregated ∅) as [Hentries Hdom]. fold D in Hentries, Hdom.
  assert (∀ ka, ka ∈ articles.rangeOrder m (map_to_list D) →
                linkKey ToLower ka.2 = ka.1 ∧ ka.2 ∈ aggregated ∧ ka.1 ≠ [])
    as Hpairs.
  { intros [k a] Hka. rewrite Hperm in Hka. apply elem_of_map_to_list in Hka.
    destruct (Hentries k a Hka) as [Hempty|(? & ? & ?)]; [|done].
    by rewrite lookup_empty in Hempty. }
  split; [|split].
  - assert (linkKey ToLower <$> (articles.rangeOrder m (map_to_list D)).*2
            = (articles.rangeOrder m (map_to_list D)).*1) as ->.
    { rewrite <- list_fmap_compose. apply list_fmap_ext.
      intros i ka Hka%list_elem_of_lookup_2. cbn. by apply Hpairs. }
    rewrite Hperm. apply NoDup_fst_map_to_list.
  - intros a Ha. apply list_elem_of_fmap in Ha as ([k a'] & -> & Hka).
    destruct (Hpairs _ Hka) as (Hk & Hin & Hne). cbn in *. split; [done|congruence].
  - unfold distinctLinks, len. rewrite length_fmap, Hperm, length_map_to_list.
    rewrite <- (size_dom (D := gset gostring)), Hdom, dom_empty_L, (left_id_L ∅ (∪)).
    set (F := filter (λ k, k ≠ []) (linkKey ToLower <$> aggregated)).
    rewrite <- (size_list_to_set (C := gset gostring) (remove_dups F))
      by apply NoDup_remove_dups.
    f_equal. f_equal. apply set_eq. intros k.
    by rewrite !elem_of_list_to_set, elem_of_remove_dups.
Qed.

Lemma gather_spec (m : articles.MediumProvider) (count : Z) :
  let primary := fetched (articles.fetchPrimary m) in
  let proxy := fetched (articles.fetchProxy m) in
  (len primary < count
   ∧ ∃ lastErr, articles.gather m count
                = (primary ++ proxy, lastErr, [articles.Primary; articles.Proxy]))
  ∨ (count ≤ len primary
     ∧ ∃ lastErr, articles.gather m count = (primary, lastErr, [articles.Primary])).
Proof.
  unfold articles.gather, fetched.
  destruct (articles.fetchPrimary m) as [items err]. cbn [fst snd].
  set (primary := match err with None => items | Some _ => [] end).
  case_decide as Hlt; [left|right; split; [lia|eauto]].
  split; [done|]. destruct (articles.fetchProxy m) as [items' [e'|]]; cbn [fst snd].
  - rewrite app_nil_r. eauto.
  - eauto.
Qed.

(** C5.  For a positive count the proxy feed is fetched exactly when the
    primary feed gave fewer than [count] articles, hence only when it gave
    fewer than [count] distinct ones.  The call succeeds exactly when the
    articles of the feeds fetched hold a non-empty link key, and then
    returns as many articles as the smaller of [count] and the number of
    distinct non-empty keys, with distinct keys, all taken from those
    feeds. *)
Theorem C5_medium_two_tier (m : articles.MediumProvider) (count : Z) :
  0 < count →
  let primary := fetched (articles.fetchPrimary m) in
  let proxy := fetched (articles.fetchProxy m) in
  let out := articles.Medium_GetRecommendedArticles ToLower m count in
  ∃ merged,
    ((out.2 = [articles.Primary; articles.Proxy]
      ∧ len primary < count ∧ distinctLinks ToLower primary < count
      ∧ merged = primary ++ proxy)
     ∨ (out.2 = [articles.Primary] ∧ count ≤ len primary ∧ merged = primary))
    ∧ (out.1.2 = None ↔ 0 < distinctLinks ToLower merged)
    ∧ len out.1.1 = Z.min count (distinctLinks ToLower merged)
    ∧ NoDup (linkKey ToLower <$> out.1.1)
    ∧ ∀ a, a ∈ out.1.1 → a ∈ merged ∧ linkKey ToLower a ≠ [].
Proof.
  intros Hc primary proxy out.
  assert (∃ merged lastErr fs,
            articles.gather m count = (merged, lastErr, fs)
            ∧ ((fs = [articles.Primary; articles.Proxy]
                ∧ len primary < count ∧ distinctLinks ToLower primary < count
                ∧ merged = primary ++ proxy)
               ∨ (fs = [articles.Primary] ∧ count ≤ len primary
                  ∧ merged = primary)))
    as (merged & lastErr & fs & Hg & Hfs).
  { pose proof (distinctLinks_le primary).
    destruct (gather_spec m count) as [[Hlt [e He]]|[Hge [e He]]];
      fold primary proxy in Hlt || fold primary in Hge; fold primary proxy in He.
    - exists (primary ++ proxy), e, [articles.Primary; articles.Proxy].
      split; [done|]. left. repeat split; [done|lia].
    - exists primary, e, [articles.Primary]. split; [done|]. by right. }
  exists merged. unfold out, articles.Medium_GetRecommendedArticles.
  rewrite decide_False by lia. rewrite Hg.
  destruct (uniqueArticles_spec m merged) as (Hnd & Hin & Hlen).
  pose proof (distinctLinks_le merged) as Hle.
  pose proof (len_nonneg (articles.uniqueArticles ToLower m merged)) as Hpos.
  assert (∀ e : error,
            (Some e = None ↔ 0 < distinctLinks ToLower merged)
            ∧ len (@nil Article.t) = Z.min count (distinctLinks ToLower merged)
            ∧ NoDup (linkKey ToLower <$> [])
            ∧ (∀ a, a ∈ @nil Article.t → a ∈ merged ∧ linkKey ToLower a ≠ [])
          ↔ distinctLinks ToLower merged = 0) as Hfail.
  { intros e. change (len []) with 0. split; [lia|]. intros H0.
    split; [split; [done|lia]|]. split; [lia|].
    split; [apply NoDup_nil_2|by intros a ?%elem_of_nil]. }
  case_decide as Hempty.
  { destruct lastErr; cbn [fst snd]; (split; [done|]); apply Hfail; lia. }
  case_decide as Hnone.
  { cbn [fst snd]. split; [done|]. apply Hfail. lia. }
  cbn [fst snd]. split; [done|]. split; [split; [lia|done]|].
  rewrite len_Shuffle.
  set (unique := articles.uniqueArticles ToLower m merged) in *.
  set (n := if decide (len unique < count) then len unique else count).
  assert (n = Z.min count (distinctLinks ToLower merged) ∧ 0 ≤ n ≤ len unique)
    as [Hn Hn'].
  { unfold n. case_decide; lia. }
  split; [|split].
  - unfold len at 1. rewrite length_take, length_Shuffle. unfold len in Hn'. lia.
  - rewrite fmap_take. eapply sublist_NoDup; [|apply sublist_take].
    by rewrite Shuffle_Permutation.
  - intros a Ha. apply elem_of_take in Ha as (i & Ha%list_elem_of_lookup_2 & _).
    rewrite Shuffle_Permutation in Ha. by apply Hin.
Qed.

End Medium.

(** C5 on a provider whose primary feed gives two articles, for a count of
    3: the proxy feed is fetched and the feeds are merged. *)
Lemma C5_witness :
  len (articles.Medium_GetRecommendedArticles samples.toLowerASCII samples.medium 3).1.1
  = Z.min 3 (distinctLinks samples.toLowerASCII
               ([samples.binarySearch; samples.binarySearchAgain]
                ++ [samples.heaps; samples.binarySearch])).
Proof.
  assert (0 < 3) as Hcount by lia.
  destruct (C5_medium_two_tier samples.toLowerASCII samples.medium 3 Hcount)
    as (merged & [(_ & _ & _ & ->)|(Hfeeds & _)] & _ & Hlen & _).
  - exact Hlen.
  - vm_compute in Hfeeds. discriminate Hfeeds.
Defined.

(** ** The insight composer *)

Lemma trimText_spec (text : gostring) (max : Z) :
  3 ≤ max →
  ∃ r, writing.trimText text max = Some r ∧ len r ≤ max
       ∧ (len text ≤ max → r = text)
       ∧ (max < len text →
          r = GoStrings.TrimSpace (take (Z.to_nat (max - 3)) text) ++ ellipsis).
Proof. rewrite trimText_truncate. apply hard_cut_spec. Qed.

(** C6 (amended).  A narrative that the backend returns for the configured
    model is handed back unchanged when it is within 2000 bytes; a longer one
    is cut to its first 1997 bytes, wherever that falls, trimmed of
    surrounding white space and followed by the marker, which gives at most
    2000 bytes. *)
Theorem C6_compose_cuts_at_fixed_length (g : writing.GeminiWriter)
    (text : gostring) (status : Z) :
  writing.apiKey g ≠ [] →
  writing.model g ≠ [] →
  writing.generate g (writing.model g) = (text, status, None) →
  ∃ r, writing.Compose g = Some (r, None)
       ∧ len r ≤ 2000
       ∧ (len text ≤ 2000 → r = text)
       ∧ (2000 < len text → r = GoStrings.TrimSpace (take 1997 text) ++ ellipsis).
Proof.
  intros Hkey Hmodel Hgen. unfold writing.Compose.
  rewrite decide_False by (by intros [?|?]).
  cbn [writing.tryModels]. rewrite Hgen.
  destruct (trimText_spec text writing.maxDiscordDescription) as (r & -> & Hr);
    [unfold writing.maxDiscordDescription; lia|].
  exists r. split; [done|]. exact Hr.
Qed.

(** C6 on a narrative of 2002 bytes. *)
Lemma C6_witness :
  ∃ r, writing.Compose (samples.writerOf samples.longNarrative) = Some (r, None)
       ∧ len r ≤ 2000
       ∧ (len samples.longNarrative ≤ 2000 → r = samples.longNarrative)
       ∧ (2000 < len samples.longNarrative →
          r = GoStrings.TrimSpace (take 1997 samples.longNarrative) ++ ellipsis).
Proof.
  apply (C6_compose_cuts_at_fixed_length (samples.writerOf samples.longNarrative)
           samples.longNarrative 200).
  - vm_compute. discriminate.
  - vm_compute. discriminate.
  - reflexivity.
Defined.

(** C6 as stated fails: the narrative has a space within the budget, yet it
    is cut after 1997 bytes, between two bytes of a word. *)
Lemma C6_counterexample :
  let text := samples.longNarrative in
  let r := take 1997 text ++ ellipsis in
  writing.Compose (samples.writerOf text) = Some (r, None)
  ∧ text !! 1%nat = Some " "%char
  ∧ text !! 1996%nat = Some "y"%char
  ∧ text !! 1997%nat = Some "y"%char
  ∧ ¬ cutAtSpace text r.
Proof.
  intros text r. split; [by vm_compute|]. split; [done|].
  split; [by vm_compute|]. split; [by vm_compute|].
  intros (k & c & Hr & Hk & Hc).
  assert (k = 1997%nat) as ->.
  { apply (f_equal length) in Hr. unfold r in Hr.
    rewrite !length_app, !length_take in Hr.
    assert (length text = 2002%nat) as Hlen by (by vm_compute).
    rewrite Hlen in Hr. lia. }
  assert (text !! 1997%nat = Some "y"%char) as Hy by (by vm_compute).
  rewrite Hy in Hk. injection Hk as <-. by vm_compute in Hc.
Qed.

(** * Further properties of the code *)

(** ** The supplementary problems keep order and slugs *)

Lemma uniqueProblems_kept (problems : list Problem.t) (seen : gset gostring)
    (unique : list Problem.t) :
  ∃ kept, usecase.uniqueProblems problems seen unique = unique ++ kept
          ∧ kept `sublist_of` problems
          ∧ ∀ p, p ∈ problems →
                 Problem.Slug p ∈ seen ∨ Problem.Slug p ∈ Problem.Slug <$> kept.
Proof.
  revert seen unique. induction problems as [|q rest IH]; intros seen unique.
  { exists []. split; [by rewrite app_nil_r|]. split; [done|].
    by intros p ?%elem_of_nil. }
  cbn [usecase.uniqueProblems]. case_decide as Hq.
  - destruct (IH seen unique) as (kept & -> & Hsub & Hall).
    exists kept. split; [done|]. split; [by apply sublist_cons|].
    intros p [->|Hp]%elem_of_cons; [by left|by apply Hall].
  - destruct (IH ({[Problem.Slug q]} ∪ seen) (unique ++ [q]))
      as (kept & -> & Hsub & Hall).
    exists (q :: kept). split; [by rewrite <- app_assoc|].
    split; [by apply sublist_skip|].
    intros p [->|Hp]%elem_of_cons.
    + right. cbn. apply elem_of_cons. by left.
    + destruct (Hall p Hp) as [[Heq%elem_of_singleton|?]%elem_of_union|?].
      * right. cbn. apply elem_of_cons. by left.
      * by left.
      * right. cbn. apply elem_of_cons. by right.
Qed.

(** X1.  When the provider answers, the supplementary problems are a
    sublist of its answer, in the same order, and every slug of the answer
    is either kept or the non-empty slug of the daily problem. *)
Theorem X1_supplementary_keeps_order_and_slugs (d : usecase.DailyDigest)
    (daily : option Problem.t) (answer : list Problem.t) :
  0 < usecase.randomCount d →
  usecase.GetRandomProblems (usecase.problems d) (usecase.randomCount d)
  = (answer, None) →
  usecase.fetchRandomProblems d daily `sublist_of` answer
  ∧ ∀ p, p ∈ answer →
         Problem.Slug p ∈ Problem.Slug <$> usecase.fetchRandomProblems d daily
         ∨ (Problem.Slug p ≠ [] ∧ Problem.Slug <$> daily = Some (Problem.Slug p)).
Proof.
  intros Hc Ha. unfold usecase.fetchRandomProblems.
  rewrite decide_False by lia. rewrite Ha.
  set (dailySlug := match daily with Some p => Problem.Slug p | None => [] end).
  set (seen := if decide (dailySlug ≠ []) then {[dailySlug]} else ∅ : gset gostring).
  destruct (uniqueProblems_kept answer seen []) as (kept & -> & Hsub & Hall).
  cbn [app]. split; [done|]. intros p Hp.
  destruct (Hall p Hp) as [Hseen|?]; [|by left]. right.
  unfold seen in Hseen. case_decide as Hne; [|by apply not_elem_of_empty in Hseen].
  apply elem_of_singleton in Hseen. rewrite Hseen. split; [done|].
  unfold dailySlug in *. destruct daily; [done|]. by destruct Hne.
Qed.

(** X1 on the scenario: three answers, the first being the daily problem. *)
Lemma X1_witness :
  usecase.fetchRandomProblems samples.scenario (Some samples.twoSum)
  `sublist_of` [samples.twoSum; samples.threeSum; samples.fourSum]
  ∧ ∀ p, p ∈ [samples.twoSum; samples.threeSum; samples.fourSum] →
         Problem.Slug p
         ∈ Problem.Slug <$> usecase.fetchRandomProblems samples.scenario
                              (Some samples.twoSum)
         ∨ (Problem.Slug p ≠ []
            ∧ Problem.Slug <$> Some samples.twoSum = Some (Problem.Slug p)).
Proof.
  apply (X1_supplementary_keeps_order_and_slugs samples.scenario
           (Some samples.twoSum)
           [samples.twoSum; samples.threeSum; samples.fourSum]); reflexivity.
Defined.

(** ** Where the shared tail of the two trimmers cuts *)

Lemma LastIndex_none (s : gostring) (c : ascii) :
  GoStrings.LastIndex s c < 0 → ∀ j, s !! j ≠ Some c.
Proof.
  induction s as [|x t IH]; [by intros _ j|].
  cbn [GoStrings.LastIndex]. case_decide as Hr; [lia|].
  case_decide as Hx; [lia|]. intros _ [|j]; cbn.
  - congruence.
  - apply IH. lia.
Qed.

Lemma LastIndex_found (s : gostring) (c : ascii) :
  0 ≤ GoStrings.LastIndex s c →
  s !! Z.to_nat (GoStrings.LastIndex s c) = Some c
  ∧ ∀ j, (Z.to_nat (GoStrings.LastIndex s c) < j)%nat → s !! j ≠ Some c.
Proof.
  induction s as [|x t IH]; [cbn; lia|].
  cbn [GoStrings.LastIndex]. case_decide as Hr.
  - intros _. destruct (IH Hr) as [Hat Hafter].
    replace (Z.to_nat (GoStrings.LastIndex t c + 1))
      with (S (Z.to_nat (GoStrings.LastIndex t c))) by lia.
    split; [done|]. intros [|j] Hj; [lia|]. cbn. apply Hafter. lia.
  - case_decide as Hx; [|lia]. intros _. subst x. split; [done|].
    intros [|j] Hj; [lia|]. cbn. apply LastIndex_none. lia.
Qed.

Lemma cut_at_last_space (s : gostring) (limit : Z) :
  0 ≤ limit < len s →
  ∃ k, (trimmed ← slice_to s limit;
        trimmed ← (if decide (0 < GoStrings.LastIndex trimmed " "%char)
                    then slice_to trimmed (GoStrings.LastIndex trimmed " "%char)
                    else Some trimmed);
        Some (trimmed ++ ellipsis)) = Some (take k s ++ ellipsis)
       ∧ cutPoint s (Z.to_nat limit) k.
Proof.
  intros Hl. rewrite slice_to_Some by lia. cbn [mbind option_bind].
  set (trimmed := take (Z.to_nat limit) s).
  assert (len trimmed = limit) as Ht.
  { unfold trimmed, len in *. rewrite length_take. lia. }
  assert (∀ j, (j < Z.to_nat limit)%nat → trimmed !! j = s !! j) as Hsame.
  { intros j Hj. unfold trimmed. by rewrite lookup_take_lt. }
  pose proof (LastIndex_range trimmed " "%char) as Hrange.
  case_decide as Hs.
  - destruct Hrange as [Hrange|[_ ?]]; [|lia].
    rewrite slice_to_Some by lia. cbn [mbind option_bind].
    destruct (LastIndex_found trimmed " "%char) as [Hat Hafter]; [lia|].
    set (i := Z.to_nat (GoStrings.LastIndex trimmed " "%char)) in *.
    exists i. unfold trimmed at 1. rewrite take_take.
    replace (i `min` Z.to_nat limit)%nat with i by lia.
    split; [done|]. left. split; [lia|]. split.
    + rewrite <- Hsame by lia. done.
    + intros j Hj. rewrite <- Hsame by lia. apply Hafter. lia.
  - cbn [mbind option_bind]. exists (Z.to_nat limit). split; [done|]. right.
    split; [done|]. intros j Hj. rewrite <- Hsame by lia.
    destruct (decide (GoStrings.LastIndex trimmed " "%char < 0)) as [Hneg|Hzero].
    + by apply LastIndex_none.
    + destruct (LastIndex_found trimmed " "%char) as [_ Hafter]; [lia|].
      apply Hafter. lia.
Qed.

(** X2.  A text longer than the limit is cut by [trimForDiscord] in front
    of the last space that lies after its first byte and before the limit,
    or at the limit when there is no such space, and the marker follows;
    [summarizeText] does the same to the collapsed text. *)
Theorem X2_trimmers_cut_at_last_space (s : gostring) (L : Z) :
  let clean := GoStrings.Join (GoStrings.Fields s) (str " ") in
  (0 ≤ L < len s →
   ∃ k, usecase.trimForDiscord s L = Some (take k s ++ ellipsis)
        ∧ cutPoint s (Z.to_nat L) k)
  ∧ (0 ≤ L < len clean →
     ∃ k, usecase.summarizeText s L = Some (take k clean ++ ellipsis)
          ∧ cutPoint clean (Z.to_nat L) k).
Proof.
  intros clean. split; intros HL.
  - unfold usecase.trimForDiscord. rewrite decide_False by lia.
    by apply cut_at_last_space.
  - unfold usecase.summarizeText. fold clean.
    rewrite decide_False
      by (intros He; rewrite He in HL; unfold len in HL; simpl in HL; lia).
    rewrite decide_False by lia. by apply cut_at_last_space.
Qed.

(** X2 on a sentence cut after its second word. *)
Lemma X2_witness :
  (∃ k, usecase.trimForDiscord (str "two sum is easy") 8
        = Some (take k (str "two sum is easy") ++ ellipsis)
        ∧ cutPoint (str "two sum is easy") (Z.to_nat 8) k)
  ∧ (∃ k, usecase.summarizeText (str "two  sum is easy") 8
          = Some (take k (GoStrings.Join (GoStrings.Fields (str "two  sum is easy"))
                            (str " ")) ++ ellipsis)
          ∧ cutPoint (GoStrings.Join (GoStrings.Fields (str "two  sum is easy"))
                        (str " ")) (Z.to_nat 8) k).
Proof.
  destruct (X2_trimmers_cut_at_last_space (str "two sum is easy") 8) as [H1 _].
  destruct (X2_trimmers_cut_at_last_space (str "two  sum is easy") 8) as [_ H2].
  split; [apply H1|apply H2]; (split; [vm_compute; discriminate|reflexivity]).
Defined.

(** ** The summary of a description *)

Lemma spaceWidth_zero_head (c : ascii) (t : gostring) :
  GoStrings.spaceWidth (c :: t) = 0%nat →
  GoStrings.asciiSpace (N_of_ascii c) = false.
Proof.
  unfold GoStrings.spaceWidth. cbn [take firstn List.map map].
  by destruct (GoStrings.asciiSpace (N_of_ascii c)).
Qed.

Lemma fieldsFrom_fields (s : gostring) (skip : nat) (cur : gostring) :
  Forall (λ c, GoStrings.asciiSpace (N_of_ascii c) = false) cur →
  Forall (λ f, f ≠ [] ∧ Forall (λ c, GoStrings.asciiSpace (N_of_ascii c) = false) f)
    (GoStrings.fieldsFrom s skip cur).
Proof.
  revert skip cur. induction s as [|c t IH]; intros skip cur Hcur.
  - cbn. destruct cur; [constructor|]. by apply Forall_singleton.
  - cbn [GoStrings.fieldsFrom]. destruct skip as [|k]; [|by apply IH].
    destruct (GoStrings.spaceWidth (c :: t)) as [|k] eqn:Hw.
    + apply IH, Forall_app. split; [done|].
      apply Forall_singleton. by eapply spaceWidth_zero_head.
    + apply Forall_app. split; [|by apply IH].
      destruct cur; [constructor|]. by apply Forall_singleton.
Qed.

Lemma Join_collapsed (fields : list gostring) :
  Forall (λ f, f ≠ [] ∧ Forall (λ c, GoStrings.asciiSpace (N_of_ascii c) = false) f)
    fields →
  Forall collapsedByte (GoStrings.Join fields (str " "))
  ∧ (GoStrings.Join fields (str " ") = [] ↔ fields = []).
Proof.
  induction 1 as [|f rest [Hne Hf] Hrest [IH1 IH2]]; [done|].
  assert (Forall collapsedByte f) as Hf'.
  { eapply Forall_impl; [exact Hf|]. intros c Hc. by right. }
  destruct rest as [|g rest'].
  - cbn. split; [done|]. split; [done|discriminate].
  - change (GoStrings.Join (f :: g :: rest') (str " "))
      with (f ++ str " " ++ GoStrings.Join (g :: rest') (str " ")).
    split.
    + rewrite !Forall_app. split; [done|]. split; [|done].
      apply Forall_singleton. by left.
    + split; [|discriminate]. intros Happ. by destruct f.
Qed.

(** X3.  Whatever [summarizeText] returns holds no ASCII white space other
    than single spaces, so it is one line; and it is empty exactly when the
    content has no field, that is, holds nothing but white space. *)
Theorem X3_summary_is_one_line (s : gostring) (L : Z) (r : gostring) :
  usecase.summarizeText s L = Some r →
  Forall collapsedByte r
  ∧ ("010"%char ∉ r)
  ∧ (r = [] ↔ GoStrings.Fields s = []).
Proof.
  intros Hr.
  destruct (Join_collapsed (GoStrings.Fields s)) as [Hclean Hempty].
  { apply fieldsFrom_fields. constructor. }
  assert (Forall collapsedByte r ∧ (r = [] ↔ GoStrings.Fields s = [])) as [H1 H2].
  { unfold usecase.summarizeText in Hr.
    set (clean := GoStrings.Join (GoStrings.Fields s) (str " ")) in *.
    case_decide as He; [injection Hr as <-; split; [constructor|by rewrite <- Hempty]|].
    case_decide as Hlen; [injection Hr as <-; by split|].
    destruct (slice_to clean L) as [trimmed|] eqn:Hcut; [|done].
    apply slice_to_len in Hcut as [_ ->]. cbn [mbind option_bind] in Hr.
    assert (Forall collapsedByte (take (Z.to_nat L) clean)) as Htrim
      by (by apply Forall_take).
    set (trimmed := take (Z.to_nat L) clean) in *.
    assert (∃ kept, Forall collapsedByte kept ∧ r = kept ++ ellipsis)
      as (kept & Hkept & ->).
    { case_decide.
      - destruct (slice_to trimmed _) as [kept|] eqn:Hk; [|done].
        apply slice_to_len in Hk as [_ ->]. injection Hr as <-.
        eexists. split; [|done]. by apply Forall_take.
      - injection Hr as <-. by exists trimmed. }
    split.
    - apply Forall_app. split; [done|].
      unfold ellipsis. cbn. repeat (apply Forall_cons; split; [by right|]).
      constructor.
    - split; [by destruct kept|]. intros Hf. by apply Hempty in Hf. }
  split; [done|]. split; [|done].
  intros Hin. rewrite Forall_forall in H1. by destruct (H1 _ Hin).
Qed.

(** X3 on a text of two lines. *)
Lemma X3_witness :
  Forall collapsedByte (str "two sum")
  ∧ ("010"%char ∉ str "two sum")
  ∧ (str "two sum" = [] ↔ GoStrings.Fields (usecase.nl ++ str "two" ++ usecase.nl ++ str "sum") = []).
Proof.
  apply (X3_summary_is_one_line
           (usecase.nl ++ str "two" ++ usecase.nl ++ str "sum") 10 (str "two sum")).
  reflexivity.
Defined.

(** ** The description that a run sends *)

(** X4.  In a run whose first fetch succeeds, the description sent is the
    fallback text when there is no writer, when the writer fails and when it
    returns an empty text, and it is the writer's text itself when that is
    not empty and within 1900 bytes. *)
Theorem X4_run_description (d : usecase.DailyDigest) (daily : option Problem.t) :
  usecase.GetDailyChallenge (usecase.problems d) = (daily, None) →
  ∃ n, usecase.Run d
       = Some {| usecase.returned := usecase.notifier d n; usecase.sent := [n] |}
    ∧ (usecase.writer d = None →
       Notification.Description n = usecase.fallbackDescription daily)
    ∧ ∀ w text err,
        usecase.writer d = Some w →
        w daily (usecase.fetchRandomProblems d daily) (usecase.fetchArticles d)
        = (text, err) →
        (err ≠ None ∨ text = [] →
         Notification.Description n = usecase.fallbackDescription daily)
        ∧ (err = None → text ≠ [] → len text ≤ 1900 →
           Notification.Description n = text).
Proof.
  intros Hd. destruct (Run_sends d daily Hd) as (insight & n & Hi & _ & Hb & Hrun).
  exists n. split; [done|].
  destruct (buildNotification_spec daily (usecase.fetchRandomProblems d daily)
              (usecase.fetchArticles d) insight) as (n0 & Hn0 & _ & Hdesc & _).
  rewrite Hb in Hn0. injection Hn0 as <-.
  unfold usecase.composeInsight in Hi. split.
  - intros Hw. rewrite Hw in Hi. injection Hi as <-. by rewrite Hdesc.
  - intros w text err Hw Hans. rewrite Hw, Hans in Hi. split.
    + intros [Herr|Htext].
      * destruct err; [|done]. injection Hi as <-. by rewrite Hdesc.
      * subst text. destruct err; [injection Hi as <-; by rewrite Hdesc|].
        rewrite trimForDiscord_within in Hi by (change (len []) with 0; lia).
        injection Hi as <-. by rewrite Hdesc.
    + intros -> Hne Hlen. rewrite trimForDiscord_within in Hi by done.
      injection Hi as <-. rewrite Hdesc. by rewrite decide_True.
Qed.

(** X4 on the run whose writer fails. *)
Lemma X4_witness :
  ∃ n, usecase.Run samples.degraded
       = Some {| usecase.returned := usecase.notifier samples.degraded n;
                 usecase.sent := [n] |}
    ∧ (usecase.writer samples.degraded = None →
       Notification.Description n = usecase.fallbackDescription (Some samples.twoSum))
    ∧ ∀ w text err,
        usecase.writer samples.degraded = Some w →
        w (Some samples.twoSum)
          (usecase.fetchRandomProblems samples.degraded (Some samples.twoSum))
          (usecase.fetchArticles samples.degraded)
        = (text, err) →
        (err ≠ None ∨ text = [] →
         Notification.Description n = usecase.fallbackDescription (Some samples.twoSum))
        ∧ (err = None → text ≠ [] → len text ≤ 1900 →
           Notification.Description n = text).
Proof.
  apply (X4_run_description samples.degraded (Some samples.twoSum)). reflexivity.
Defined.

(** ** More on the composite article provider *)

Section CompositeChain.

Variable ToLower : gostring → gostring.

Local Abbreviation key := (articles.canonicalArticleKey ToLower).
Local Abbreviation addItems := (articles.addItems ToLower).
Local Abbreviation queryProviders := (articles.queryProviders ToLower).
Local Abbreviation chain := (λ ps, articles.Build_CompositeProvider ps).

Lemma queryProviders_full (count : Z) (ps : list articles.ArticleProvider)
    (st : articles.loopState) :
  count ≤ len (articles.results st) → queryProviders count ps st = st.
Proof. intros Hfull. destruct ps; [done|]. cbn. by rewrite decide_True. Qed.

Lemma queryProviders_app (count : Z) (ps1 ps2 : list articles.ArticleProvider)
    (st : articles.loopState) :
  queryProviders count (ps1 ++ ps2) st
  = queryProviders count ps2 (queryProviders count ps1 st).
Proof.
  revert st. induction ps1 as [|p rest IH]; intros st; [done|].
  cbn [app articles.queryProviders]. case_decide as Hfull.
  - by rewrite queryProviders_full.
  - destruct (p _) as [items [e|]]; apply IH.
Qed.

Lemma addItems_results (count : Z) (items : list Article.t)
    (st : articles.loopState) :
  ∃ added, articles.results (addItems count items st)
           = articles.results st ++ added
           ∧ added `sublist_of` items.
Proof.
  revert st. induction items as [|item rest IH]; intros st.
  { exists []. by rewrite app_nil_r. }
  cbn [articles.addItems].
  case_decide; [destruct (IH st) as (added & -> & ?); exists added;
                split; [done|by apply sublist_cons]|].
  case_decide; [destruct (IH st) as (added & -> & ?); exists added;
                split; [done|by apply sublist_cons]|].
  case_decide.
  - exists [item]. split; [done|]. apply sublist_skip, sublist_nil_l.
  - edestruct IH as (added & -> & ?). cbn [articles.results].
    exists (item :: added). split; [by rewrite <- app_assoc|by apply sublist_skip].
Qed.

Lemma queryProviders_results (count : Z) (ps : list articles.ArticleProvider)
    (st : articles.loopState) :
  articles.results st `prefix_of` articles.results (queryProviders count ps st).
Proof.
  revert st. induction ps as [|p rest IH]; intros st; [done|].
  cbn [articles.queryProviders]. case_decide; [done|].
  destruct (p _) as [items [e|]].
  - apply (IH {| articles.results := articles.results st |}).
  - etrans; [|apply IH].
    edestruct (addItems_results count items) as (added & -> & _).
    by apply prefix_app_r.
Qed.

Lemma prefix_len {A} (l k : list A) : l `prefix_of` k → len l ≤ len k.
Proof. intros H%prefix_length. unfold len. lia. Qed.

(** A loop that ends short of [count] has queried every provider. *)
Lemma queryProviders_exhausts (count : Z) (ps : list articles.ArticleProvider)
    (st : articles.loopState) :
  len (articles.results (queryProviders count ps st)) < count →
  length (articles.calls (queryProviders count ps st))
  = (length (articles.calls st) + length ps)%nat.
Proof.
  revert st. induction ps as [|p rest IH]; intros st; [cbn; lia|].
  cbn [articles.queryProviders]. case_decide as Hfull; [lia|].
  destruct (p _) as [items [e|]]; intros Hshort.
  - rewrite IH by done. cbn. rewrite length_app. cbn. lia.
  - rewrite IH by done. rewrite (proj2 (addItems_frame _ _ _ _)).
    cbn. rewrite length_app. cbn. lia.
Qed.

Lemma finalState_results (ps : list articles.ArticleProvider) (count : Z) :
  0 < count →
  (articles.GetRecommendedArticles ToLower (chain ps) count).1
  = articles.results (articles.finalState ToLower (chain ps) count).
Proof. intros Hc. by rewrite GetRecommendedArticles_final. Qed.

(** X5.  Sources added at the end of a chain never take an article away:
    what the shorter chain returns is a prefix of what the longer one
    returns; and when the shorter chain already returns [count] articles,
    the longer one returns the same pair. *)
Theorem X5_composite_chain_extension (ps1 ps2 : list articles.ArticleProvider)
    (count : Z) :
  0 < count →
  (articles.GetRecommendedArticles ToLower (chain ps1) count).1
  `prefix_of` (articles.GetRecommendedArticles ToLower (chain (ps1 ++ ps2)) count).1
  ∧ (len (articles.GetRecommendedArticles ToLower (chain ps1) count).1 = count →
     articles.GetRecommendedArticles ToLower (chain (ps1 ++ ps2)) count
     = articles.GetRecommendedArticles ToLower (chain ps1) count).
Proof.
  intros Hc. rewrite !finalState_results by done.
  unfold articles.finalState. cbn [articles.providers].
  rewrite queryProviders_app. split; [apply queryProviders_results|].
  intros Hfull. rewrite !GetRecommendedArticles_final by done.
  unfold articles.finalState. cbn [articles.providers].
  rewrite queryProviders_app. by rewrite queryProviders_full by lia.
Qed.

(** X6.  A source of the chain is queried exactly when the sources before
    it collected fewer than [count] articles, and it is then asked for
    exactly the missing number. *)
Theorem X6_composite_asks_for_the_deficit (ps1 ps2 : list articles.ArticleProvider)
    (p : articles.ArticleProvider) (count : Z) :
  0 < count →
  let before := (articles.GetRecommendedArticles ToLower (chain ps1) count).1 in
  let calls :=
    articles.calls (articles.finalState ToLower (chain (ps1 ++ p :: ps2)) count) in
  (len before < count →
   calls !! length ps1 = Some (count - len before, p (count - len before)))
  ∧ (count ≤ len before → calls !! length ps1 = None).
Proof.
  intros Hc before calls. unfold before, calls. rewrite finalState_results by done.
  unfold articles.finalState. cbn [articles.providers].
  rewrite queryProviders_app.
  set (st1 := queryProviders count ps1 articles.initialState).
  destruct (queryProviders_calls ToLower count ps1 articles.initialState)
    as (new1 & Hnew1 & Hall1). fold st1 in Hnew1. cbn in Hnew1.
  apply Forall2_length in Hall1. rewrite length_take in Hall1.
  split.
  - intros Hshort.
    pose proof (queryProviders_exhausts count ps1 articles.initialState Hshort)
      as Hlen. fold st1 in Hlen. cbn in Hlen.
    cbn [articles.queryProviders]. rewrite decide_False by lia.
    destruct (p (count - len (articles.results st1))) as [items err] eqn:Hp.
    set (call := (count - len (articles.results st1), (items, err))).
    assert (∀ st, articles.calls st = articles.calls st1 ++ [call] →
                  articles.calls (queryProviders count ps2 st) !! length ps1
                  = Some call) as Hlookup.
    { intros st Hst.
      destruct (queryProviders_calls ToLower count ps2 st) as (new & -> & _).
      rewrite Hst, <- app_assoc. rewrite lookup_app_r by lia.
      by replace (length ps1 - length (articles.calls st1))%nat with 0%nat by lia. }
    destruct err as [e|]; apply Hlookup; [done|].
    by rewrite (proj2 (addItems_frame _ _ _ _)).
  - intros Hfull. rewrite queryProviders_full by done.
    apply lookup_ge_None. rewrite Hnew1. lia.
Qed.

End CompositeChain.

(** X5 on a chain of one feed extended by a second one. *)
Lemma X5_witness :
  (articles.GetRecommendedArticles samples.toLowerASCII
     (articles.Build_CompositeProvider moreSamples.firstFeed) 3).1
  `prefix_of`
  (articles.GetRecommendedArticles samples.toLowerASCII
     (articles.Build_CompositeProvider
        (moreSamples.firstFeed ++ [moreSamples.secondFeed])) 3).1
  ∧ (len (articles.GetRecommendedArticles samples.toLowerASCII
            (articles.Build_CompositeProvider moreSamples.firstFeed) 3).1 = 3 →
     articles.GetRecommendedArticles samples.toLowerASCII
       (articles.Build_CompositeProvider
          (moreSamples.firstFeed ++ [moreSamples.secondFeed])) 3
     = articles.GetRecommendedArticles samples.toLowerASCII
         (articles.Build_CompositeProvider moreSamples.firstFeed) 3).
Proof.
  apply (X5_composite_chain_extension samples.toLowerASCII moreSamples.firstFeed
           [moreSamples.secondFeed] 3).
  lia.
Defined.

(** X6 on the same chain: the second feed is asked for the two articles
    that are missing. *)
Lemma X6_witness :
  let before :=
    (articles.GetRecommendedArticles samples.toLowerASCII
       (articles.Build_CompositeProvider moreSamples.firstFeed) 3).1 in
  let calls :=
    articles.calls
      (articles.finalState samples.toLowerASCII
         (articles.Build_CompositeProvider
            (moreSamples.firstFeed ++ moreSamples.secondFeed :: [])) 3) in
  (len before < 3 →
   calls !! length moreSamples.firstFeed
   = Some (3 - len before, moreSamples.secondFeed (3 - len before)))
  ∧ (3 ≤ len before → calls !! length moreSamples.firstFeed = None).
Proof.
  apply (X6_composite_asks_for_the_deficit samples.toLowerASCII
           moreSamples.firstFeed [] moreSamples.secondFeed 3).
  lia.
Defined.

Section CompositeCoverage.

Variable ToLower : gostring → gostring.

Local Abbreviation key := (articles.canonicalArticleKey ToLower).
Local Abbreviation addItems := (articles.addItems ToLower).
Local Abbreviation queryProviders := (articles.queryProviders ToLower).

Lemma addItems_seen (count : Z) (items : list Article.t) (st : articles.loopState) :
  (∀ k, k ∈ articles.seen st → k ∈ key <$> articles.results st) →
  (∀ k, k ∈ articles.seen (addItems count items st) →
        k ∈ key <$> articles.results (addItems count items st))
  ∧ (len (articles.results (addItems count items st)) < count →
     articles.seen st ⊆ articles.seen (addItems count items st)
     ∧ ∀ a, a ∈ items → key a ≠ [] → key a ∈ articles.seen (addItems count items st)).
Proof.
  revert st. induction items as [|item rest IH]; intros st Hseen.
  { split; [done|]. intros _. split; [done|]. by intros a ?%elem_of_nil. }
  cbn [articles.addItems]. case_decide as Hk.
  { destruct (IH st Hseen) as [IH1 IH2]. split; [done|]. intros Hshort.
    destruct (IH2 Hshort) as [Hsub Hall]. split; [done|].
    intros a [->|Ha]%elem_of_cons Hne; [done|by apply Hall]. }
  case_decide as Hs.
  { destruct (IH st Hseen) as [IH1 IH2]. split; [done|]. intros Hshort.
    destruct (IH2 Hshort) as [Hsub Hall]. split; [done|].
    intros a [->|Ha]%elem_of_cons Hne; [by apply Hsub|by apply Hall]. }
  set (st' := {| articles.results := articles.results st ++ [item];
                 articles.seen := {[key item]} ∪ articles.seen st;
                 articles.firstErr := articles.firstErr st;
                 articles.calls := articles.calls st |}).
  assert (∀ k, k ∈ articles.seen st' → k ∈ key <$> articles.results st') as Hseen'.
  { intros k. cbn. rewrite fmap_app, elem_of_app, elem_of_union, elem_of_singleton.
    intros [->|Hin]; [right; cbn; by apply list_elem_of_singleton|].
    left. by apply Hseen. }
  case_decide as Hfull.
  - split; [done|]. fold st' in Hfull. intros Hshort. lia.
  - destruct (IH st' Hseen') as [IH1 IH2]. split; [done|]. intros Hshort.
    destruct (IH2 Hshort) as [Hsub Hall]. split.
    + etrans; [|exact Hsub]. cbn. set_solver.
    + intros a [->|Ha]%elem_of_cons Hne; [|by apply Hall].
      apply Hsub. cbn. set_solver.
Qed.

Lemma addItems_fromCalls (count : Z) (items : list Article.t)
    (st : articles.loopState) (call : Z * (list Article.t * option error)) :
  fromCalls st → call ∈ articles.calls st → call.2 = (items, None) →
  fromCalls (addItems count items st).
Proof.
  intros Hst Hcall Hitems a Ha.
  destruct (addItems_results ToLower count items st) as (added & Hres & Hsub).
  rewrite Hres in Ha. rewrite (proj2 (addItems_frame _ _ _ _)).
  apply elem_of_app in Ha as [Ha|Ha]; [by apply Hst|].
  exists call. rewrite Hitems. split; [done|]. split; [done|].
  cbn. eapply elem_of_submseteq; [exact Ha|by apply sublist_submseteq].
Qed.

Lemma queryProviders_fromCalls (count : Z) (ps : list articles.ArticleProvider)
    (st : articles.loopState) :
  fromCalls st → fromCalls (queryProviders count ps st).
Proof.
  revert st. induction ps as [|p rest IH]; intros st Hst; [done|].
  cbn [articles.queryProviders]. case_decide; [done|].
  destruct (p _) as [items [e|]].
  - apply IH. intros a Ha. destruct (Hst a Ha) as (call & ? & ? & ?).
    exists call. cbn. split; [apply elem_of_app; by left|done].
  - apply IH. eapply addItems_fromCalls.
    + intros a Ha. destruct (Hst a Ha) as (call & ? & ? & ?).
      exists call. cbn. split; [apply elem_of_app; by left|done].
    + cbn. apply elem_of_app. right. by apply list_elem_of_singleton.
    + done.
Qed.

Lemma queryProviders_covered (count : Z) (ps : list articles.ArticleProvider)
    (st : articles.loopState) :
  covered ToLower st →
  len (articles.results (queryProviders count ps st)) < count →
  covered ToLower (queryProviders count ps st).
Proof.
  revert st. induction ps as [|p rest IH]; intros st Hst; [done|].
  cbn [articles.queryProviders]. case_decide as Hfull; [done|].
  destruct Hst as [Hoffer Hseen].
  destruct (p _) as [items [e|]]; intros Hshort.
  - apply IH; [|done]. split; [|done]. cbn. intros call a Hcall Hok Ha Hne.
    apply elem_of_app in Hcall as [Hcall|Hcall]; [by eapply Hoffer|].
    apply list_elem_of_singleton in Hcall as ->. done.
  - set (st1 := {| articles.results := articles.results st;
                   articles.seen := articles.seen st;
                   articles.firstErr := articles.firstErr st;
                   articles.calls :=
                     articles.calls st
                     ++ [(count - len (articles.results st), (items, None))] |})
      in *.
    destruct (addItems_seen count items st1 Hseen) as [Hseen2 Hadd].
    apply IH; [|done].
    assert (len (articles.results (addItems count items st1)) < count) as Hshort1.
    { pose proof (prefix_len _ _
        (queryProviders_results ToLower count rest (addItems count items st1))).
      lia. }
    destruct (Hadd Hshort1) as [Hsub Hall]. split; [|done].
    rewrite (proj2 (addItems_frame _ _ _ _)). cbn.
    intros call a Hcall Hok Ha Hne.
    apply elem_of_app in Hcall as [Hcall|Hcall].
    + apply Hsub. cbn. by eapply Hoffer.
    + apply list_elem_of_singleton in Hcall as ->. by apply Hall.
Qed.

(** X7.  For a positive count, every article the composite returns was
    offered by a source that answered without error; and when it returns
    fewer than [count] articles, every source was queried and every
    non-empty canonical key offered by a source that answered without error
    is the key of a returned article. *)
Theorem X7_composite_returns_what_was_offered (c : articles.CompositeProvider)
    (count : Z) :
  0 < count →
  let st := articles.finalState ToLower c count in
  let returned := (articles.GetRecommendedArticles ToLower c count).1 in
  (∀ a, a ∈ returned →
        ∃ call, call ∈ articles.calls st ∧ call.2.2 = None ∧ a ∈ call.2.1)
  ∧ (len returned < count →
     length (articles.calls st) = length (articles.providers c)
     ∧ ∀ call a, call ∈ articles.calls st → call.2.2 = None → a ∈ call.2.1 →
                 key a ≠ [] → key a ∈ key <$> returned).
Proof.
  intros Hc st returned. unfold returned.
  rewrite GetRecommendedArticles_final by done. fold st. cbn [fst].
  split.
  - apply (queryProviders_fromCalls count (articles.providers c)
             articles.initialState).
    by intros a ?%elem_of_nil.
  - intros Hshort. split.
    + apply (queryProviders_exhausts ToLower count (articles.providers c)
               articles.initialState Hshort).
    + destruct (queryProviders_covered count (articles.providers c)
                  articles.initialState) as [Hoffer Hseen]; [|done|].
      { split; [by intros call a ?%elem_of_nil|by intros k ?%not_elem_of_empty]. }
      intros call a Hcall Hok Ha Hne. apply Hseen. by eapply Hoffer.
Qed.

End CompositeCoverage.

(** X7 on the chain of two feeds. *)
Lemma X7_witness :
  let st := articles.finalState samples.toLowerASCII samples.twoFeeds 3 in
  let returned :=
    (articles.GetRecommendedArticles samples.toLowerASCII samples.twoFeeds 3).1 in
  (∀ a, a ∈ returned →
        ∃ call, call ∈ articles.calls st ∧ call.2.2 = None ∧ a ∈ call.2.1)
  ∧ (len returned < 3 →
     length (articles.calls st) = length (articles.providers samples.twoFeeds)
     ∧ ∀ call a, call ∈ articles.calls st → call.2.2 = None → a ∈ call.2.1 →
                 articles.canonicalArticleKey samples.toLowerASCII a ≠ [] →
                 articles.canonicalArticleKey samples.toLowerASCII a
                 ∈ articles.canonicalArticleKey samples.toLowerASCII <$> returned).
Proof.
  apply (X7_composite_returns_what_was_offered samples.toLowerASCII
           samples.twoFeeds 3).
  lia.
Defined.

(** ** The Medium provider: which error it returns *)

Section MediumErrors.

Variable ToLower : gostring → gostring.

(** X8.  For a positive count: when both feeds fail the Medium provider
    returns the error of the proxy feed; when the primary feed fails and the
    proxy feed answers with no article it returns the error of the primary
    feed; when both answer with no article it reports that no article is
    available; and when articles were fetched but none has a non-empty link
    key it reports that none is usable.  In each case no article is
    returned. *)
Theorem X8_medium_error_precedence (m : articles.MediumProvider) (count : Z) :
  0 < count →
  let out := articles.Medium_GetRecommendedArticles ToLower m count in
  (∀ l1 l2 e1 e2,
     articles.fetchPrimary m = (l1, Some e1) →
     articles.fetchProxy m = (l2, Some e2) →
     out.1 = ([], Some e2))
  ∧ (∀ l1 e1,
       articles.fetchPrimary m = (l1, Some e1) →
       articles.fetchProxy m = ([], None) →
       out.1 = ([], Some e1))
  ∧ (articles.fetchPrimary m = ([], None) →
     articles.fetchProxy m = ([], None) →
     out.1 = ([], Some (str "no medium articles available")))
  ∧ (∀ merged lastErr fs,
       articles.gather m count = (merged, lastErr, fs) →
       merged ≠ [] → distinctLinks ToLower merged = 0 →
       out.1 = ([], Some (str "medium feed returned no usable articles"))).
Proof.
  intros Hc out. unfold out, articles.Medium_GetRecommendedArticles.
  rewrite decide_False by lia.
  split; [|split; [|split]].
  - intros l1 l2 e1 e2 H1 H2. unfold articles.gather. rewrite H1, H2.
    change (len []) with 0. rewrite decide_True by lia. by rewrite decide_True.
  - intros l1 e1 H1 H2. unfold articles.gather. rewrite H1, H2.
    change (len []) with 0. rewrite decide_True by lia. by rewrite decide_True.
  - intros H1 H2. unfold articles.gather. rewrite H1, H2.
    change (len []) with 0. rewrite decide_True by lia. by rewrite decide_True.
  - intros merged lastErr fs Hg Hne Hzero. rewrite Hg.
    rewrite decide_False
      by (destruct merged; [done|rewrite len_cons; pose proof (len_nonneg merged); lia]).
    destruct (uniqueArticles_spec ToLower m merged) as (_ & _ & Hlen).
    by rewrite decide_True by lia.
Qed.

End MediumErrors.

(** X8 on a provider whose two feeds are down. *)
Lemma X8_witness :
  (articles.Medium_GetRecommendedArticles samples.toLowerASCII
     moreSamples.mediumDown 2).1
  = ([], Some (str "fetch medium proxy feed")).
Proof.
  assert (0 < 2) as Hcount by lia.
  destruct (X8_medium_error_precedence samples.toLowerASCII moreSamples.mediumDown
              2 Hcount) as [Hboth _].
  apply (Hboth [] [] (str "fetch medium feed") (str "fetch medium proxy feed"));
    reflexivity.
Defined.

(** ** The helpers of the Medium feeds *)

Lemma HasPrefix_nil (s : gostring) : GoStringsMore.HasPrefix s [] = true.
Proof. by destruct s. Qed.

Lemma Index_byte (s : gostring) (c : ascii) :
  (GoStringsMore.Index s [c] = -1 ∧ c ∉ s)
  ∨ (0 ≤ GoStringsMore.Index s [c]
     ∧ c ∉ take (Z.to_nat (GoStringsMore.Index s [c])) s).
Proof.
  induction s as [|x t IH].
  { left. split; [done|]. by intros ?%elem_of_nil. }
  cbn [GoStringsMore.Index GoStringsMore.HasPrefix].
  destruct (decide (c = x)) as [->|Hne].
  { right. rewrite HasPrefix_nil. split; [done|]. cbn. by intros ?%elem_of_nil. }
  destruct IH as [[-> Hnot]|[Hpos Hnot]].
  - left. rewrite decide_False by lia. split; [done|].
    by intros [?|?]%elem_of_cons.
  - right. rewrite decide_True by done. split; [lia|].
    replace (Z.to_nat (GoStringsMore.Index t [c] + 1))
      with (S (Z.to_nat (GoStringsMore.Index t [c]))) by lia.
    cbn [take firstn]. by intros [?|?]%elem_of_cons.
Qed.

Lemma normalizeMediumLink_no_query (link : gostring) :
  "?"%char ∉ medium.normalizeMediumLink link.
Proof.
  unfold medium.normalizeMediumLink. case_decide; [by intros ?%elem_of_nil|].
  set (l := GoStringsMore.TrimSuffix _ _).
  destruct (Index_byte l "?"%char) as [[Hidx Hnot]|[Hpos Hnot]].
  - change (str "?") with ["?"%char]. rewrite Hidx.
    by rewrite decide_False by (intros Hx; by apply Hx).
  - change (str "?") with ["?"%char]. by rewrite decide_True by lia.
Qed.

Lemma primaryArticles_spec (items : list medium.feedItem) (articles : list Article.t) :
  ∃ added,
    medium.primaryArticles items articles = articles ++ added
    ∧ (length added ≤ length items)%nat
    ∧ Forall (λ a, Article.Title a ≠ [] ∧ Article.Link a ≠ []
                   ∧ ("?"%char ∉ Article.Link a)
                   ∧ Article.Source a = str "Medium") added.
Proof.
  revert articles. induction items as [|item rest IH]; intros articles.
  { exists []. split; [by rewrite app_nil_r|]. split; [done|constructor]. }
  cbn [medium.primaryArticles]. case_decide as Hskip.
  - destruct (IH articles) as (added & -> & Hlen & Hall).
    exists added. split; [done|]. split; [cbn; lia|done].
  - edestruct IH as (added & -> & Hlen & Hall).
    eexists (_ :: added). split; [by rewrite <- app_assoc|].
    split; [cbn; lia|]. constructor; [|done]. cbn.
    split; [tauto|]. split; [tauto|]. split; [|done].
    apply normalizeMediumLink_no_query.
Qed.

(** X9.  Once the primary feed is decoded, [fetchPrimary] succeeds exactly
    when it has an article to return and fails with "medium primary feed
    empty" otherwise; it returns at most one article per item, each with a
    non-empty title, a non-empty link free of any query string, and the
    source "Medium". *)
Theorem X9_primary_feed_articles (items : list medium.feedItem) :
  let out := medium.fetchPrimaryFrom items in
  (out.2 = None ↔ out.1 ≠ [])
  ∧ (out.2 = None ∨ out.2 = Some (str "medium primary feed empty"))
  ∧ len out.1 ≤ len items
  ∧ Forall (λ a, Article.Title a ≠ [] ∧ Article.Link a ≠ []
                 ∧ ("?"%char ∉ Article.Link a)
                 ∧ Article.Source a = str "Medium") out.1.
Proof.
  intros out. unfold out, medium.fetchPrimaryFrom.
  destruct (primaryArticles_spec items []) as (added & -> & Hlen & Hall).
  cbn [app]. pose proof (len_nonneg items). case_decide as Hempty; cbn [fst snd].
  - split; [split; [done|by intros []]|]. split; [by right|].
    split; [change (len []) with 0; lia|constructor].
  - split; [split; [|done]|].
    { intros _ ->. by apply Hempty. }
    split; [by left|]. split; [unfold len; lia|done].
Qed.

Lemma firstMediumURL_spec (tokens : list gostring) (candidate : gostring) :
  medium.firstMediumURL tokens candidate = candidate
  ∨ ∃ token, token ∈ tokens ∧ mediumPost token
             ∧ medium.firstMediumURL tokens candidate
               = medium.normalizeMediumLink token.
Proof.
  revert candidate. induction tokens as [|token rest IH]; intros candidate.
  { by left. }
  assert (∀ c, medium.firstMediumURL rest c = c
               ∨ ∃ t, t ∈ token :: rest ∧ mediumPost t
                      ∧ medium.firstMediumURL rest c = medium.normalizeMediumLink t)
    as IH'.
  { intros c. destruct (IH c) as [?|(t & ? & ? & ?)]; [by left|].
    right. exists t. split; [by apply elem_of_cons; right|done]. }
  cbn [medium.firstMediumURL].
  destruct (GoStringsMore.HasPrefix token _) eqn:Hp; [|apply IH'].
  destruct (GoStringsMore.Contains (medium.normalizeMediumLink token) _) eqn:Ht;
    [apply IH'|].
  assert (token ∈ token :: rest ∧ mediumPost token) as [Hin Hpost].
  { split; [by apply elem_of_cons; left|by split]. }
  case_decide; [|apply IH'].
  destruct (GoStringsMore.Contains token _); [right; by exists token|].
  destruct (IH' (medium.normalizeMediumLink token)) as [->|?];
    right; [by exists token|done].
Qed.

Lemma firstMediumURL_tracked (pre post : list gostring) (token candidate : gostring) :
  mediumPost token → tracked token →
  Forall (λ t, ¬ (mediumPost t ∧ tracked t)) pre →
  medium.firstMediumURL (pre ++ token :: post) candidate
  = medium.normalizeMediumLink token.
Proof.
  intros [Hp Ht] Hs Hpre. revert candidate.
  induction Hpre as [|t pre Hnot _ IH]; intros candidate.
  - cbn [app medium.firstMediumURL]. rewrite Hp, Ht.
    unfold tracked in Hs. rewrite Hs. by rewrite decide_True by (by right).
  - cbn [app medium.firstMediumURL].
    destruct (GoStringsMore.HasPrefix t _) eqn:Hp'; [|apply IH].
    destruct (GoStringsMore.Contains (medium.normalizeMediumLink t) _) eqn:Ht';
      [apply IH|].
    destruct (GoStringsMore.Contains t (str "?source=")) eqn:Hs'.
    { destruct Hnot. by split. }
    case_decide; apply IH.
Qed.

(** X10.  The link that [extractFirstMediumURL] takes from a block is empty
    or the normalised form of one of its white-space separated tokens that
    starts with "https://medium.com/" and is not a tag page; it never
    holds a query string; and when such a token carries "?source=", the
    first one that does is the one taken. *)
Theorem X10_extracted_medium_link (block : gostring) :
  let url := medium.extractFirstMediumURL block in
  (url = []
   ∨ ∃ token, token ∈ GoStrings.Fields block ∧ mediumPost token
              ∧ url = medium.normalizeMediumLink token)
  ∧ ("?"%char ∉ url)
  ∧ ∀ pre token post,
      GoStrings.Fields block = pre ++ token :: post →
      mediumPost token → tracked token →
      Forall (λ t, ¬ (mediumPost t ∧ tracked t)) pre →
      url = medium.normalizeMediumLink token.
Proof.
  intros url. unfold url, medium.extractFirstMediumURL.
  pose proof (firstMediumURL_spec (GoStrings.Fields block) []) as Hspec.
  split; [exact Hspec|]. split.
  - destruct Hspec as [->|(token & _ & _ & ->)]; [by intros ?%elem_of_nil|].
    apply normalizeMediumLink_no_query.
  - intros pre token post -> Hp Hs Hpre. by apply firstMediumURL_tracked.
Qed.

(** X10 on a block whose first Medium link is a tag page and whose second
    one is tracked. *)
Lemma X10_witness :
  medium.extractFirstMediumURL moreSamples.mediumBlock
  = medium.normalizeMediumLink (str "https://medium.com/@a/binary-search?source=rss").
Proof.
  destruct (X10_extracted_medium_link moreSamples.mediumBlock) as (_ & _ & Hfirst).
  apply (Hfirst [str "Read"; str "https://medium.com/tag/algorithms"; str "and"]
           (str "https://medium.com/@a/binary-search?source=rss") [str "today"]).
  - reflexivity.
  - split; reflexivity.
  - reflexivity.
  - repeat constructor; intros [_ Htracked]; vm_compute in Htracked;
      discriminate Htracked.
Defined.

(** ** More on the insight composer *)

(** X11.  [Compose] never panics; the text it returns is within 2000 bytes
    and is empty whenever it returns an error; it reports a missing
    configuration when the key or the model is empty, and otherwise returns
    the error of the backend as it is, whatever the status. *)
Theorem X11_compose_outcome (g : writing.GeminiWriter) :
  ∃ t err,
    writing.Compose g = Some (t, err)
    ∧ len t ≤ 2000
    ∧ (err ≠ None → t = [])
    ∧ (writing.apiKey g = [] ∨ writing.model g = [] →
       err = Some (str "gemini writer not configured"))
    ∧ ∀ text status e,
        writing.apiKey g ≠ [] → writing.model g ≠ [] →
        writing.generate g (writing.model g) = (text, status, Some e) →
        err = Some e.
Proof.
  unfold writing.Compose. case_decide as Hcfg.
  { exists [], (Some (str "gemini writer not configured")).
    split; [done|]. split; [done|]. split; [done|]. split; [done|].
    intros text status e Hk Hm. tauto. }
  cbn [writing.tryModels].
  destruct (writing.generate g (writing.model g)) as [[text status] [e|]].
  - exists [], (Some e). split; [by case_decide|].
    split; [done|]. split; [done|]. split; [tauto|].
    by intros ? ? ? _ _ [= _ _ ->].
  - destruct (trimText_spec text writing.maxDiscordDescription)
      as (r & -> & Hr & _); [unfold writing.maxDiscordDescription; lia|].
    exists r, None. split; [done|]. split; [done|]. split; [done|].
    split; [tauto|]. by intros ? ? ? _ _ [=].
Qed.

(** X11 on a writer whose model is unknown to the backend. *)
Lemma X11_witness :
  ∃ t err,
    writing.Compose moreSamples.fallbackWriter = Some (t, err)
    ∧ len t ≤ 2000
    ∧ err = Some (str "gemini writer status 404: model not found").
Proof.
  destruct (X11_compose_outcome moreSamples.fallbackWriter)
    as (t & err & Hc & Hlen & _ & _ & Herr).
  exists t, err. split; [exact Hc|]. split; [exact Hlen|].
  apply (Herr [] 404); [discriminate|discriminate|reflexivity].
Defined.

Lemma tryModels_skips (g : writing.GeminiWriter) (tried rest : list gostring)
    (lastErr : option error) :
  Forall (retryable g) tried →
  tried ≠ [] ∨ rest ≠ [] →
  ∃ lastErr', writing.tryModels g (tried ++ rest) lastErr
              = writing.tryModels g rest lastErr'
              ∧ (tried = [] → lastErr' = lastErr)
              ∧ ∀ pre m, tried = pre ++ [m] →
                         ∃ text status, writing.generate g m
                                        = (text, status, lastErr').
Proof.
  intros Hall. revert lastErr.
  induction Hall as [|m tried (text & status & e & Hm & Hs) _ IH]; intros lastErr Hne.
  { exists lastErr. split; [done|]. split; [done|]. by intros [|] ? ?. }
  cbn [app writing.tryModels]. rewrite Hm. rewrite decide_True by done.
  destruct tried as [|m' tried'].
  - exists (Some e). split; [done|]. split; [done|].
    intros pre m0 Hpre. destruct pre as [|? [|]]; [|done..].
    injection Hpre as ->. eauto.
  - destruct (IH (Some e)) as (lastErr' & -> & _ & Hlast); [by left|].
    exists lastErr'. split; [done|]. split; [done|].
    intros pre m0 Hpre. destruct pre as [|p pre']; [done|].
    injection Hpre as -> Hpre. by apply (Hlast pre').
Qed.

(** X12.  The loop of [Compose] over the models to try passes over every
    model that fails with status 404 or 429.  It stops at the first model
    that answers, whose text it trims to the budget, or at the first model
    that fails with another status, whose error it returns without trying
    the models after it; when every model fails with 404 or 429 it returns
    the error of the last one. *)
Theorem X12_model_fallback (g : writing.GeminiWriter) (tried rest : list gostring)
    (m : gostring) (lastErr : option error) :
  Forall (retryable g) tried →
  (∀ text status,
     writing.generate g m = (text, status, None) →
     writing.tryModels g (tried ++ m :: rest) lastErr
     = (t ← writing.trimText text writing.maxDiscordDescription; Some (t, None)))
  ∧ (∀ text status e,
       writing.generate g m = (text, status, Some e) →
       status ≠ writing.StatusNotFound →
       status ≠ writing.StatusTooManyRequests →
       writing.tryModels g (tried ++ m :: rest) lastErr = Some ([], Some e))
  ∧ (∀ text status e,
       writing.generate g m = (text, status, Some e) →
       status = writing.StatusNotFound ∨ status = writing.StatusTooManyRequests →
       writing.tryModels g (tried ++ [m]) lastErr = Some ([], Some e)).
Proof.
  intros Hall. split; [|split].
  - intros text status Hm.
    destruct (tryModels_skips g tried (m :: rest) lastErr Hall)
      as (lastErr' & -> & _); [by right|].
    cbn [writing.tryModels]. by rewrite Hm.
  - intros text status e Hm H404 H429.
    destruct (tryModels_skips g tried (m :: rest) lastErr Hall)
      as (lastErr' & -> & _); [by right|].
    cbn [writing.tryModels]. rewrite Hm. by rewrite decide_False by tauto.
  - intros text status e Hm Hs.
    destruct (tryModels_skips g tried [m] lastErr Hall)
      as (lastErr' & -> & _); [by right|].
    cbn [writing.tryModels]. rewrite Hm. by rewrite decide_True.
Qed.

(** X12 on a writer whose configured model is unknown: the next model
    answers. *)
Lemma X12_witness :
  writing.tryModels moreSamples.fallbackWriter
    ([str "gemini-2.5-flash"] ++ str "gemini-2.0-flash" :: []) None
  = (t ← writing.trimText (str "Focus on hash maps.") writing.maxDiscordDescription;
     Some (t, None)).
Proof.
  destruct (X12_model_fallback moreSamples.fallbackWriter [str "gemini-2.5-flash"]
              [] (str "gemini-2.0-flash") None) as [Hok _].
  - apply Forall_singleton.
    exists [], 404, (str "gemini writer status 404: model not found").
    split; [reflexivity|left; reflexivity].
  - apply (Hok (str "Focus on hash maps.") 200). reflexivity.
Defined.

(** ** The exchange with the backend *)

Lemma firstTrimmedText_spec (parts : list gostring) :
  (geminiwriter.firstTrimmedText parts = [] ∧ Forall blank parts)
  ∨ ∃ pre text post,
      parts = pre ++ text :: post ∧ Forall blank pre ∧ ¬ blank text
      ∧ geminiwriter.firstTrimmedText parts = GoStrings.TrimSpace text.
Proof.
  induction parts as [|text rest IH]; [left; by split|].
  cbn [geminiwriter.firstTrimmedText]. case_decide as Hb.
  - right. by exists [], text, rest.
  - destruct IH as [[-> Hall]|(pre & t & post & -> & ? & ? & ->)].
    + left. split; [done|by constructor].
    + right. exists (text :: pre), t, post. split; [done|]. split; [by constructor|done].
Qed.

Lemma firstText_spec (parts : list gostring) :
  (gemini.firstText parts = [] ∧ Forall blank parts)
  ∨ ∃ pre text post,
      parts = pre ++ text :: post ∧ Forall blank pre ∧ ¬ blank text
      ∧ gemini.firstText parts = text.
Proof.
  induction parts as [|text rest IH]; [left; by split|].
  cbn [gemini.firstText]. case_decide as Hb.
  - right. by exists [], text, rest.
  - destruct IH as [[-> Hall]|(pre & t & post & -> & ? & ? & ->)].
    + left. split; [done|by constructor].
    + right. exists (text :: pre), t, post. split; [done|]. split; [by constructor|done].
Qed.

(** X13.  Both extractors of the candidate text pass over the parts that
    hold nothing but white space and stop at the first other part: the
    writer's returns that part trimmed, the provider's returns it as it is;
    each returns the empty string exactly when every part is blank. *)
Theorem X13_first_text_of_candidates (candidates : list geminiwriter.candidate)
    (parts : list (list gostring)) :
  let writerParts := concat (geminiwriter.Parts <$> candidates) in
  (geminiwriter.extractCandidateText candidates = [] ↔ Forall blank writerParts)
  ∧ (∀ pre text post,
       writerParts = pre ++ text :: post → Forall blank pre → ¬ blank text →
       geminiwriter.extractCandidateText candidates = GoStrings.TrimSpace text)
  ∧ (gemini.extractFirstText parts = [] ↔ Forall blank (concat parts))
  ∧ (∀ pre text post,
       concat parts = pre ++ text :: post → Forall blank pre → ¬ blank text →
       gemini.extractFirstText parts = text).
Proof.
  intros writerParts.
  assert (∀ (l pre pre' post post' : list gostring) (t t' : gostring),
            l = pre ++ t :: post → l = pre' ++ t' :: post' →
            Forall blank pre → ¬ blank t → Forall blank pre' → ¬ blank t' →
            t = t') as Hfirst.
  { intros l pre. revert l. induction pre as [|p pre IH];
      intros l pre' post post' t t' -> Heq Hpre Ht Hpre' Ht'.
    - destruct pre' as [|p' pre'']; [by injection Heq|].
      injection Heq as -> _. by apply Forall_cons in Hpre' as [? _].
    - destruct pre' as [|p' pre''].
      + injection Heq as <- _. by apply Forall_cons in Hpre as [? _].
      + injection Heq as -> Heq. apply Forall_cons in Hpre as [_ Hpre].
        apply Forall_cons in Hpre' as [_ Hpre'].
        by eapply (IH _ pre'' post post' t t' eq_refl). }
  unfold geminiwriter.extractCandidateText, gemini.extractFirstText.
  fold writerParts. split; [|split; [|split]].
  - destruct (firstTrimmedText_spec writerParts)
      as [[-> Hall]|(pre & t & post & Heq & Hpre & Ht & ->)]; [done|].
    split; [done|]. intros Hall. rewrite Heq in Hall.
    apply Forall_app in Hall as [_ [Hb _]%Forall_cons]. done.
  - intros pre text post Heq Hpre Ht.
    destruct (firstTrimmedText_spec writerParts)
      as [[_ Hall]|(pre' & t & post' & Heq' & Hpre' & Ht' & ->)].
    + rewrite Heq in Hall. apply Forall_app in Hall as [_ [Hb _]%Forall_cons]. done.
    + f_equal. by eapply (Hfirst writerParts pre' pre post' post).
  - destruct (firstText_spec (concat parts))
      as [[-> Hall]|(pre & t & post & Heq & Hpre & Ht & ->)]; [done|].
    split.
    + intros ->. by destruct Ht.
    + intros Hall. rewrite Heq in Hall.
      apply Forall_app in Hall as [_ [Hb _]%Forall_cons]. done.
  - intros pre text post Heq Hpre Ht.
    destruct (firstText_spec (concat parts))
      as [[_ Hall]|(pre' & t & post' & Heq' & Hpre' & Ht' & ->)].
    + rewrite Heq in Hall. apply Forall_app in Hall as [_ [Hb _]%Forall_cons]. done.
    + by eapply (Hfirst (concat parts) pre' pre post' post).
Qed.

(** X13 on an answer whose first part is blank. *)
Lemma X13_witness :
  geminiwriter.extractCandidateText
    [ {| geminiwriter.Parts := [str " "; str " Focus on hash maps. "];
         geminiwriter.FinishReason := str "STOP" |} ]
  = GoStrings.TrimSpace (str " Focus on hash maps. ")
  ∧ gemini.extractFirstText [[str " "; str " Focus on hash maps. "]]
    = str " Focus on hash maps. ".
Proof.
  destruct (X13_first_text_of_candidates
              [ {| geminiwriter.Parts := [str " "; str " Focus on hash maps. "];
                   geminiwriter.FinishReason := str "STOP" |} ]
              [[str " "; str " Focus on hash maps. "]]) as (_ & Hwriter & _ & Hprovider).
  split.
  - apply (Hwriter [str " "] (str " Focus on hash maps. ") []).
    + reflexivity.
    + apply Forall_singleton. reflexivity.
    + intros Hblank. vm_compute in Hblank. discriminate Hblank.
  - apply (Hprovider [str " "] (str " Focus on hash maps. ") []).
    + reflexivity.
    + apply Forall_singleton. reflexivity.
    + intros Hblank. vm_compute in Hblank. discriminate Hblank.
Defined.

Lemma generate_spec (x : geminiwriter.exchange) :
  let out := geminiwriter.generate x in
  (out.2 = None →
   200 ≤ out.1.2 < 300 ∧ out.1.1 ≠ []
   ∧ ∃ body candidates,
       x = geminiwriter.Answered out.1.2 body (candidates, None)
       ∧ out.1.1 = geminiwriter.extractCandidateText candidates)
  ∧ (out.2 ≠ None → out.1.1 = []).
Proof.
  intros out. unfold out. split.
  - destruct x as [e|e|status e|status body [candidates [e|]]]; cbn; try done.
    + by case_decide.
    + case_decide; [done|]. case_decide as Htext; [by case_decide|].
      cbn. intros _. split; [lia|]. split; [done|]. eauto.
  - destruct x as [e|e|status e|status body [candidates [e|]]]; cbn; try done.
    + by case_decide.
    + case_decide; [done|]. case_decide; [by case_decide|]. by cbn.
Qed.

(** X14.  [generate] succeeds only on an answer with a 2xx status whose
    candidates hold a part that is not blank, and then returns that part
    trimmed, which is not empty; whenever it fails it returns no text.  On a
    2xx answer without text it reports the token limit exactly when the
    first candidate's finish reason is MAX_TOKENS. *)
Theorem X14_generate_outcome (x : geminiwriter.exchange) :
  let out := geminiwriter.generate x in
  (out.2 = None →
   200 ≤ out.1.2 < 300 ∧ out.1.1 ≠ []
   ∧ ∃ body candidates,
       x = geminiwriter.Answered out.1.2 body (candidates, None)
       ∧ out.1.1 = geminiwriter.extractCandidateText candidates)
  ∧ (out.2 ≠ None → out.1.1 = [])
  ∧ ∀ status body candidates,
      x = geminiwriter.Answered status body (candidates, None) →
      200 ≤ status < 300 →
      geminiwriter.extractCandidateText candidates = [] →
      (out.2 = Some tokenLimitMessage
       ↔ geminiwriter.FinishReason <$> head candidates = Some (str "MAX_TOKENS")).
Proof.
  intros out. destruct (generate_spec x) as [Hok Hfail].
  split; [exact Hok|]. split; [exact Hfail|]. unfold out.
  intros status body candidates -> Hs Htext. cbn.
  rewrite decide_False by lia. rewrite Htext, decide_True by done.
  case_decide as Hmax; cbn.
  - split; [by intros _; destruct Hmax|done].
  - split; [|intros Hfin].
    + unfold tokenLimitMessage. intros [=].
    + destruct Hmax. split; [|done].
      destruct candidates; [done|]. rewrite len_cons.
      pose proof (len_nonneg candidates). lia.
Qed.

(** X14 on an answer that stopped at the token limit without a part. *)
Lemma X14_witness :
  (geminiwriter.generate moreSamples.cutShort).2 = Some tokenLimitMessage.
Proof.
  destruct (X14_generate_outcome moreSamples.cutShort) as (_ & _ & Hlimit).
  apply (Hlimit 200 (str "{}")
           [ {| geminiwriter.Parts := [];
                geminiwriter.FinishReason := str "MAX_TOKENS" |} ]).
  - reflexivity.
  - lia.
  - reflexivity.
  - reflexivity.
Defined.

(** X15.  A configured writer over this [generate] never panics and returns
    the error of [generate] as it is; when there is none, the narrative it
    returns is not empty and within 2000 bytes. *)
Theorem X15_compose_over_backend (apiKey model : gostring)
    (x : geminiwriter.exchange) :
  apiKey ≠ [] → model ≠ [] →
  ∃ t, writing.Compose (geminiwriter.writerOver apiKey model x)
       = Some (t, (geminiwriter.generate x).2)
    ∧ len t ≤ 2000
    ∧ ((geminiwriter.generate x).2 = None → t ≠ [])
    ∧ ((geminiwriter.generate x).2 ≠ None → t = []).
Proof.
  intros Hkey Hmodel. unfold writing.Compose.
  change (writing.apiKey (geminiwriter.writerOver apiKey model x)) with apiKey.
  change (writing.model (geminiwriter.writerOver apiKey model x)) with model.
  rewrite decide_False by tauto. cbn [writing.tryModels].
  change (writing.generate (geminiwriter.writerOver apiKey model x) model)
    with (geminiwriter.generate x).
  destruct (generate_spec x) as (Hok & _).
  destruct (geminiwriter.generate x) as [[text status] [e|]]; cbn [fst snd] in *.
  - exists []. split; [by case_decide|]. split; [done|]. split; [done|done].
  - destruct (Hok eq_refl) as (_ & Hne & _).
    destruct (trimText_spec text writing.maxDiscordDescription)
      as (r & -> & Hr & Hsame & Hcut); [unfold writing.maxDiscordDescription; lia|].
    exists r. split; [done|]. split; [done|]. split; [|done]. intros _.
    destruct (decide (len text ≤ writing.maxDiscordDescription)) as [Hle|Hgt].
    + by rewrite Hsame.
    + rewrite Hcut by lia. by destruct (GoStrings.TrimSpace _).
Qed.

(** X15 on an answer whose first part is blank. *)
Lemma X15_witness :
  ∃ t, writing.Compose
         (geminiwriter.writerOver (str "key") (str "gemini-2.5-flash")
            moreSamples.answered)
       = Some (t, (geminiwriter.generate moreSamples.answered).2)
    ∧ len t ≤ 2000
    ∧ ((geminiwriter.generate moreSamples.answered).2 = None → t ≠ [])
    ∧ ((geminiwriter.generate moreSamples.answered).2 ≠ None → t = []).
Proof.
  apply (X15_compose_over_backend (str "key") (str "gemini-2.5-flash")
           moreSamples.answered); discriminate.
Defined.

(** ** The sample of random problems *)

Lemma collectCandidates_filter (pairs : list leetcode.statStatusPair)
    (candidates : list Problem.t) :
  leetcode.collectCandidates pairs candidates
  = candidates ++ (leetcode.toProblem <$> eligible pairs).
Proof.
  revert candidates. induction pairs as [|item rest IH]; intros candidates.
  { by rewrite app_nil_r. }
  cbn [leetcode.collectCandidates]. unfold eligible in *. case_decide as Hskip.
  - rewrite filter_cons_False; [apply IH|].
    intros [Hfree Hslug]. destruct Hskip; [congruence|done].
  - rewrite filter_cons_True.
    + rewrite IH. cbn [fmap list_fmap]. by rewrite <- app_assoc.
    + split; [destruct (leetcode.PaidOnly item); tauto|tauto].
Qed.

Lemma take_Shuffle_sample {A} (draw : nat → nat) (l : list A) (n : nat) :
  take n (Shuffle draw l) ⊆+ l
  ∧ length (take n (Shuffle draw l)) = (n `min` length l)%nat.
Proof.
  split.
  - etrans; [apply submseteq_take|]. by rewrite Shuffle_Permutation.
  - by rewrite length_take, length_Shuffle.
Qed.

Lemma sample_NoDup {A B} (f : A → B) (draw : nat → nat) (l : list A) (n : nat) :
  NoDup (f <$> l) → NoDup (f <$> take n (Shuffle draw l)).
Proof.
  intros Hnd. rewrite fmap_take. eapply sublist_NoDup; [|apply sublist_take].
  by rewrite Shuffle_Permutation.
Qed.

(** X16.  When the problemset is fetched, the random fetch for a positive
    count fails exactly when no entry is eligible, with "no problems
    available"; otherwise it returns as many problems as the smaller of the
    count and the number of eligible entries, drawn without replacement from
    their conversions; so distinct slugs in the problemset give distinct
    slugs in the result. *)
Theorem X16_random_problems_sample (c : leetcode.Client) (count : Z)
    (pairs : list leetcode.statStatusPair) :
  0 < count →
  leetcode.problemset c = (pairs, None) →
  let out := leetcode.GetRandomProblems c count in
  let candidates := leetcode.toProblem <$> eligible pairs in
  (out.2 = None ↔ candidates ≠ [])
  ∧ (out.2 = None ∨ out.2 = Some (str "no problems available"))
  ∧ len out.1 = Z.min count (len candidates)
  ∧ out.1 ⊆+ candidates
  ∧ (NoDup (leetcode.QuestionTitleSlug <$> eligible pairs) →
     NoDup (Problem.Slug <$> out.1)).
Proof.
  intros Hc Hset out candidates. unfold out, leetcode.GetRandomProblems.
  rewrite decide_False by lia. rewrite Hset, collectCandidates_filter.
  cbn [app]. fold candidates. pose proof (len_nonneg candidates) as Hpos.
  case_decide as Hempty; cbn [fst snd].
  - assert (candidates = []) as -> by (destruct candidates; [done|];
      rewrite len_cons in Hempty; pose proof (len_nonneg candidates); lia).
    split; [done|]. split; [by right|]. split; [change (len []) with 0; lia|].
    split; [done|]. intros _. apply NoDup_nil_2.
  - set (n := if decide (len candidates < count) then len candidates else count).
    destruct (take_Shuffle_sample (leetcode.draw c) candidates (Z.to_nat n))
      as [Hsub Hlen].
    split; [split; [by intros _ Hnil; rewrite Hnil in Hempty|done]|].
    split; [by left|]. split.
    { unfold len at 1. rewrite Hlen. unfold n, len. case_decide; lia. }
    split; [done|]. intros Hnd. apply sample_NoDup.
    unfold candidates. rewrite <- list_fmap_compose. exact Hnd.
Qed.

(** X16 on a problemset of one free problem, one paid problem and one
    without a slug. *)
Lemma X16_witness :
  let out := leetcode.GetRandomProblems samples.problemsetClient 2 in
  let candidates :=
    leetcode.toProblem
    <$> eligible (leetcode.problemset samples.problemsetClient).1 in
  (out.2 = None ↔ candidates ≠ [])
  ∧ (out.2 = None ∨ out.2 = Some (str "no problems available"))
  ∧ len out.1 = Z.min 2 (len candidates)
  ∧ out.1 ⊆+ candidates
  ∧ (NoDup (leetcode.QuestionTitleSlug
            <$> eligible (leetcode.problemset samples.problemsetClient).1) →
     NoDup (Problem.Slug <$> out.1)).
Proof.
  apply (X16_random_problems_sample samples.problemsetClient 2
           (leetcode.problemset samples.problemsetClient).1); reflexivity.
Defined.

(** ** The daily challenge and the client as a provider *)

Section ClientProvider.

Variable Atoi : gostring → Z * option error.
Variable htmlToText : gostring → gostring.

Lemma client_random_slugs (c : leetcode.Client) (count : Z) (p : Problem.t) :
  p ∈ (leetcode.GetRandomProblems c count).1 → Problem.Slug p ≠ [].
Proof.
  unfold leetcode.GetRandomProblems. case_decide; [by intros ?%elem_of_nil|].
  destruct (leetcode.problemset c) as [pairs [e|]]; [by intros ?%elem_of_nil|].
  rewrite collectCandidates_filter. cbn [app].
  case_decide; [by intros ?%elem_of_nil|]. cbn [fst]. intros Hp.
  apply elem_of_take in Hp as (i & Hp%list_elem_of_lookup_2 & _).
  rewrite Shuffle_Permutation in Hp.
  apply list_elem_of_fmap in Hp as (item & -> & Hitem).
  unfold eligible in Hitem. apply list_elem_of_filter in Hitem as [[_ Hslug] _].
  done.
Qed.

(** X17.  With the LeetCode client as the problem provider, the fetch of
    the daily challenge returns a problem exactly when it returns no error,
    and that problem has a non-empty slug; the supplementary problems then
    never hold that slug, nor an empty one. *)
Theorem X17_client_daily_is_excluded (answer : daily.challenge * option error)
    (c : leetcode.Client) (d : usecase.DailyDigest) :
  usecase.problems d = daily.provider Atoi htmlToText answer c →
  let fetched := usecase.GetDailyChallenge (usecase.problems d) in
  (fetched.2 = None ↔ fetched.1 ≠ None)
  ∧ ∀ p0, fetched.1 = Some p0 →
          Problem.Slug p0 ≠ []
          ∧ (Problem.Slug p0
             ∉ Problem.Slug <$> usecase.fetchRandomProblems d (Some p0))
          ∧ Forall (λ p, Problem.Slug p ≠ [])
              (usecase.fetchRandomProblems d (Some p0)).
Proof.
  intros Hprov fetched. unfold fetched. rewrite Hprov.
  cbn [daily.provider usecase.GetDailyChallenge].
  assert (∀ p0, (daily.GetDailyChallenge Atoi htmlToText answer).1 = Some p0 →
                Problem.Slug p0 ≠ []) as Hslug.
  { unfold daily.GetDailyChallenge, daily.problemOf.
    destruct answer as [q [e|]]; cbn [fst snd]; [done|].
    case_decide; [done|]. cbn. by intros p0 [= <-]. }
  split.
  { unfold daily.GetDailyChallenge, daily.problemOf.
    destruct answer as [q [e|]]; cbn [fst snd]; [done|]. by case_decide. }
  intros p0 Hp0. specialize (Hslug p0 Hp0). split; [done|].
  unfold usecase.fetchRandomProblems. rewrite Hprov.
  cbn [daily.provider usecase.GetRandomProblems].
  case_decide; [split; [by intros ?%elem_of_nil|constructor]|].
  destruct (leetcode.GetRandomProblems c (usecase.randomCount d))
    as [ps err] eqn:Hps.
  destruct err; [split; [by intros ?%elem_of_nil|constructor]|].
  rewrite decide_True by done.
  destruct (uniqueProblems_kept ps {[Problem.Slug p0]} []) as (kept & Hk & Hsub & _).
  edestruct (uniqueProblems_spec ps {[Problem.Slug p0]} []) as [_ Hr];
    [apply NoDup_nil_2|by intros q ?%elem_of_nil|].
  split.
  - intros Hin. apply list_elem_of_fmap in Hin as (p & Hp & Hpin).
    destruct (Hr p Hpin) as [Hnil|[_ Hnot]]; [by apply elem_of_nil in Hnil|].
    apply Hnot. rewrite <- Hp. set_solver.
  - rewrite Hk. cbn [app]. apply Forall_forall. intros p Hp.
    apply (client_random_slugs c (usecase.randomCount d)). rewrite Hps. cbn.
    eapply elem_of_submseteq; [exact Hp|by apply sublist_submseteq].
Qed.

End ClientProvider.

(** X17 on a digest over the client. *)
Lemma X17_witness :
  let fetched :=
    usecase.GetDailyChallenge (usecase.problems moreSamples.clientDigest) in
  (fetched.2 = None ↔ fetched.1 ≠ None)
  ∧ ∀ p0, fetched.1 = Some p0 →
          Problem.Slug p0 ≠ []
          ∧ (Problem.Slug p0
             ∉ Problem.Slug
               <$> usecase.fetchRandomProblems moreSamples.clientDigest (Some p0))
          ∧ Forall (λ p, Problem.Slug p ≠ [])
              (usecase.fetchRandomProblems moreSamples.clientDigest (Some p0)).
Proof.
  apply (X17_client_daily_is_excluded moreSamples.atoi moreSamples.plainText
           moreSamples.dailyAnswer samples.problemsetClient moreSamples.clientDigest).
  reflexivity.
Defined.

(** ** The dev.to provider *)

Lemma toArticle_source (it : devto.item) : Article.Source (devto.toArticle it) ≠ [].
Proof. unfold devto.toArticle. cbn. by repeat case_decide. Qed.

(** X18.  When the answer of dev.to is decoded, the provider fails for a
    positive count exactly when the answer holds no item; otherwise it
    returns as many articles as the smaller of the count and the number of
    items, drawn without replacement from the items, each with a non-empty
    source: the user's name, else the user name, else "dev.to". *)
Theorem X18_devto_articles (d : devto.DevToProvider) (count : Z)
    (payload : list devto.item) :
  0 < count →
  devto.response d = (payload, None) →
  let out := devto.GetRecommendedArticles d count in
  (out.2 = None ↔ payload ≠ [])
  ∧ len out.1 = Z.min count (len payload)
  ∧ out.1 ⊆+ devto.toArticle <$> payload
  ∧ Forall (λ a, Article.Source a ≠ []) out.1.
Proof.
  intros Hc Hresp out. unfold out, devto.GetRecommendedArticles.
  rewrite decide_False by lia. rewrite Hresp.
  pose proof (len_nonneg payload) as Hpos.
  case_decide as Hempty; cbn [fst snd].
  - assert (payload = []) as -> by (destruct payload; [done|];
      rewrite len_cons in Hempty; pose proof (len_nonneg payload); lia).
    split; [done|]. split; [change (len []) with 0; lia|]. split; [done|constructor].
  - set (n := if decide (len payload < count) then len payload else count).
    destruct (take_Shuffle_sample (devto.draw d) payload (Z.to_nat n))
      as [Hsub Hlen].
    split; [split; [by intros _ Hnil; rewrite Hnil in Hempty|done]|].
    split.
    { unfold len at 1. rewrite length_fmap, Hlen. unfold n, len. case_decide; lia. }
    split; [by apply fmap_submseteq|].
    apply Forall_fmap, Forall_forall. intros it _. apply toArticle_source.
Qed.

(** X18 on an answer of two items, one article being asked for. *)
Lemma X18_witness :
  let out := devto.GetRecommendedArticles moreSamples.devtoProvider 1 in
  (out.2 = None ↔ (devto.response moreSamples.devtoProvider).1 ≠ [])
  ∧ len out.1 = Z.min 1 (len (devto.response moreSamples.devtoProvider).1)
  ∧ out.1 ⊆+ devto.toArticle <$> (devto.response moreSamples.devtoProvider).1
  ∧ Forall (λ a, Article.Source a ≠ []) out.1.
Proof.
  apply (X18_devto_articles moreSamples.devtoProvider 1
           (devto.response moreSamples.devtoProvider).1); reflexivity.
Defined.

(** ** The Gemini article provider *)

Section GeminiArticles.

Variable Unmarshal : gostring → list gemini.item * option error.

Lemma suggestions_spec (items : list gemini.item) (results : list Article.t) :
  ∃ added, gemini.suggestions items results = results ++ added
           ∧ (length added ≤ length items)%nat
           ∧ Forall filled added.
Proof.
  revert results. induction items as [|it rest IH]; intros results.
  { exists []. by rewrite app_nil_r. }
  cbn [gemini.suggestions]. case_decide as Htitle.
  - destruct (IH results) as (added & -> & Hlen & Hall).
    exists added. split; [done|]. split; [cbn; lia|done].
  - match goal with |- context [results ++ [?a]] => set (art := a) end.
    destruct (IH (results ++ [art])) as (added & -> & Hlen & Hall).
    exists (art :: added). rewrite <- app_assoc. split; [done|].
    split; [cbn; lia|]. constructor; [|done].
    unfold art, filled. cbn. split; [done|]. split; by repeat case_decide.
Qed.

Lemma parseArticles_spec (raw : gostring) (limit : Z) :
  let out := gemini.parseArticles Unmarshal raw limit in
  (out.2 = None ↔ out.1 ≠ [])
  ∧ (0 < limit → len out.1 ≤ limit)
  ∧ Forall filled out.1.
Proof.
  unfold gemini.parseArticles.
  destruct (Unmarshal _) as [items [e|]]; cbn zeta.
  { cbn. split; [done|]. split; [unfold len; cbn; lia|constructor]. }
  case_decide as Hnone.
  { cbn. split; [done|]. split; [unfold len; cbn; lia|constructor]. }
  match goal with |- context [gemini.suggestions ?l []] => set (kept := l) end.
  destruct (suggestions_spec kept []) as (added & Hadded & Hlen & Hall).
  rewrite Hadded. cbn [app]. case_decide as Hempty.
  { cbn. split; [done|]. split; [unfold len; cbn; lia|constructor]. }
  cbn [fst snd]. split.
  { split; [|done]. intros _ ->. by apply Hempty. }
  split; [|done]. intros Hlimit.
  assert (len kept ≤ limit ∨ kept = items ∧ ¬ limit < len items) as Hkept.
  { unfold kept. case_decide as Hcut.
    - left. unfold len. rewrite length_take. lia.
    - right. split; [done|]. lia. }
  unfold len in *. destruct Hkept as [Hk|[-> Hk]]; lia.
Qed.

(** X19.  The parser of the model's suggestions succeeds exactly when it
    returns at least one article; for a positive limit it returns at most
    that many; every article it returns has a non-empty title, link and
    source, a missing link or source being filled in. *)
Theorem X19_gemini_suggestions (raw : gostring) (limit : Z) :
  let out := gemini.parseArticles Unmarshal raw limit in
  (out.2 = None ↔ out.1 ≠ [])
  ∧ (0 < limit → len out.1 ≤ limit)
  ∧ Forall filled out.1.
Proof. apply parseArticles_spec. Qed.

(** X20.  For a positive count the Gemini provider fails with "gemini
    configuration missing" when the key or the model is empty, whatever the
    backend would answer; in every case it succeeds exactly when it returns
    at least one article, returns at most [count] articles and, when the
    topic limit is positive, at most that many, all with title, link and
    source filled. *)
Theorem X20_gemini_provider_bounds (g : gemini.GeminiProvider) (count : Z) :
  0 < count →
  let out := gemini.GetRecommendedArticles Unmarshal g count in
  (gemini.apiKey g = [] ∨ gemini.model g = [] →
   out = ([], Some (str "gemini configuration missing")))
  ∧ (out.2 = None ↔ out.1 ≠ [])
  ∧ len out.1 ≤ count
  ∧ (0 < gemini.topicLimit g → len out.1 ≤ gemini.topicLimit g)
  ∧ Forall filled out.1.
Proof.
  intros Hc out. unfold out, gemini.GetRecommendedArticles.
  rewrite decide_False by lia. case_decide as Hcfg.
  { split; [done|]. cbn. split; [done|]. unfold len. cbn. split; [lia|]. split; [lia|constructor]. }
  split; [done|].
  set (n := if decide (0 < gemini.topicLimit g ∧ gemini.topicLimit g < count)
            then gemini.topicLimit g else count).
  assert (0 < n ∧ n ≤ count ∧ (0 < gemini.topicLimit g → n ≤ gemini.topicLimit g))
    as (Hn & Hnc & Hnt) by (unfold n; case_decide; lia).
  destruct (gemini.respond g n) as [candidates [e|]].
  { cbn. split; [done|]. unfold len. cbn. split; [lia|]. split; [lia|constructor]. }
  case_decide as Hraw.
  { cbn. split; [done|]. unfold len. cbn. split; [lia|]. split; [lia|constructor]. }
  destruct (parseArticles_spec (gemini.extractFirstText candidates) n)
    as (Hiff & Hlen & Hall).
  split; [done|]. specialize (Hlen Hn). split; [lia|]. split; [|done].
  intros Ht. specialize (Hnt Ht). lia.
Qed.

End GeminiArticles.

(** X19 on an array of one suggestion, one being asked for. *)
Lemma X19_witness :
  len (gemini.parseArticles moreSamples.unmarshal (str "[{}]") 1).1 ≤ 1.
Proof.
  destruct (X19_gemini_suggestions moreSamples.unmarshal (str "[{}]") 1)
    as (_ & Hlimit & _).
  apply Hlimit. lia.
Defined.

(** X20 on a provider whose model suggests one title without a link. *)
Lemma X20_witness :
  let out :=
    gemini.GetRecommendedArticles moreSamples.unmarshal moreSamples.geminiProvider 2 in
  (gemini.apiKey moreSamples.geminiProvider = []
   ∨ gemini.model moreSamples.geminiProvider = [] →
   out = ([], Some (str "gemini configuration missing")))
  ∧ (out.2 = None ↔ out.1 ≠ [])
  ∧ len out.1 ≤ 2
  ∧ (0 < gemini.topicLimit moreSamples.geminiProvider →
     len out.1 ≤ gemini.topicLimit moreSamples.geminiProvider)
  ∧ Forall filled out.1.
Proof.
  apply (X20_gemini_provider_bounds moreSamples.unmarshal
           moreSamples.geminiProvider 2).
  lia.
Defined.

(** ** The configuration *)

(** X21.  Loading the configuration fails exactly when the webhook URL is
    not set, and then returns no configuration; a loaded configuration has
    the webhook URL of the environment, a positive request timeout and topic
    limit, and a non-empty schedule and model name; the two counts are
    taken as parsed: a count that is set and parses, also to zero or below,
    is kept. *)
Theorem X21_config_load (Getenv : gostring → gostring)
    (Atoi ParseDuration : gostring → Z * option error) :
  let out := config.Load Getenv Atoi ParseDuration in
  (out.2 = None ↔ Getenv (str "DISCORD_WEBHOOK_URL") ≠ [])
  ∧ (out.1 = None ↔ out.2 ≠ None)
  ∧ ∀ cfg, out.1 = Some cfg →
      config.DiscordWebhookURL cfg = Getenv (str "DISCORD_WEBHOOK_URL")
      ∧ 0 < config.RequestTimeout cfg
      ∧ 0 < config.GeminiTopicLimit cfg
      ∧ config.ScheduleCron cfg ≠ []
      ∧ config.GeminiModel cfg ≠ []
      ∧ (∀ n, Getenv (str "RANDOM_PROBLEM_COUNT") ≠ [] →
              Atoi (Getenv (str "RANDOM_PROBLEM_COUNT")) = (n, None) →
              config.RandomProblemCount cfg = n)
      ∧ (∀ n, Getenv (str "ARTICLE_COUNT") ≠ [] →
              Atoi (Getenv (str "ARTICLE_COUNT")) = (n, None) →
              config.ArticleCount cfg = n).
Proof.
  intros out. unfold out, config.Load. cbn [config.DiscordWebhookURL].
  assert (config.getenvDefault Getenv (str "DISCORD_WEBHOOK_URL") []
          = Getenv (str "DISCORD_WEBHOOK_URL")) as ->.
  { unfold config.getenvDefault. by case_decide. }
  case_decide as Hurl; cbn [fst snd].
  { split; [done|]. split; [done|]. by intros cfg [=]. }
  split; [done|]. split; [done|]. intros cfg [= <-]. cbn.
  split; [done|]. split.
  { case_decide; [unfold config.defaultTimeout; lia|lia]. }
  split.
  { case_decide; [unfold config.defaultGeminiTopicLimit; lia|lia]. }
  split; [unfold config.getenvDefault; by case_decide|].
  split; [unfold config.getenvDefault; by case_decide|].
  unfold config.parseIntDefault.
  split; intros n Hset Hparse; rewrite decide_True by done; by rewrite Hparse.
Qed.

(** X21 on an environment that sets the webhook URL. *)
Lemma X21_witness :
  (config.Load moreSamples.env moreSamples.atoi moreSamples.parseDuration).2 = None.
Proof.
  destruct (X21_config_load moreSamples.env moreSamples.atoi
              moreSamples.parseDuration) as [[_ Hset] _].
  apply Hset. discriminate.
Defined.

(** ** The notifier *)

(** X22.  Sending never goes out of range.  Without a webhook URL it
    returns "webhook URL is empty"; with one it returns what posting the
    payload returns, and the payload has one field for each field of the
    notification, in the same order and with the same inline flag, a name or
    value within its limit being passed unchanged. *)
Theorem X22_send_posts_the_fields (w : discord.Webhook) (n : Notification.t) :
  ∃ r, discord.Send w n = Some r
       ∧ (discord.webhookURL w = [] → r = Some (str "webhook URL is empty"))
       ∧ (discord.webhookURL w ≠ [] →
          ∃ p, discord.payload n = Some p ∧ r = discord.post w p
               ∧ length (discord.fields p) = length (Notification.Fields n)
               ∧ discord.inline <$> discord.fields p
                 = NotificationField.Inline <$> Notification.Fields n
               ∧ ∀ i f e, Notification.Fields n !! i = Some f →
                          discord.fields p !! i = Some e →
                          (len (NotificationField.Name f) ≤ 256 →
                           discord.name e = NotificationField.Name f)
                          ∧ (len (NotificationField.Value f) ≤ 1024 →
                             discord.value e = NotificationField.Value f)).
Proof.
  unfold discord.Send. destruct (payload_spec n) as (p & Hp & _ & _ & _ & _ & Hfs).
  case_decide as Hurl.
  { eexists. split; [done|]. by split. }
  rewrite Hp. cbn. eexists. split; [done|]. split; [done|]. intros _.
  exists p. split; [done|]. split; [done|].
  split; [symmetry; by eapply Forall2_length|]. split.
  - clear Hp. induction Hfs as [|f e fs es (_ & _ & _ & _ & Hi) _ IH]; [done|].
    cbn [fmap list_fmap]. cbn [fmap list_fmap] in IH. by rewrite Hi, IH.
  - intros i f e Hf He.
    destruct (Forall2_lookup_lr _ _ _ _ _ _ Hfs Hf He) as (_ & _ & Hn & Hv & _).
    by split.
Qed.

(** X22 on a webhook with a URL and a notification of one field. *)
Lemma X22_witness :
  ∃ r, discord.Send moreSamples.webhook moreSamples.notice = Some r
       ∧ ∃ p, discord.payload moreSamples.notice = Some p
              ∧ r = discord.post moreSamples.webhook p
              ∧ length (discord.fields p)
                = length (Notification.Fields moreSamples.notice)
              ∧ discord.inline <$> discord.fields p
                = NotificationField.Inline <$> Notification.Fields moreSamples.notice
              ∧ ∀ i f e, Notification.Fields moreSamples.notice !! i = Some f →
                         discord.fields p !! i = Some e →
                         (len (NotificationField.Name f) ≤ 256 →
                          discord.name e = NotificationField.Name f)
                         ∧ (len (NotificationField.Value f) ≤ 1024 →
                            discord.value e = NotificationField.Value f).
Proof.
  destruct (X22_send_posts_the_fields moreSamples.webhook moreSamples.notice)
    as (r & Hsend & _ & Hposted).
  exists r. split; [exact Hsend|]. apply Hposted. discriminate.
Defined.

(** ** The text of an HTML tree *)

Lemma node_Forall_ind (P : htmltext.node → Prop) :
  (∀ type data children, Forall P children → P (htmltext.Node type data children)) →
  ∀ n, P n.
Proof.
  intros H. fix IH 1. intros [type data children]. apply H.
  induction children as [|child rest IHrest]; constructor; [apply IH|exact IHrest].
Qed.

Lemma withoutBreaks_app (s t : gostring) :
  withoutBreaks (s ++ t) = withoutBreaks s ++ withoutBreaks t.
Proof. apply filter_app. Qed.

Lemma childrenText_spec (children : list htmltext.node) :
  Forall (λ n, ∀ b, htmltext.extractText n b = b ++ htmltext.extractText n []
                    ∧ withoutBreaks (htmltext.extractText n [])
                      = withoutBreaks (textOf n)) children →
  ∀ b, childrenText children b = b ++ childrenText children []
       ∧ withoutBreaks (childrenText children []) = withoutBreaks (textsOf children).
Proof.
  induction 1 as [|child rest Hchild _ IH]; intros b.
  { cbn. by rewrite app_nil_r. }
  cbn [childrenText textsOf]. fold childrenText. fold textsOf.
  destruct (Hchild b) as [Hb _]. destruct (Hchild []) as [_ Htext].
  destruct (IH (htmltext.extractText child b)) as [-> _].
  destruct (IH (htmltext.extractText child [])) as [-> Hrest].
  split.
  - rewrite Hb. by rewrite <- app_assoc.
  - by rewrite !withoutBreaks_app, Htext, Hrest.
Qed.

(** X23.  [extractText] only appends to the builder, and what it appends
    is, line breaks apart, the data of the text nodes of the tree in
    document order: elements, comments and the other nodes contribute
    nothing but line breaks. *)
Theorem X23_extracted_text (n : htmltext.node) (builder : gostring) :
  htmltext.extractText n builder = builder ++ htmltext.extractText n []
  ∧ withoutBreaks (htmltext.extractText n []) = withoutBreaks (textOf n).
Proof.
  revert builder. induction n as [type data children Hchildren] using node_Forall_ind.
  intros builder. pose proof (childrenText_spec children Hchildren) as Hspec.
  change (textOf (htmltext.Node type data children))
    with (match type with htmltext.TextNode => data | _ => [] end
          ++ textsOf children).
  assert (∀ b, htmltext.extractText (htmltext.Node type data children) b
    = match type with
      | htmltext.ElementNode =>
          if decide (data = str "p" ∨ data = str "li")
          then childrenText children
                 (if decide (data = str "br" ∨ data = str "p" ∨ data = str "li")
                  then b ++ usecase.nl else b) ++ usecase.nl
          else childrenText children
                 (if decide (data = str "br" ∨ data = str "p" ∨ data = str "li")
                  then b ++ usecase.nl else b)
      | htmltext.TextNode => childrenText children (b ++ data)
      | _ => childrenText children b
      end) as Hunfold by (intros b; by destruct type).
  rewrite !Hunfold.
  destruct type; repeat case_decide;
    repeat match goal with
    | |- context [childrenText children (?x ++ ?y)] =>
        destruct (Hspec (x ++ y)) as [-> _]
    | |- context [childrenText children builder] =>
        destruct (Hspec builder) as [-> _]
    end;
    destruct (Hspec []) as [_ Htexts];
    rewrite ?app_nil_l, ?withoutBreaks_app, ?Htexts, <- ?app_assoc;
    by rewrite ?app_nil_r.
Qed.

(** ** The sections of the digest *)

Lemma Join_nonempty (x : gostring) (rest : list gostring) (sep : gostring) :
  x ≠ [] → GoStrings.Join (x :: rest) sep ≠ [].
Proof. destruct x; [done|]. by destruct rest. Qed.

Lemma formatProblemDetail_nonempty (p : Problem.t) (v : gostring) :
  usecase.formatProblemDetail p = Some v → v ≠ [].
Proof.
  unfold usecase.formatProblemDetail. case_decide.
  - destruct (usecase.summarizeText _ _); [|done]. cbn [mbind option_bind].
    intros [= <-]. by repeat case_decide.
  - intros [= <-]. by case_decide.
Qed.

Lemma formatPracticeQueue_nonempty (p : Problem.t) (rest : list Problem.t) :
  usecase.formatPracticeQueue (p :: rest) ≠ [].
Proof. unfold usecase.formatPracticeQueue. cbn [imap]. by apply Join_nonempty. Qed.

Lemma formatArticleList_nonempty (a : Article.t) (rest : list Article.t) :
  usecase.formatArticleList (a :: rest) ≠ [].
Proof. unfold usecase.formatArticleList. cbn [imap]. by apply Join_nonempty. Qed.

(** X24.  When the daily fetch succeeds, the notification of the run has
    one field for each part that is present and none for the others: the
    daily challenge when there is a daily problem, the practice queue when
    there are supplementary problems, the reading list when there are
    articles, in this order; no field is inline and no field has an empty
    value. *)
Theorem X24_run_sections (d : usecase.DailyDigest) (daily : option Problem.t) :
  usecase.GetDailyChallenge (usecase.problems d) = (daily, None) →
  ∃ n, usecase.Run d
       = Some {| usecase.returned := usecase.notifier d n; usecase.sent := [n] |}
       ∧ NotificationField.Name <$> Notification.Fields n
         = sectionsOf daily (usecase.fetchRandomProblems d daily)
             (usecase.fetchArticles d)
       ∧ Forall (λ f, NotificationField.Inline f = false
                      ∧ NotificationField.Value f ≠ [])
           (Notification.Fields n).
Proof.
  intros Hd. destruct (Run_sends d daily Hd) as (insight & n & _ & _ & Hn & Hrun).
  exists n. split; [done|]. revert Hn. unfold usecase.buildNotification.
  generalize (usecase.fetchRandomProblems d daily) as random.
  generalize (usecase.fetchArticles d) as arts. intros arts random.
  assert (∃ fs,
    match daily with
    | Some p => v ← usecase.formatProblemDetail p;
                Some [NotificationField.mk (str "Daily Challenge") v false]
    | None => Some []
    end = Some fs
    ∧ NotificationField.Name <$> fs
      = match daily with Some _ => [str "Daily Challenge"] | None => [] end
    ∧ Forall (λ f, NotificationField.Inline f = false
                   ∧ NotificationField.Value f ≠ []) fs) as (fs & -> & Hnames & Hfs).
  { destruct daily as [p|]; [|by exists []].
    destruct (formatProblemDetail_total p) as [v Hv]. rewrite Hv.
    cbn [mbind option_bind]. eexists. split; [done|]. split; [done|].
    apply Forall_singleton. split; [done|]. by eapply formatProblemDetail_nonempty. }
  cbn [mbind option_bind]. intros [= <-]. cbn [Notification.Fields].
  unfold sectionsOf. rewrite <- Hnames.
  destruct random as [|p random], arts as [|a arts];
    repeat case_decide;
    try (exfalso; unfold len in *; cbn in *; lia);
    rewrite ?fmap_app, ?Forall_app, ?app_nil_r, <- ?app_assoc;
    (split; [done|]); repeat split; try done;
    apply Forall_singleton; (split; [done|]);
    first [apply formatPracticeQueue_nonempty|apply formatArticleList_nonempty].
Qed.

(** X24 on the digest over the client and the composite provider. *)
Lemma X24_witness :
  ∃ n, usecase.Run moreSamples.clientDigest
       = Some {| usecase.returned := usecase.notifier moreSamples.clientDigest n;
                 usecase.sent := [n] |}
       ∧ NotificationField.Name <$> Notification.Fields n
         = sectionsOf
             (usecase.GetDailyChallenge (usecase.problems moreSamples.clientDigest)).1
             (usecase.fetchRandomProblems moreSamples.clientDigest
                (usecase.GetDailyChallenge
                   (usecase.problems moreSamples.clientDigest)).1)
             (usecase.fetchArticles moreSamples.clientDigest)
       ∧ Forall (λ f, NotificationField.Inline f = false
                      ∧ NotificationField.Value f ≠ [])
           (Notification.Fields n).
Proof.
  apply (X24_run_sections moreSamples.clientDigest
           (usecase.GetDailyChallenge (usecase.problems moreSamples.clientDigest)).1).
  reflexivity.
Defined.

(** ** The reading list of a digest over the composite provider *)

(** X25.  When the article provider of the digest is a composite provider,
    the reading list of the run has at most [articleCount] articles, their
    keys are non-empty and pairwise distinct, and it is empty when the
    count is not positive. *)
Theorem X25_digest_reading_list (ToLower : gostring → gostring)
    (c : articles.CompositeProvider) (d : usecase.DailyDigest) :
  usecase.articles d = Some (articles.GetRecommendedArticles ToLower c) →
  len (usecase.fetchArticles d) ≤ Z.max 0 (usecase.articleCount d)
  ∧ NoDup (articles.canonicalArticleKey ToLower <$> usecase.fetchArticles d)
  ∧ Forall (λ a, articles.canonicalArticleKey ToLower a ≠ [])
      (usecase.fetchArticles d)
  ∧ (usecase.articleCount d ≤ 0 → usecase.fetchArticles d = []).
Proof.
  intros Hprov. unfold usecase.fetchArticles. rewrite Hprov.
  assert (len (@nil Article.t) = 0) as Hnil by done.
  case_decide as Hcount.
  { rewrite Hnil. split; [lia|]. split; [apply NoDup_nil_2|]. by split. }
  unfold articles.GetRecommendedArticles. rewrite decide_False by lia.
  destruct (queryProviders_inv ToLower (usecase.articleCount d)
              (articles.providers c) articles.initialState)
    as [[Hnd Hkeys] Hlen].
  { split; [apply NoDup_nil_2|]. by intros a ?%elem_of_nil. }
  { change (0 ≤ usecase.articleCount d). lia. }
  fold (articles.finalState ToLower c (usecase.articleCount d)) in Hnd, Hkeys, Hlen.
  assert (len (articles.results (articles.finalState ToLower c (usecase.articleCount d)))
          ≤ Z.max 0 (usecase.articleCount d)
          ∧ NoDup (articles.canonicalArticleKey ToLower
                   <$> articles.results
                         (articles.finalState ToLower c (usecase.articleCount d)))
          ∧ Forall (λ a, articles.canonicalArticleKey ToLower a ≠ [])
              (articles.results (articles.finalState ToLower c (usecase.articleCount d)))
          ∧ (usecase.articleCount d ≤ 0 →
             articles.results (articles.finalState ToLower c (usecase.articleCount d))
             = [])) as Hres.
  { split; [lia|]. split; [done|]. split; [|lia].
    apply Forall_forall. intros a Ha. by apply Hkeys. }
  destruct (articles.firstErr _); [|done].
  case_decide; [|done].
  rewrite Hnil. split; [lia|]. split; [apply NoDup_nil_2|]. by split.
Qed.

(** X25 on the same digest, two articles being asked for. *)
Lemma X25_witness :
  len (usecase.fetchArticles moreSamples.clientDigest)
  ≤ Z.max 0 (usecase.articleCount moreSamples.clientDigest)
  ∧ NoDup (articles.canonicalArticleKey samples.toLowerASCII
           <$> usecase.fetchArticles moreSamples.clientDigest)
  ∧ Forall (λ a, articles.canonicalArticleKey samples.toLowerASCII a ≠ [])
      (usecase.fetchArticles moreSamples.clientDigest)
  ∧ (usecase.articleCount moreSamples.clientDigest ≤ 0 →
     usecase.fetchArticles moreSamples.clientDigest = []).
Proof.
  apply (X25_digest_reading_list samples.toLowerASCII samples.twoFeeds
           moreSamples.clientDigest).
  reflexivity.
Defined.

(** ** The links of the problems of the client *)



